(** * P2P ingestion worker: rate limiter, extractor and loader

    A shallow embedding of [worker/rate_limiter.py], [worker/extractor.py],
    [worker/loader.py] and [worker/db.py], and the properties of their
    specification.

    Conventions of the embedding.
    - Python floats are idealised as exact rationals ([Q]); nothing below
      depends on rounding.
    - Every source of outside information is an explicit argument: the
      readings of the wall clock, the HTTP server, the random UUIDs, the
      [Decimal] constructor of the standard library, the completion
      order of the worker pool and the storage layer's acceptance of a
      row at flush time.
    - A Python call that may raise returns a [result]: [Ok v] or
      [Raise e]; state is passed explicitly. *)

From Stdlib Require Import ZArith QArith Qminmax Ascii String List Permutation Lia Lqa.
From stdpp Require Import gmap strings list.
From Equations Require Import Equations.
Import ListNotations.

Local Open Scope string_scope.
Local Open Scope Z_scope.

(** ** Exceptions and results *)

(** The exception classes the worker can meet. All of them derive from
    Python's [Exception], so an [except Exception] clause catches each. *)
Inductive exn : Type :=
| KeyError (key : string)
| TypeError
| AttributeError
| ValueError
| ZeroDivisionError
| OverflowError             (* a sleep too long for the C clock *)
| InvalidOperation          (* decimal.InvalidOperation, an ArithmeticError *)
| RequestException          (* transport failure or exhausted retries *)
| HTTPError (status : Z)    (* response.raise_for_status() *)
| JSONDecodeError           (* response.json() *)
| DBAPIError.               (* a statement the storage layer rejects *)

Inductive result (A : Type) : Type :=
| Ok (a : A)
| Raise (e : exn).
Arguments Ok {A} a.
Arguments Raise {A} e.

Definition bind {A B} (r : result A) (k : A -> result B) : result B :=
  match r with
  | Ok a => k a
  | Raise e => Raise e
  end.

Notation "x <- r ;; k" := (bind r (fun x => k))
  (at level 100, r at next level, right associativity).

Definition is_ok {A} (r : result A) : bool :=
  match r with Ok _ => true | Raise _ => false end.

(** ** The token bucket of [rate_limiter.py] *)

Module RateLimiter.

Local Open Scope Q_scope.

(** The two settings [TokenBucketRateLimiter.__init__] falls back on. *)
Record Settings := {
  rate_limit_requests_per_minute : Z;
  rate_limit_burst_size : Z
}.

Definition default_settings : Settings :=
  {| rate_limit_requests_per_minute := 100; rate_limit_burst_size := 20 |}.

Record TokenBucketRateLimiter := {
  rate : Z;
  burst_size : Z;
  tokens_per_second : Q;
  tokens : Q;
  last_refill : Q;
  total_requests : Z;
  total_waits : Z
}.

(** [x or d] on an optional integer: [None] and [0] are both falsy. *)
Definition or_default (x : option Z) (d : Z) : Z :=
  match x with
  | Some v => if (v =? 0)%Z then d else v
  | None => d
  end.

(** [__init__(rate, burst_size)], [now] being the reading of
    [time.time()]. *)
Definition init (settings : Settings) (rate_arg burst_arg : option Z)
    (now : Q) : TokenBucketRateLimiter :=
  let r := or_default rate_arg (rate_limit_requests_per_minute settings) in
  let b := or_default burst_arg (rate_limit_burst_size settings) in
  {| rate := r;
     burst_size := b;
     tokens_per_second := inject_Z r / 60;
     tokens := inject_Z b;
     last_refill := now;
     total_requests := 0;
     total_waits := 0 |}.

Definition Qltb (x y : Q) : bool := negb (Qle_bool y x).

(** Python's [min(a, b)]: the first argument unless the second is
    strictly smaller. *)
Definition py_min (a b : Q) : Q := if Qltb b a then b else a.

(** The token count after the refill step of [acquire]. *)
Definition refilled (s : TokenBucketRateLimiter) (now : Q) : Q :=
  let elapsed := now - last_refill s in
  py_min (inject_Z (burst_size s)) (tokens s + elapsed * tokens_per_second s).

(** The outcome of [acquire]: the limiter as the call leaves it,
    either the returned wait or the exception that escaped, and how
    many times [time.time()] was read. *)
Record outcome := {
  after : TokenBucketRateLimiter;
  returned : result Q;
  clock_readings : nat
}.

(** The longest sleep [time.sleep] takes: it counts the sleep in
    nanoseconds in a signed 64-bit integer of the C clock and raises
    [OverflowError] beyond. *)
Definition sleep_max : Q := 9223372036854775807 # 1000000000.

(** [acquire(tokens=n)]. [now] is the reading of [time.time()] on
    entry, [now_after] the reading taken once [time.sleep] is over
    (only used on the waiting path). The division raises on a zero
    rate and [time.sleep] raises on a negative length and on one
    beyond [sleep_max], in all three cases before the token count is
    reset. *)
Definition acquire (now now_after : Q) (n : Z)
    (s : TokenBucketRateLimiter) : outcome :=
  let s1 :=
    {| rate := rate s; burst_size := burst_size s;
       tokens_per_second := tokens_per_second s;
       tokens := refilled s now;
       last_refill := now;
       total_requests := total_requests s;
       total_waits := total_waits s |} in
  if Qle_bool (inject_Z n) (tokens s1) then
    {| after :=
         {| rate := rate s1; burst_size := burst_size s1;
            tokens_per_second := tokens_per_second s1;
            tokens := tokens s1 - inject_Z n;
            last_refill := last_refill s1;
            total_requests := (total_requests s1 + 1)%Z;
            total_waits := total_waits s1 |};
       returned := Ok 0;
       clock_readings := 1 |}
  else
    let tokens_needed := inject_Z n - tokens s1 in
    if Qeq_bool (tokens_per_second s1) 0 then
      {| after := s1; returned := Raise ZeroDivisionError;
         clock_readings := 1 |}
    else
      let wait_time := tokens_needed / tokens_per_second s1 in
      if Qltb wait_time 0 then
        {| after := s1; returned := Raise ValueError;
           clock_readings := 1 |}
      else if Qltb sleep_max wait_time then
        {| after := s1; returned := Raise OverflowError;
           clock_readings := 1 |}
      else
        {| after :=
             {| rate := rate s1; burst_size := burst_size s1;
                tokens_per_second := tokens_per_second s1;
                tokens := 0;
                last_refill := now_after;
                total_requests := (total_requests s1 + 1)%Z;
                total_waits := (total_waits s1 + 1)%Z |};
           returned := Ok wait_time;
           clock_readings := 2 |}.

(** [get_stats()]. *)
Record Stats := {
  st_total_requests : Z;
  st_total_waits : Z;
  st_current_tokens : Q;
  st_wait_percentage : Q
}.

Definition get_stats (s : TokenBucketRateLimiter) : Stats :=
  {| st_total_requests := total_requests s;
     st_total_waits := total_waits s;
     st_current_tokens := tokens s;
     st_wait_percentage :=
       if (total_requests s >? 0)%Z
       then inject_Z (total_waits s) / inject_Z (total_requests s) * 100
       else 0 |}.

(** [k] successive [acquire(1)] calls under a clock that stands still
    at [now]; the list of the waits returned. *)
Fixpoint acquire_many (k : nat) (now : Q) (s : TokenBucketRateLimiter)
    : list (result Q) :=
  match k with
  | O => []
  | S k' =>
      let o := acquire now now 1 s in
      returned o :: acquire_many k' now (after o)
  end.

End RateLimiter.

(** ** Python values *)

(** [decimal.Decimal]: a finite number [(-1)^negative * coefficient *
    10^exponent], an infinity or a NaN. *)
Inductive Decimal : Type :=
| DFinite (negative : bool) (coefficient : N) (exponent : Z)
| DInfinity (negative : bool)
| DNaN.

(** The values a decoded JSON document is made of, plus [Decimal]. A
    dict keeps its keys in insertion order. *)
#[local] Set Warnings "-register-all".
Inductive pyval : Type :=
| PNone
| PBool (b : bool)
| PInt (z : Z)
| PFloat (mantissa exponent : Z)
| PStr (s : string)
| PDecimal (d : Decimal)
| PList (items : list pyval)
| PDict (entries : list (string * pyval)).

Fixpoint assoc {V : Type} (k : string) (entries : list (string * V))
    : option V :=
  match entries with
  | [] => None
  | (k', v) :: rest => if String.eqb k k' then Some v else assoc k rest
  end.

(** [v[k]] for a string key. *)
Definition subscript (v : pyval) (k : string) : result pyval :=
  match v with
  | PDict entries =>
      match assoc k entries with
      | Some x => Ok x
      | None => Raise (KeyError k)
      end
  | _ => Raise TypeError
  end.

(** [v.get(k, default)]: only a dict has the method. *)
Definition get (v : pyval) (k : string) (default : pyval) : result pyval :=
  match v with
  | PDict entries =>
      match assoc k entries with
      | Some x => Ok x
      | None => Ok default
      end
  | _ => Raise AttributeError
  end.

Fixpoint chars (s : string) : list pyval :=
  match s with
  | EmptyString => []
  | String c rest => PStr (String c EmptyString) :: chars rest
  end.

(** What [for x in v] walks over: the items of a list, the characters
    of a string, the keys of a dict. *)
Definition iterate (v : pyval) : result (list pyval) :=
  match v with
  | PList items => Ok items
  | PStr s => Ok (chars s)
  | PDict entries => Ok (map (fun kv => PStr (fst kv)) entries)
  | _ => Raise TypeError
  end.

(** Truth value of [v] in an [if]. *)
Definition truthy (v : pyval) : bool :=
  match v with
  | PNone => false
  | PBool b => b
  | PInt z => negb (z =? 0)%Z
  | PFloat m _ => negb (m =? 0)%Z
  | PStr s => negb (String.eqb s "")
  | PDecimal (DFinite _ c _) => negb (c =? 0)%N
  | PDecimal _ => true
  | PList items => match items with [] => false | _ => true end
  | PDict entries => match entries with [] => false | _ => true end
  end.

(** [v != s] for a string literal [s]. *)
Definition differs_from_str (v : pyval) (s : string) : bool :=
  match v with
  | PStr s' => negb (String.eqb s' s)
  | _ => true
  end.

(** [d <= 0]; an ordering comparison on a NaN signals
    [InvalidOperation]. *)
Definition decimal_le_zero (d : Decimal) : result bool :=
  match d with
  | DFinite negative c _ => Ok ((c =? 0)%N || negative)
  | DInfinity negative => Ok negative
  | DNaN => Raise InvalidOperation
  end.

(** [try: r except (classes): handler]. *)
Definition try_except {A} (r : result A) (caught : exn -> bool)
    (handler : exn -> result A) : result A :=
  match r with
  | Ok a => Ok a
  | Raise e => if caught e then handler e else Raise e
  end.

Definition is_KeyError (e : exn) : bool :=
  match e with KeyError _ => true | _ => false end.

Definition is_ValueError_or_TypeError (e : exn) : bool :=
  match e with
  | ValueError | TypeError | JSONDecodeError => true
  | _ => false
  end.

Definition is_Exception (e : exn) : bool := true.

(** ** The extractor of [extractor.py] *)

Module Extractor.

Import RateLimiter.

(** The two POST requests the extractor sends: pair discovery (an empty
    JSON body) and one page of the offer search. *)
Inductive Request : Type :=
| PairsRequest
| SearchRequest (page rows : Z) (tradeType : string) (asset fiat : pyval).

(** What [requests] hands back once its own retries are over: the
    status code, and the decoded body when the body is valid JSON. *)
Record Response := {
  status_code : Z;
  json_body : option pyval
}.

(** The outside world as the extractor sees it.
    - [time_time k]: the [k]-th reading of [time.time()];
    - [session_post history r]: what one call of [session.post] with
      [r] gives after the calls of [history] (latest first): the last
      response the retry adapter obtained, however often it sent the
      request, or the exception raised once its retries are exhausted;
    - [uuid4 k]: the text of the [k]-th random UUID;
    - [Decimal_of_string s]: the standard library's [Decimal(s)], [None]
      when it signals [InvalidOperation];
    - [Decimal_of_float m e]: [Decimal(str(x))] for the float
      [x = m * 2^e], whose text always is a numeric string;
    - [max_pages_per_pair]: the setting of that name. *)
Record Env := {
  time_time : nat -> Q;
  session_post : list Request -> Request -> result Response;
  uuid4 : nat -> string;
  Decimal_of_string : string -> option Decimal;
  Decimal_of_float : Z -> Z -> Decimal;
  max_pages_per_pair : Z
}.

(** The state the extractor acts on: the shared rate limiter, how many
    clock readings and random UUIDs were consumed, and the calls of
    [session.post] made so far (latest first), each with the request
    it was given. What the retry adapter of [_create_session] sends
    again inside one call belongs to that call and is not listed. *)
Record World := {
  limiter : TokenBucketRateLimiter;
  clock_reads : nat;
  uuids_drawn : nat;
  posted : list Request
}.

(** [rate_limiter.acquire()] on the shared limiter: one clock reading
    on entry, a second one after the sleep. *)
Definition rate_limiter_acquire (E : Env) (w : World) : World * result Q :=
  let o := acquire (time_time E (clock_reads w))
                   (time_time E (S (clock_reads w))) 1 (limiter w) in
  ({| limiter := after o;
      clock_reads := clock_readings o + clock_reads w;
      uuids_drawn := uuids_drawn w;
      posted := posted w |},
   returned o).

(** [self.session.post(url, ...)], [response.raise_for_status()] and
    [response.json()] in sequence. One call is recorded, whatever the
    retry adapter sends underneath. *)
Definition post_json (E : Env) (r : Request) (w : World)
    : World * result pyval :=
  let w' := {| limiter := limiter w; clock_reads := clock_reads w;
               uuids_drawn := uuids_drawn w; posted := r :: posted w |} in
  (w',
   response <- session_post E (posted w) r ;;
   if (400 <=? status_code response) && (status_code response <? 600)
   then Raise (HTTPError (status_code response))
   else match json_body response with
        | Some data => Ok data
        | None => Raise JSONDecodeError
        end).

(** One discovered pair: the dict with keys [fiat], [asset] and
    [trade_type]. *)
Record Pair := {
  fiat : pyval;
  asset : pyval;
  trade_type : string
}.

(** The inner loop of [get_all_trading_pairs]: a BUY and a SELL pair
    for every asset. *)
Definition pairs_of_assets (fiat : pyval) (assets : list pyval) : list Pair :=
  flat_map (fun asset =>
    [ {| fiat := fiat; asset := asset; trade_type := "BUY" |};
      {| fiat := fiat; asset := asset; trade_type := "SELL" |} ]) assets.

(** The outer loop of [get_all_trading_pairs] over [data["data"]]. *)
Fixpoint pairs_of_items (items : list pyval) : result (list Pair) :=
  match items with
  | [] => Ok []
  | item :: rest =>
      fiat <- get item "fiatUnit" PNone ;;
      assets <- get item "assetList" (PList []) ;;
      asset_list <- iterate assets ;;
      more <- pairs_of_items rest ;;
      Ok (pairs_of_assets fiat asset_list ++ more)%list
  end.

(** What the [try] block of [get_all_trading_pairs] does with the
    decoded response. *)
Definition pairs_of_response (data : pyval) : result (list Pair) :=
  code <- get data "code" PNone ;;
  if differs_from_str code "000000" then Ok []
  else
    items <- get data "data" (PList []) ;;
    item_list <- iterate items ;;
    pairs_of_items item_list.

(** [get_all_trading_pairs()]. The call to the rate limiter stands
    before the [try]; everything after it is covered by
    [except Exception], which returns the empty list. *)
Definition get_all_trading_pairs (E : Env) (w : World)
    : World * result (list Pair) :=
  let (w1, waited) := rate_limiter_acquire E w in
  match waited with
  | Raise e => (w1, Raise e)
  | Ok _ =>
      let (w2, data) := post_json E PairsRequest w1 in
      (w2, try_except (d <- data ;; pairs_of_response d) is_Exception
                      (fun _ => Ok []))
  end.

(** [Decimal(str(v))]. The text of an integer is its digits, the text
    of a [Decimal] reads back as itself; the text of [None], of a
    boolean, of a list and of a dict is no numeric string. *)
Definition Decimal_of_str (E : Env) (v : pyval) : result Decimal :=
  match v with
  | PInt z => Ok (DFinite (z <? 0) (Z.to_N (Z.abs z)) 0)
  | PFloat m e => Ok (Decimal_of_float E m e)
  | PStr s =>
      match Decimal_of_string E s with
      | Some d => Ok d
      | None => Raise InvalidOperation
      end
  | PDecimal d => Ok d
  | PNone | PBool _ | PList _ | PDict _ => Raise InvalidOperation
  end.

(** The four numeric fields of an offer, in the order the code reads
    them: price, available amount, minimum and maximum limit. *)
Record Numbers := {
  n_price : Decimal;
  n_available_amount : Decimal;
  n_min_limit : Decimal;
  n_max_limit : Decimal
}.

(** The body of the inner [try] of [_parse_offer]; [Ok None] is its
    [return None]. *)
Definition numeric_fields (E : Env) (adv : pyval) : result (option Numbers) :=
  raw_price <- get adv "price" (PInt 0) ;;
  price <- Decimal_of_str E raw_price ;;
  raw_amount <- get adv "surplusAmount" (PInt 0) ;;
  available_amount <- Decimal_of_str E raw_amount ;;
  raw_min <- get adv "minSingleTransAmount" (PInt 0) ;;
  min_limit <- Decimal_of_str E raw_min ;;
  raw_max <- get adv "maxSingleTransAmount" (PInt 0) ;;
  max_limit <- Decimal_of_str E raw_max ;;
  price_bad <- decimal_le_zero price ;;
  if price_bad : bool then Ok None
  else
    amount_bad <- decimal_le_zero available_amount ;;
    if amount_bad : bool then Ok None
    else Ok (Some {| n_price := price;
                     n_available_amount := available_amount;
                     n_min_limit := min_limit;
                     n_max_limit := max_limit |}).

(** [[method.get("payType") for method in methods]]. *)
Fixpoint pay_types (methods : list pyval) : result (list pyval) :=
  match methods with
  | [] => Ok []
  | method :: rest =>
      pay_type <- get method "payType" PNone ;;
      more <- pay_types rest ;;
      Ok (pay_type :: more)
  end.

(** Everything [_parse_offer] evaluates before the dict literal:
    [Ok None] is the [return None] of the price and amount check. *)
Definition offer_parts (E : Env) (ad : pyval)
    : result (option (pyval * pyval * Numbers * list pyval)) :=
  adv <- subscript ad "adv" ;;
  advertiser <- subscript ad "advertiser" ;;
  numbers <- try_except (numeric_fields E adv) is_ValueError_or_TypeError
                        (fun _ => Ok None) ;;
  match numbers with
  | None => Ok None
  | Some nums =>
      methods <- get adv "tradeMethods" (PList []) ;;
      method_list <- iterate methods ;;
      payment_methods <- pay_types method_list ;;
      Ok (Some (adv, advertiser, nums, payment_methods))
  end.

(** The dict literal of [_parse_offer], evaluated key by key; [uid] is
    the text of the fresh UUID. *)
Definition parsed_offer (uid : string) (adv advertiser : pyval)
    (nums : Numbers) (payment_methods : list pyval) : result pyval :=
  nickname <- get advertiser "nickName" PNone ;;
  asset <- get adv "asset" PNone ;;
  fiat <- get adv "fiatUnit" PNone ;;
  trade_type <- get adv "tradeType" PNone ;;
  Ok (PDict
        [ ("offer_external_id", PStr uid);
          ("advertiser_nickname", nickname);
          ("price", PDecimal (n_price nums));
          ("available_amount", PDecimal (n_available_amount nums));
          ("min_limit", PDecimal (n_min_limit nums));
          ("max_limit", PDecimal (n_max_limit nums));
          ("payment_methods", PList payment_methods);
          ("asset", asset);
          ("fiat", fiat);
          ("trade_type", trade_type) ]).

(** The outer [try] block of [_parse_offer], with the number of UUIDs
    drawn so far passed through. *)
Definition parse_offer_body (E : Env) (drawn : nat) (ad : pyval)
    : nat * result (option pyval) :=
  match offer_parts E ad with
  | Ok (Some (adv, advertiser, nums, payment_methods)) =>
      (S drawn,
       offer <- parsed_offer (uuid4 E drawn) adv advertiser nums
                             payment_methods ;;
       Ok (Some offer))
  | Ok None => (drawn, Ok None)
  | Raise e => (drawn, Raise e)
  end.

(** [_parse_offer(ad)]: [except KeyError] and [except Exception] both
    return [None]. *)
Definition _parse_offer (E : Env) (drawn : nat) (ad : pyval)
    : nat * option pyval :=
  let (drawn', r) := parse_offer_body E drawn ad in
  (drawn',
   match try_except (try_except r is_KeyError (fun _ => Ok None))
                    is_Exception (fun _ => Ok None) with
   | Ok parsed => parsed
   | Raise _ => None
   end).

(** The [for ad in offers] loop of [extract_pair_offers]: every record
    is parsed, the truthy results are appended. *)
Fixpoint parse_page (E : Env) (ads : list pyval) (all_offers : list pyval)
    (drawn : nat) : nat * list pyval :=
  match ads with
  | [] => (drawn, all_offers)
  | ad :: rest =>
      let (drawn', parsed) := _parse_offer E drawn ad in
      let all_offers' :=
        match parsed with
        | Some offer =>
            if truthy offer then (all_offers ++ [offer])%list else all_offers
        | None => all_offers
        end in
      parse_page E rest all_offers' drawn'
  end.

(** How one turn of the [while True] loop ends. *)
Inductive turn : Type :=
| Break
| NextPage.

(** The [try] block of one turn, up to [page += 1]: the request, the
    check of the response code, the empty page check and the parsing.
    [except Exception] breaks out of the loop. *)
Definition page_turn (E : Env) (fiat asset : pyval) (trade_type : string)
    (page : Z) (all_offers : list pyval) (w : World)
    : World * list pyval * turn :=
  let payload :=
    SearchRequest page (max_pages_per_pair E) trade_type asset fiat in
  let (w1, response) := post_json E payload w in
  match response with
  | Raise _ => (w1, all_offers, Break)
  | Ok data =>
      match get data "code" PNone with
      | Raise _ => (w1, all_offers, Break)
      | Ok code =>
          if differs_from_str code "000000" then (w1, all_offers, Break)
          else
            match get data "data" (PList []) with
            | Raise _ => (w1, all_offers, Break)
            | Ok offers =>
                if negb (truthy offers) then (w1, all_offers, Break)
                else
                  match iterate offers with
                  | Raise _ => (w1, all_offers, Break)
                  | Ok ads =>
                      let (drawn, all_offers') :=
                        parse_page E ads all_offers (uuids_drawn w1) in
                      ({| limiter := limiter w1;
                          clock_reads := clock_reads w1;
                          uuids_drawn := drawn;
                          posted := posted w1 |},
                       all_offers', NextPage)
                  end
            end
      end
  end.

(** The [while True] loop of [extract_pair_offers] from page [page]
    on. It ends because each further turn needs
    [page + 1 <= max_pages_per_pair]. *)
Equations? pages_from (E : Env) (fiat asset : pyval) (trade_type : string)
    (page : Z) (all_offers : list pyval) (w : World)
    : World * result (list pyval)
    by wf (Z.to_nat (max_pages_per_pair E + 1 - page)) lt :=
  pages_from E fiat asset trade_type page all_offers w
    with rate_limiter_acquire E w => {
    | (w1, Raise e) => (w1, Raise e);
    | (w1, Ok _) with page_turn E fiat asset trade_type page all_offers w1 => {
      | (w2, all_offers', Break) => (w2, Ok all_offers');
      | (w2, all_offers', NextPage)
          with Z_gt_dec (page + 1) (max_pages_per_pair E) => {
        | left _ => (w2, Ok all_offers');
        | right _ =>
            pages_from E fiat asset trade_type (page + 1) all_offers' w2 } } }.
Proof. lia. Qed.

(** [extract_pair_offers(fiat, asset, trade_type)]. *)
Definition extract_pair_offers (E : Env) (fiat asset : pyval)
    (trade_type : string) (w : World) : World * result (list pyval) :=
  pages_from E fiat asset trade_type 1 [] w.

(** The worker pool: given the pairs submitted, the futures in the
    order [as_completed] yields them, each with what [future.result()]
    gives (the list returned, or the exception re-raised). *)
Definition Pool : Type :=
  World -> list Pair -> World * list (Pair * result (list pyval)).

(** The collection loop of [extract_all_offers]: a result extends
    [all_offers], an exception is logged and skipped. *)
Fixpoint collect (completed : list (Pair * result (list pyval)))
    (all_offers : list pyval) : list pyval :=
  match completed with
  | [] => all_offers
  | (_, Ok offers) :: rest => collect rest (all_offers ++ offers)%list
  | (_, Raise _) :: rest => collect rest all_offers
  end.

(** [extract_all_offers()]. *)
Definition extract_all_offers (E : Env) (pool : Pool) (w : World)
    : World * result (list pyval) :=
  let (w1, discovered) := get_all_trading_pairs E w in
  match discovered with
  | Raise e => (w1, Raise e)
  | Ok pairs =>
      match pairs with
      | [] => (w1, Ok [])
      | _ =>
          let (w2, completed) := pool w1 pairs in
          (w2, Ok (collect completed []))
      end
  end.

(** A pool of one worker whose futures are yielded in the order
    submitted: the tasks run one after the other in that order, and
    this is one of the orders [as_completed], which promises none, may
    yield them in. *)
Fixpoint sequential_pool (E : Env) (w : World) (pairs : list Pair)
    : World * list (Pair * result (list pyval)) :=
  match pairs with
  | [] => (w, [])
  | p :: rest =>
      let (w1, r) :=
        extract_pair_offers E (fiat p) (asset p) (trade_type p) w in
      let (w2, more) := sequential_pool E w1 rest in
      (w2, (p, r) :: more)
  end.

End Extractor.

(** ** The warehouse of [models.py] and the session of [db.py] *)

Module Loader.

(** The six mapped classes, each with the columns the loader sets. The
    surrogate key (the autoincrement primary key) is not part of the
    object: the storage layer assigns it at flush time. *)
Inductive Row : Type :=
| DimCryptocurrencies (symbol name binance_asset_code : string)
| DimFiatCurrencies (currency_code currency_name : string)
| DimPaymentMethods (method_code : string) (method_name : pyval)
| DimAdvertisers (advertiser_id : string) (nickname : pyval)
    (is_merchant : bool) (registration_days : Z) (effective_date : Z)
    (is_current : bool)
| FactOffers (offer_external_id : pyval) (batch_id : string)
    (extraction_timestamp : Z) (crypto_id fiat_id advertiser_sk : Z)
    (trade_type price available_amount min_limit max_limit : pyval)
    (completion_rate total_orders_count terms_conditions : pyval)
    (is_available : bool)
| FactOfferPaymentMethods (offer_id : Z) (extraction_timestamp : Z)
    (payment_method_id : Z).

Inductive Table : Type :=
| dim_cryptocurrencies
| dim_fiat_currencies
| dim_payment_methods
| dim_advertisers
| fact_offers
| fact_offer_payment_methods.

Definition table_of (r : Row) : Table :=
  match r with
  | DimCryptocurrencies _ _ _ => dim_cryptocurrencies
  | DimFiatCurrencies _ _ => dim_fiat_currencies
  | DimPaymentMethods _ _ => dim_payment_methods
  | DimAdvertisers _ _ _ _ _ _ => dim_advertisers
  | FactOffers _ _ _ _ _ _ _ _ _ _ _ _ _ _ _ => fact_offers
  | FactOfferPaymentMethods _ _ _ => fact_offer_payment_methods
  end.

Definition Table_eqb (a b : Table) : bool :=
  match a, b with
  | dim_cryptocurrencies, dim_cryptocurrencies
  | dim_fiat_currencies, dim_fiat_currencies
  | dim_payment_methods, dim_payment_methods
  | dim_advertisers, dim_advertisers
  | fact_offers, fact_offers
  | fact_offer_payment_methods, fact_offer_payment_methods => true
  | _, _ => false
  end.

(** A stored row: the surrogate key and the object. *)
Abbreviation Stored := (Z * Row)%type.

(** The next value of each table's key sequence. A sequence is not
    transactional: a rollback does not give its values back. *)
Definition Sequences : Type := Table -> Z.

Definition nextval (t : Table) (seq : Sequences) : Sequences :=
  fun t' => if Table_eqb t t' then seq t' + 1 else seq t'.

(** What the loader cannot decide itself.
    - [accepts rows id r]: whether the storage layer takes the insert
      of [r] under key [id] when [rows] are visible (its NOT NULL,
      CHECK, length, uniqueness and foreign key constraints);
    - [utcnow k]: the [k]-th reading of [datetime.utcnow()]. *)
Record Storage := {
  accepts : list Stored -> Z -> Row -> bool;
  utcnow : nat -> Z
}.

Inductive Event : Type :=
| SessionOpened
| Committed
| RolledBack
| SessionClosed.

(** The database between two calls: the committed rows, the sequences,
    the clock readings consumed and the life of the sessions so far. *)
Record Database := {
  committed : list Stored;
  sequences : Sequences;
  utc_reads : nat;
  events : list Event
}.

(** [DataLoader]: the running total and the four caches from natural
    key to surrogate key. *)
Record DataLoader := {
  processed_offers : Z;
  _fiat_cache : gmap string Z;
  _crypto_cache : gmap string Z;
  _payment_method_cache : gmap string Z;
  _advertiser_cache : gmap string Z
}.

Definition new_loader : DataLoader :=
  {| processed_offers := 0;
     _fiat_cache := ∅; _crypto_cache := ∅;
     _payment_method_cache := ∅; _advertiser_cache := ∅ |}.

(** The state inside one [with db_manager.get_session()] block: the
    loader, the rows the session sees (committed or flushed), the
    objects added but not flushed yet, the sequences and the clock. *)
Record State := {
  loader : DataLoader;
  rows : list Stored;
  pending : list Row;
  seq : Sequences;
  clock : nat
}.

(** Computations of the loader: they change the state and return a
    value or raise; the state changes made before a [raise] stay. *)
Definition M (A : Type) : Type := State -> State * result A.

Definition ret {A} (a : A) : M A := fun st => (st, Ok a).

Definition lift {A} (r : result A) : M A := fun st => (st, r).

Definition mbind {A B} (m : M A) (k : A -> M B) : M B :=
  fun st =>
    let (st', r) := m st in
    match r with
    | Ok a => k a st'
    | Raise e => (st', Raise e)
    end.

Notation "x <~ m ;; k" := (mbind m (fun x => k))
  (at level 100, m at next level, right associativity).

Definition with_loader (f : DataLoader -> DataLoader) : M unit :=
  fun st =>
    ({| loader := f (loader st); rows := rows st; pending := pending st;
        seq := seq st; clock := clock st |}, Ok tt).

(** [session.add(obj)]. *)
Definition session_add (r : Row) : M unit :=
  fun st =>
    ({| loader := loader st; rows := rows st;
        pending := (pending st ++ [r])%list;
        seq := seq st; clock := clock st |}, Ok tt).

(** The inserts of one flush, in the order the objects were added.
    Each insert draws the next key of its table; the first one the
    storage layer rejects raises. *)
Fixpoint insert_all (store : Storage) (new : list Row) (visible : list Stored)
    (sq : Sequences) : list Stored * Sequences * result unit :=
  match new with
  | [] => (visible, sq, Ok tt)
  | r :: rest =>
      let id := sq (table_of r) in
      let sq' := nextval (table_of r) sq in
      if accepts store visible id r
      then insert_all store rest (visible ++ [(id, r)])%list sq'
      else (visible, sq', Raise DBAPIError)
  end.

(** [session.flush()]. *)
Definition session_flush (store : Storage) : M unit :=
  fun st =>
    let '(visible, sq, r) := insert_all store (pending st) (rows st) (seq st) in
    ({| loader := loader st; rows := visible; pending := [];
        seq := sq; clock := clock st |}, r).

(** [session.add(obj); session.flush()], then the read of the key the
    flush gave to [obj]: the objects added earlier go first. *)
Definition add_and_flush (store : Storage) (r : Row) : M Z :=
  fun st =>
    let '(visible, sq, flushed) :=
      insert_all store (pending st) (rows st) (seq st) in
    match flushed with
    | Raise e =>
        ({| loader := loader st; rows := visible; pending := [];
            seq := sq; clock := clock st |}, Raise e)
    | Ok _ =>
        let id := sq (table_of r) in
        let '(visible', sq', inserted) := insert_all store [r] visible sq in
        ({| loader := loader st; rows := visible'; pending := [];
            seq := sq'; clock := clock st |},
         match inserted with
         | Ok _ => Ok id
         | Raise e => Raise e
         end)
    end.

(** [session.query(Model).filter_by(...).first()]: the first visible
    row the filter keeps ([autoflush] is off, pending objects are not
    seen). *)
Definition query_first (keep : Row -> bool) : M (option Stored) :=
  fun st => (st, Ok (List.find (fun s => keep (snd s)) (rows st))).

(** [datetime.utcnow()]. *)
Definition datetime_utcnow (store : Storage) : M Z :=
  fun st =>
    ({| loader := loader st; rows := rows st; pending := pending st;
        seq := seq st; clock := Datatypes.S (clock st) |},
     Ok (utcnow store (clock st))).

(** A natural key as the dimension tables take it. The key columns
    are NOT NULL strings: [None] is rejected by the insert, a number
    or a boolean by the comparison of the lookup, and a list or a dict
    is no dictionary key. *)
Definition natural_key (v : pyval) : result string :=
  match v with
  | PStr s => Ok s
  | PList _ | PDict _ => Raise TypeError
  | _ => Raise DBAPIError
  end.

(** ** The loader of [loader.py] *)

Definition cache_crypto (k : string) (id : Z) (L : DataLoader) : DataLoader :=
  {| processed_offers := processed_offers L;
     _fiat_cache := _fiat_cache L;
     _crypto_cache := <[k := id]> (_crypto_cache L);
     _payment_method_cache := _payment_method_cache L;
     _advertiser_cache := _advertiser_cache L |}.

Definition cache_fiat (k : string) (id : Z) (L : DataLoader) : DataLoader :=
  {| processed_offers := processed_offers L;
     _fiat_cache := <[k := id]> (_fiat_cache L);
     _crypto_cache := _crypto_cache L;
     _payment_method_cache := _payment_method_cache L;
     _advertiser_cache := _advertiser_cache L |}.

Definition cache_payment_method (k : string) (id : Z) (L : DataLoader)
    : DataLoader :=
  {| processed_offers := processed_offers L;
     _fiat_cache := _fiat_cache L;
     _crypto_cache := _crypto_cache L;
     _payment_method_cache := <[k := id]> (_payment_method_cache L);
     _advertiser_cache := _advertiser_cache L |}.

Definition cache_advertiser (k : string) (id : Z) (L : DataLoader)
    : DataLoader :=
  {| processed_offers := processed_offers L;
     _fiat_cache := _fiat_cache L;
     _crypto_cache := _crypto_cache L;
     _payment_method_cache := _payment_method_cache L;
     _advertiser_cache := <[k := id]> (_advertiser_cache L) |}.

Definition add_processed (n : Z) (L : DataLoader) : DataLoader :=
  {| processed_offers := processed_offers L + n;
     _fiat_cache := _fiat_cache L;
     _crypto_cache := _crypto_cache L;
     _payment_method_cache := _payment_method_cache L;
     _advertiser_cache := _advertiser_cache L |}.

(** The filters of the four lookups. *)
Definition has_symbol (k : string) (r : Row) : bool :=
  match r with
  | DimCryptocurrencies symbol _ _ => String.eqb symbol k
  | _ => false
  end.

Definition has_currency_code (k : string) (r : Row) : bool :=
  match r with
  | DimFiatCurrencies currency_code _ => String.eqb currency_code k
  | _ => false
  end.

Definition has_method_code (k : string) (r : Row) : bool :=
  match r with
  | DimPaymentMethods method_code _ => String.eqb method_code k
  | _ => false
  end.

(** [filter_by(advertiser_id=adv_id, is_current=True)]. *)
Definition is_current_advertiser (k : string) (r : Row) : bool :=
  match r with
  | DimAdvertisers advertiser_id _ _ _ _ is_current =>
      String.eqb advertiser_id k && is_current
  | _ => false
  end.

(** [_get_or_create_crypto(session, symbol)]. *)
Definition _get_or_create_crypto (store : Storage) (symbol : pyval) : M Z :=
  k <~ lift (natural_key symbol) ;;
  fun st =>
    match _crypto_cache (loader st) !! k with
    | Some id => (st, Ok id)
    | None =>
        (crypto <~ query_first (has_symbol k) ;;
         match crypto with
         | Some (id, _) =>
             _ <~ with_loader (cache_crypto k id) ;; ret id
         | None =>
             id <~ add_and_flush store (DimCryptocurrencies k k k) ;;
             _ <~ with_loader (cache_crypto k id) ;; ret id
         end) st
    end.

(** [_get_or_create_fiat(session, code)]. *)
Definition _get_or_create_fiat (store : Storage) (code : pyval) : M Z :=
  k <~ lift (natural_key code) ;;
  fun st =>
    match _fiat_cache (loader st) !! k with
    | Some id => (st, Ok id)
    | None =>
        (fiat <~ query_first (has_currency_code k) ;;
         match fiat with
         | Some (id, _) =>
             _ <~ with_loader (cache_fiat k id) ;; ret id
         | None =>
             id <~ add_and_flush store (DimFiatCurrencies k k) ;;
             _ <~ with_loader (cache_fiat k id) ;; ret id
         end) st
    end.

(** [_get_or_create_payment_method(session, method_code, method_name)]. *)
Definition _get_or_create_payment_method (store : Storage)
    (method_code method_name : pyval) : M Z :=
  k <~ lift (natural_key method_code) ;;
  fun st =>
    match _payment_method_cache (loader st) !! k with
    | Some id => (st, Ok id)
    | None =>
        (pm <~ query_first (has_method_code k) ;;
         match pm with
         | Some (id, _) =>
             _ <~ with_loader (cache_payment_method k id) ;; ret id
         | None =>
             id <~ add_and_flush store (DimPaymentMethods k method_name) ;;
             _ <~ with_loader (cache_payment_method k id) ;; ret id
         end) st
    end.

(** [_get_or_create_advertiser(session, adv_id, nickname)]: the lookup
    keeps the current row only; a new row is current and dated now. *)
Definition _get_or_create_advertiser (store : Storage) (adv_id nickname : pyval)
    : M Z :=
  k <~ lift (natural_key adv_id) ;;
  fun st =>
    match _advertiser_cache (loader st) !! k with
    | Some id => (st, Ok id)
    | None =>
        (advertiser <~ query_first (is_current_advertiser k) ;;
         match advertiser with
         | Some (id, _) =>
             _ <~ with_loader (cache_advertiser k id) ;; ret id
         | None =>
             now <~ datetime_utcnow store ;;
             id <~ add_and_flush store
                     (DimAdvertisers k nickname false 0 now true) ;;
             _ <~ with_loader (cache_advertiser k id) ;; ret id
         end) st
    end.

(** The [for pm in offer['payment_methods']] loop of
    [_load_dimensions]. *)
Fixpoint load_payment_methods (store : Storage) (pms : list pyval) : M unit :=
  match pms with
  | [] => ret tt
  | pm :: rest =>
      identifier <~ lift (subscript pm "identifier") ;;
      method_name <~ lift (subscript pm "tradeMethodName") ;;
      _ <~ _get_or_create_payment_method store identifier method_name ;;
      load_payment_methods store rest
  end.

(** The three dimension lookups both phases make for an offer, with
    the subscripts in the order Python evaluates them. *)
Definition resolve_offer (store : Storage) (offer : pyval) : M (Z * Z * Z) :=
  asset <~ lift (subscript offer "asset") ;;
  crypto_id <~ _get_or_create_crypto store asset ;;
  fiat <~ lift (subscript offer "fiat") ;;
  fiat_id <~ _get_or_create_fiat store fiat ;;
  advertiser <~ lift (subscript offer "advertiser") ;;
  adv_id <~ lift (subscript advertiser "id") ;;
  advertiser' <~ lift (subscript offer "advertiser") ;;
  nickname <~ lift (subscript advertiser' "nickname") ;;
  advertiser_sk <~ _get_or_create_advertiser store adv_id nickname ;;
  ret (crypto_id, fiat_id, advertiser_sk).

(** [_load_dimensions(session, offers)]. *)
Fixpoint _load_dimensions (store : Storage) (offers : list pyval) : M unit :=
  match offers with
  | [] => ret tt
  | offer :: rest =>
      _ <~ resolve_offer store offer ;;
      pms <~ lift (subscript offer "payment_methods") ;;
      pm_list <~ lift (iterate pms) ;;
      _ <~ load_payment_methods store pm_list ;;
      _load_dimensions store rest
  end.

(** The bridge loop of [_load_facts] for one fact: the objects are
    added to the session and left to a later flush. *)
Fixpoint add_bridge_rows (store : Storage) (offer_id extraction_ts : Z)
    (pms : list pyval) : M unit :=
  match pms with
  | [] => ret tt
  | pm :: rest =>
      identifier <~ lift (subscript pm "identifier") ;;
      method_name <~ lift (subscript pm "tradeMethodName") ;;
      pm_id <~ _get_or_create_payment_method store identifier method_name ;;
      _ <~ session_add (FactOfferPaymentMethods offer_id extraction_ts pm_id) ;;
      add_bridge_rows store offer_id extraction_ts rest
  end.

(** The fact object of one offer: the keyword arguments of
    [FactOffers(...)] in the order they are evaluated. *)
Definition fact_of_offer (offer : pyval) (batch_id : string)
    (extraction_ts crypto_id fiat_id advertiser_sk : Z) : result Row :=
  offer_external_id <- subscript offer "id" ;;
  trade_type <- subscript offer "trade_type" ;;
  price <- subscript offer "price" ;;
  available_amount <- subscript offer "available_amount" ;;
  min_limit <- subscript offer "min_limit" ;;
  max_limit <- subscript offer "max_limit" ;;
  advertiser <- subscript offer "advertiser" ;;
  completion_rate <- subscript advertiser "completion_rate" ;;
  advertiser' <- subscript offer "advertiser" ;;
  total_orders <- subscript advertiser' "total_orders" ;;
  terms <- get offer "terms" PNone ;;
  Ok (FactOffers offer_external_id batch_id extraction_ts
        crypto_id fiat_id advertiser_sk trade_type price available_amount
        min_limit max_limit completion_rate total_orders terms true).

(** The body of the [for offer in offers] loop of [_load_facts]. *)
Definition load_fact (store : Storage) (batch_id : string) (extraction_ts : Z)
    (offer : pyval) : M unit :=
  ids <~ resolve_offer store offer ;;
  let '(crypto_id, fiat_id, advertiser_sk) := ids in
  fact <~ lift (fact_of_offer offer batch_id extraction_ts
                  crypto_id fiat_id advertiser_sk) ;;
  offer_id <~ add_and_flush store fact ;;
  pms <~ lift (subscript offer "payment_methods") ;;
  pm_list <~ lift (iterate pms) ;;
  add_bridge_rows store offer_id extraction_ts pm_list.

Fixpoint load_facts_from (store : Storage) (batch_id : string)
    (extraction_ts : Z) (offers : list pyval) : M unit :=
  match offers with
  | [] => ret tt
  | offer :: rest =>
      _ <~ load_fact store batch_id extraction_ts offer ;;
      load_facts_from store batch_id extraction_ts rest
  end.

(** [_load_facts(session, offers, batch_id)]: one clock reading for
    the whole batch. *)
Definition _load_facts (store : Storage) (offers : list pyval)
    (batch_id : string) : M unit :=
  extraction_ts <~ datetime_utcnow store ;;
  load_facts_from store batch_id extraction_ts offers.

(** The [try] block of [load_offers]; its [except] logs and re-raises. *)
Definition load_offers_body (store : Storage) (offers : list pyval)
    (batch_id : string) : M unit :=
  _ <~ _load_dimensions store offers ;;
  _ <~ _load_facts store offers batch_id ;;
  with_loader (add_processed (Z.of_nat (length offers))).

(** [self.SessionLocal()]: a new session sees the committed rows and
    holds no object yet. *)
Definition session_begin (L : DataLoader) (db : Database) : State :=
  {| loader := L; rows := committed db; pending := [];
     seq := sequences db; clock := utc_reads db |}.

(** [db_manager.get_session()] around a block: the block runs on a new
    session; if it returns, [session.commit()] flushes what is pending
    and makes the visible rows the committed ones; if the block or the
    commit raises, [session.rollback()] drops them and the exception
    goes on; the session is closed either way. *)
Definition get_session {A} (store : Storage) (block : M A)
    (L : DataLoader) (db : Database) : DataLoader * Database * result A :=
  let (st1, r) := block (session_begin L db) in
  let (st2, r') :=
    match r with
    | Ok a =>
        let (st, flushed) := session_flush store st1 in
        (st, match flushed with Ok _ => Ok a | Raise e => Raise e end)
    | Raise e => (st1, Raise e)
    end in
  match r' with
  | Ok a =>
      (loader st2,
       {| committed := rows st2; sequences := seq st2;
          utc_reads := clock st2;
          events := (events db ++ [SessionOpened; Committed; SessionClosed])%list |},
       Ok a)
  | Raise e =>
      (loader st2,
       {| committed := committed db; sequences := seq st2;
          utc_reads := clock st2;
          events := (events db ++ [SessionOpened; RolledBack; SessionClosed])%list |},
       Raise e)
  end.

(** [load_offers(offers, batch_id)]. *)
Definition load_offers (store : Storage) (offers : list pyval) (batch_id : string)
    (L : DataLoader) (db : Database) : DataLoader * Database * result unit :=
  match offers with
  | [] => (L, db, Ok tt)
  | _ => get_session store (load_offers_body store offers batch_id) L db
  end.

End Loader.

(** ** Sample inputs

    Concrete values the closed examples below are evaluated on. *)

Module Sample.

Import Extractor.

Definition digit_of (c : ascii) : option N :=
  let n := N_of_ascii c in
  if ((48 <=? n) && (n <=? 57))%N then Some (n - 48)%N else None.

Fixpoint digits (s : string) (acc : N) : option N :=
  match s with
  | EmptyString => Some acc
  | String c rest =>
      match digit_of c with
      | Some d => digits rest (10 * acc + d)%N
      | None => None
      end
  end.

(** The text before the first point, and the text after it if any. *)
Fixpoint split_point (s : string) : string * option string :=
  match s with
  | EmptyString => (EmptyString, None)
  | String c rest =>
      if Ascii.eqb c "."%char then (EmptyString, Some rest)
      else let (whole, fraction) := split_point rest in
           (String c whole, fraction)
  end.

Definition unsigned_decimal (negative : bool) (s : string) : option Decimal :=
  match split_point s with
  | (whole, None) =>
      if String.eqb whole "" then None
      else option_map (fun c => DFinite negative c 0) (digits whole 0%N)
  | (whole, Some fraction) =>
      if String.eqb whole "" && String.eqb fraction "" then None
      else option_map
             (fun c => DFinite negative c (- Z.of_nat (String.length fraction)))
             (digits (whole ++ fraction) 0%N)
  end.

(** [Decimal(s)] on the plain literals: an optional sign, digits and
    an optional fraction. Every other text is refused here. *)
Definition plain_decimal (s : string) : option Decimal :=
  match s with
  | String "-"%char rest => unsigned_decimal true rest
  | String "+"%char rest => unsigned_decimal false rest
  | _ => unsigned_decimal false s
  end.

(** A server that answers every request with [reply]. *)
Definition env (reply : list Request -> Request -> result Response)
    (max_pages : Z) : Env :=
  {| time_time := fun k => inject_Z (Z.of_nat k);
     session_post := reply;
     uuid4 := fun k => String (ascii_of_nat (97 + k)) EmptyString;
     Decimal_of_string := plain_decimal;
     Decimal_of_float := fun m e => DFinite (m <? 0) (Z.to_N (Z.abs m)) 0;
     max_pages_per_pair := max_pages |}.

Definition no_reply (history : list Request) (r : Request) : result Response :=
  Raise RequestException.

Definition world : World :=
  {| limiter := RateLimiter.init RateLimiter.default_settings None None 0;
     clock_reads := 0; uuids_drawn := 0; posted := [] |}.

(** A well-formed record, as the search endpoint returns them. *)
Definition ad : pyval :=
  PDict
    [ ("adv",
       PDict [ ("price", PStr "36.50");
               ("surplusAmount", PStr "120");
               ("minSingleTransAmount", PStr "10");
               ("maxSingleTransAmount", PStr "500");
               ("tradeMethods",
                PList [ PDict [("payType", PStr "Banesco")];
                        PDict [("payType", PStr "Mercantil")] ]);
               ("asset", PStr "USDT");
               ("fiatUnit", PStr "VES");
               ("tradeType", PStr "BUY") ]);
      ("advertiser", PDict [("nickName", PStr "trader1")]) ].

(** A record whose limits are zero and negative. *)
Definition ad_without_limits : pyval :=
  PDict
    [ ("adv",
       PDict [ ("price", PStr "36.50");
               ("surplusAmount", PStr "120");
               ("minSingleTransAmount", PStr "0");
               ("maxSingleTransAmount", PStr "-5");
               ("asset", PStr "USDT");
               ("fiatUnit", PStr "VES");
               ("tradeType", PStr "BUY") ]);
      ("advertiser", PDict [("nickName", PStr "trader1")]) ].

(** A record with four positive numbers and every key present, whose
    payment methods are [null]. *)
Definition ad_null_methods : pyval :=
  PDict
    [ ("adv",
       PDict [ ("price", PStr "36.50");
               ("surplusAmount", PStr "120");
               ("minSingleTransAmount", PStr "10");
               ("maxSingleTransAmount", PStr "500");
               ("tradeMethods", PNone);
               ("asset", PStr "USDT");
               ("fiatUnit", PStr "VES");
               ("tradeType", PStr "BUY") ]);
      ("advertiser", PDict [("nickName", PStr "trader1")]) ].

End Sample.

(** ** Vocabulary of the statements *)

Module Terms.

Import Extractor.

(** The decimal under [key] of the [adv] object, as [_parse_offer]
    reads it: a missing key counts as [0]. *)
Definition numeric (E : Env) (adv : pyval) (key : string) : result Decimal :=
  raw <- get adv key (PInt 0) ;; Decimal_of_str E raw.

(** The four numeric fields of a record. *)
Definition numeric_keys : list string :=
  ["price"; "surplusAmount"; "minSingleTransAmount"; "maxSingleTransAmount"].

(** The two of them whose sign is checked. *)
Definition checked_keys : list string := ["price"; "surplusAmount"].

(** The payment method codes of the [adv] object. *)
Definition method_codes (adv : pyval) : result (list pyval) :=
  methods <- get adv "tradeMethods" (PList []) ;;
  method_list <- iterate methods ;;
  pay_types method_list.

End Terms.

Module DiscoveryTerms.

Import Extractor.

(** The server answers [r], posted from world [w], with a success
    status and the JSON document [data]. *)
Definition answers (E : Env) (w : World) (r : Request) (data : pyval) : Prop :=
  exists response,
    session_post E (posted w) r = Ok response
    /\ (400 <=? status_code response) && (status_code response <? 600) = false
    /\ json_body response = Some data.




(** A pool that never gets to run. *)
Definition idle_pool : Pool := fun w _ => (w, []).

(** A discovery response for VES and USD. *)
Definition discovery : pyval :=
  PDict
    [ ("code", PStr "000000");
      ("data",
       PList [ PDict [ ("fiatUnit", PStr "VES");
                       ("assetList", PList [PStr "USDT"; PStr "BTC"]) ];
               PDict [ ("fiatUnit", PStr "USD");
                       ("assetList", PList [PStr "USDT"]) ] ]) ].

Definition discovery_server (history : list Request) (r : Request)
    : result Response :=
  Ok {| status_code := 200; json_body := Some discovery |}.

(** A server whose discovery endpoint is down. *)
Definition gateway_error (history : list Request) (r : Request)
    : result Response :=
  Ok {| status_code := 502; json_body := None |}.

(** Settings whose rate and burst size are both 0, as the environment
    may set them. *)
Definition stalled_settings : RateLimiter.Settings :=
  {| RateLimiter.rate_limit_requests_per_minute := 0;
     RateLimiter.rate_limit_burst_size := 0 |}.

(** The world at the start of a worker under those settings: an empty
    bucket that is never refilled. *)
Definition stalled_world : World :=
  {| limiter := RateLimiter.init stalled_settings None None 0;
     clock_reads := 0; uuids_drawn := 0; posted := [] |}.

End DiscoveryTerms.

Module PaginationTerms.

Import Extractor.

(** The request for page [j] of a pair. *)
Definition search (E : Env) (fiat asset : pyval) (trade_type : string)
    (j : nat) : Request :=
  SearchRequest (Z.of_nat j) (max_pages_per_pair E) trade_type asset fiat.

(** The requests for the [count] pages from page [first] on, latest
    first, as the world records them. *)
Definition searches (E : Env) (fiat asset : pyval) (trade_type : string)
    (first count : nat) : list Request :=
  rev (map (search E fiat asset trade_type) (seq first count)).

(** What a reply to a page request amounts to: a page with records,
    an empty page, an application-level failure code, or a failure of
    the exchange itself (transport, status, decoding, shape). *)
Inductive page : Type :=
| FullPage (ads : list pyval)
| EmptyPage
| FailureCode
| Failed.

Definition read_page (reply : result Response) : page :=
  match reply with
  | Raise _ => Failed
  | Ok response =>
      if (400 <=? status_code response) && (status_code response <? 600)
      then Failed
      else
        match json_body response with
        | None => Failed
        | Some data =>
            match get data "code" PNone with
            | Raise _ => Failed
            | Ok code =>
                if differs_from_str code "000000" then FailureCode
                else
                  match get data "data" (PList []) with
                  | Raise _ => Failed
                  | Ok offers =>
                      if truthy offers
                      then match iterate offers with
                           | Ok ads => FullPage ads
                           | Raise _ => Failed
                           end
                      else EmptyPage
                  end
            end
        end
  end.

Definition ads_of (p : page) : list pyval :=
  match p with
  | FullPage ads => ads
  | _ => []
  end.

(** The reply to page [first + i] in a run that starts at page
    [first] in world [w] and has asked for the [i] pages before. *)
Definition reply (E : Env) (fiat asset : pyval) (trade_type : string)
    (w : World) (first i : nat) : page :=
  read_page
    (session_post E
       (searches E fiat asset trade_type first i ++ posted w)%list
       (search E fiat asset trade_type (first + i))).

(** What a list of raw records contributes to the result, in the
    words of the specification: each record is parsed in turn and the
    valid ones are kept, in order. The parse of a record draws its id
    after those of the records before it. *)
Fixpoint valid_records (E : Env) (ads : list pyval) (drawn : nat)
    : list pyval :=
  match ads with
  | [] => []
  | ad :: rest =>
      match _parse_offer E drawn ad with
      | (drawn', Some offer) => offer :: valid_records E rest drawn'
      | (drawn', None) => valid_records E rest drawn'
      end
  end.

(** The world after [i] calls of [rate_limiter.acquire()]. *)
Fixpoint after_acquires (E : Env) (i : nat) (w : World) : World :=
  match i with
  | O => w
  | S i' => after_acquires E i' (fst (rate_limiter_acquire E w))
  end.

(** What the call of [rate_limiter.acquire()] gives that comes after
    [i] earlier ones in a run that starts in world [w]. Between two
    such calls the run touches neither the limiter nor the clock. *)
Definition acquire_at (E : Env) (w : World) (i : nat) : result Q :=
  snd (rate_limiter_acquire E (after_acquires E i w)).

(** A server with two full pages and then an empty one. *)
Definition two_pages (history : list Request) (r : Request)
    : result Response :=
  match r with
  | PairsRequest => Raise RequestException
  | SearchRequest page _ _ _ _ =>
      Ok {| status_code := 200;
            json_body :=
              Some (PDict [ ("code", PStr "000000");
                            ("data", if page <=? 2 then PList [Sample.ad]
                                     else PList []) ]) |}
  end.

End PaginationTerms.

Module CollectionTerms.

Import Extractor.

(** What a completed task contributes: its list, or nothing when it
    raised. *)
Definition offers_of (outcome : result (list pyval)) : list pyval :=
  match outcome with
  | Ok offers => offers
  | Raise _ => []
  end.

Definition contribution (c : Pair * result (list pyval)) : list pyval :=
  offers_of (snd c).

(** Fork and join: every task submitted completes exactly once, in
    whatever order. *)
Definition joins (pool : Pool) : Prop :=
  forall w pairs, Permutation (map fst (snd (pool w pairs))) pairs.

Definition offers (n : nat) : list pyval :=
  map (fun k => PDict [("offer_external_id", PInt (Z.of_nat k))]) (seq 0 n).

Definition pair_of (f a d : string) : Pair :=
  {| fiat := PStr f; asset := PStr a; trade_type := d |}.

(** The scenario of the specification, in one completion order: pair
    A fails, pair B returns 5 offers and pair C returns 7. *)
Definition scenario : list (Pair * result (list pyval)) :=
  [ (pair_of "VES" "BTC" "SELL", Ok (offers 7));
    (pair_of "VES" "USDT" "BUY", Raise RequestException);
    (pair_of "VES" "BTC" "BUY", Ok (offers 5)) ].


End CollectionTerms.

Module LoaderTerms.

Import Loader.

(** A storage layer that takes every row, under a clock that ticks. *)
Definition accept_all : Storage :=
  {| accepts := fun _ _ _ => true;
     utcnow := fun k => 1700000000 + Z.of_nat k |}.

(** An empty warehouse whose sequences start at 1. *)
Definition empty_db : Database :=
  {| committed := []; sequences := fun _ => 1; utc_reads := 0; events := [] |}.

(** The offer [_parse_offer] makes of the sample record. *)
Definition parsed_offer : pyval :=
  PDict
    [ ("offer_external_id", PStr "a");
      ("advertiser_nickname", PStr "trader1");
      ("price", PDecimal (DFinite false 3650 (-2)));
      ("available_amount", PDecimal (DFinite false 120 0));
      ("min_limit", PDecimal (DFinite false 10 0));
      ("max_limit", PDecimal (DFinite false 500 0));
      ("payment_methods", PList [PStr "Banesco"; PStr "Mercantil"]);
      ("asset", PStr "USDT");
      ("fiat", PStr "VES");
      ("trade_type", PStr "BUY") ].

(** An offer with the keys the loader reads. *)
Definition offer (id fiat asset advertiser : string) (methods : list string)
    : pyval :=
  PDict
    [ ("id", PStr id);
      ("asset", PStr asset);
      ("fiat", PStr fiat);
      ("trade_type", PStr "BUY");
      ("price", PDecimal (DFinite false 3650 (-2)));
      ("available_amount", PDecimal (DFinite false 120 0));
      ("min_limit", PDecimal (DFinite false 10 0));
      ("max_limit", PDecimal (DFinite false 500 0));
      ("advertiser",
       PDict [ ("id", PStr advertiser);
               ("nickname", PStr advertiser);
               ("completion_rate", PDecimal (DFinite false 98 (-2)));
               ("total_orders", PInt 120) ]);
      ("payment_methods",
       PList (map (fun m => PDict [ ("identifier", PStr m);
                                    ("tradeMethodName", PStr m) ])
                  methods)) ].

(** The rows of the fiat dimension stored under the code [c]. *)
Definition fiat_rows (c : string) (stored : list Stored) : list Stored :=
  List.filter (fun s => has_currency_code c (snd s)) stored.

(** The current rows of the advertiser dimension stored for [k]. *)
Definition current_rows (k : string) (stored : list Stored) : list Stored :=
  List.filter (fun s => is_current_advertiser k (snd s)) stored.

(** The invariant of the advertiser dimension: at most one current
    row for each advertiser id. *)
Definition one_current (stored : list Stored) : Prop :=
  forall k, (length (current_rows k stored) <= 1)%nat.

Definition is_fact (r : Row) : bool :=
  match r with
  | FactOffers _ _ _ _ _ _ _ _ _ _ _ _ _ _ _ => true
  | _ => false
  end.

Definition is_bridge (r : Row) : bool :=
  match r with
  | FactOfferPaymentMethods _ _ _ => true
  | _ => false
  end.

Definition facts (stored : list Stored) : list Stored :=
  List.filter (fun s => is_fact (snd s)) stored.

Definition bridges (stored : list Stored) : list Stored :=
  List.filter (fun s => is_bridge (snd s)) stored.

End LoaderTerms.

Module InvariantTerms.

Import Loader.

(** A computation keeps an invariant of the session state, whether it
    returns or raises. *)
Definition preserves {A} (I : State -> Prop) (m : M A) : Prop :=
  forall st, I st -> I (fst (m st)).

Definition is_advertiser (r : Row) : bool :=
  match r with
  | DimAdvertisers _ _ _ _ _ _ => true
  | _ => false
  end.

(** The invariant of the advertiser dimension inside a session: the
    visible rows have at most one current row for each advertiser id,
    and no advertiser object waits for a flush. *)
Definition advertisers_consistent (st : State) : Prop :=
  LoaderTerms.one_current (rows st)
  /\ Forall (fun r => is_advertiser r = false) (pending st).

(** The fiat code [c] is bound to the key [i]: the cache says so, the
    visible rows under [c] are [known], and no object under [c] waits
    for a flush. *)
Definition fiat_bound (c : string) (i : Z) (known : list Stored) (st : State)
    : Prop :=
  _fiat_cache (loader st) !! c = Some i
  /\ LoaderTerms.fiat_rows c (rows st) = known
  /\ Forall (fun r => has_currency_code c r = false) (pending st).

End InvariantTerms.

Module WarehouseSamples.

Import Loader.

(** A warehouse that already knows the advertiser [adv1] and the
    fiat [VES]. *)
Definition seeded_db : Database :=
  {| committed :=
       [ (1, DimAdvertisers "adv1" (PStr "adv1") false 0 1600000000 true);
         (1, DimFiatCurrencies "VES" "VES") ];
     sequences := fun _ => 2;
     utc_reads := 0;
     events := [] |}.

Definition first_batch : list pyval :=
  [ LoaderTerms.offer "o1" "VES" "USDT" "adv1" ["Banesco"; "Pago"];
    LoaderTerms.offer "o2" "VES" "BTC" "adv2" ["Banesco"] ].

Definition second_batch : list pyval :=
  [ LoaderTerms.offer "o3" "VES" "USDT" "adv2" ["Pago"];
    LoaderTerms.offer "o4" "USD" "USDT" "adv3" [] ].

End WarehouseSamples.

Module BatchTerms.

Import Loader LoaderTerms.

(** Every binding of the four caches of [L] is a binding of [L']. *)
Definition cache_grows (L L' : DataLoader) : Prop :=
  _fiat_cache L ⊆ _fiat_cache L'
  /\ _crypto_cache L ⊆ _crypto_cache L'
  /\ _payment_method_cache L ⊆ _payment_method_cache L'
  /\ _advertiser_cache L ⊆ _advertiser_cache L'.

(** The objects of a session in the order they were added: those
    stored already, then those that wait for a flush. *)
Definition objects (st : State) : list Row :=
  (map snd (rows st) ++ pending st)%list.

Definition no_pending_facts (st : State) : Prop :=
  Forall (fun r => is_fact r = false) (pending st).

Definition is_dimension (r : Row) : bool :=
  negb (is_fact r) && negb (is_bridge r).

(** From [st] to [st'] the caches grew, rows were appended to the
    visible ones and none was changed, the objects [added] were added
    to the session, and the facts [new_facts] were stored. *)
Definition step (st st' : State) (added : list Row)
    (new_facts : list Stored) : Prop :=
  cache_grows (loader st) (loader st')
  /\ (exists inserted, rows st' = (rows st ++ inserted)%list)
  /\ objects st' = (objects st ++ added)%list
  /\ map snd new_facts = List.filter is_fact added
  /\ facts (rows st') = (facts (rows st) ++ new_facts)%list
  /\ no_pending_facts st'.

(** A step that adds dimension rows only. *)
Definition dimension_step (st st' : State) : Prop :=
  exists added,
    step st st' added [] /\ Forall (fun r => is_dimension r = true) added.

(** The keys the caches of [L] hold for the natural keys of an
    offer. *)
Definition resolved (L : DataLoader) (offer : pyval) (ids : Z * Z * Z) : Prop :=
  exists asset fiat advertiser adv_id,
    subscript offer "asset" = Ok (PStr asset)
    /\ _crypto_cache L !! asset = Some (fst (fst ids))
    /\ subscript offer "fiat" = Ok (PStr fiat)
    /\ _fiat_cache L !! fiat = Some (snd (fst ids))
    /\ subscript offer "advertiser" = Ok advertiser
    /\ subscript advertiser "id" = Ok (PStr adv_id)
    /\ _advertiser_cache L !! adv_id = Some (snd ids).

(** [fact] is the fact of [offer]: the batch id, the timestamp, the
    keys of its three dimensions and its own fields. *)
Definition fact_of (L : DataLoader) (batch_id : string) (ts : Z)
    (offer : pyval) (fact : Row) : Prop :=
  exists crypto_id fiat_id advertiser_sk,
    resolved L offer (crypto_id, fiat_id, advertiser_sk)
    /\ fact_of_offer offer batch_id ts crypto_id fiat_id advertiser_sk
       = Ok fact.

(** [r] is the bridge row of the payment method [pm] for the fact
    stored under [offer_id]. *)
Definition bridge_of (L : DataLoader) (ts offer_id : Z) (pm : pyval)
    (r : Row) : Prop :=
  exists code pm_id,
    subscript pm "identifier" = Ok (PStr code)
    /\ _payment_method_cache L !! code = Some pm_id
    /\ r = FactOfferPaymentMethods offer_id ts pm_id.

(** The payment methods of an offer. *)
Definition payment_methods (offer : pyval) : result (list pyval) :=
  pms <- subscript offer "payment_methods" ;; iterate pms.

(** The facts and the bridge rows of a batch: one fact for each offer,
    in order, and for each fact one bridge row for each payment method
    of its offer, under the key of that fact. *)
Inductive batch_stored (L : DataLoader) (batch_id : string) (ts : Z)
    : list pyval -> list Stored -> list Row -> Prop :=
| stored_nil : batch_stored L batch_id ts [] [] []
| stored_cons (offer : pyval) (offers : list pyval) (offer_id : Z)
    (fact : Row) (new_facts : list Stored) (pms : list pyval)
    (group new_bridges : list Row) :
    fact_of L batch_id ts offer fact ->
    payment_methods offer = Ok pms ->
    Forall2 (bridge_of L ts offer_id) pms group ->
    batch_stored L batch_id ts offers new_facts new_bridges ->
    batch_stored L batch_id ts (offer :: offers)
      ((offer_id, fact) :: new_facts) (group ++ new_bridges)%list.

End BatchTerms.

Module FiatTerms.

Import Loader LoaderTerms.

(** The fiat key a fact carries. *)
Definition fiat_id_of (r : Row) : option Z :=
  match r with
  | FactOffers _ _ _ _ fiat_id _ _ _ _ _ _ _ _ _ _ => Some fiat_id
  | _ => None
  end.

(** Offer by offer, the fact of an offer that names the fiat code [c]
    carries the key [i]. *)
Definition facts_carry (c : string) (i : Z) (offers : list pyval)
    (new_facts : list Stored) : Prop :=
  Forall2 (fun offer f =>
             subscript offer "fiat" = Ok (PStr c) ->
             fiat_id_of (snd f) = Some i)
          offers new_facts.

End FiatTerms.

Module UniqueTerms.

Import Loader LoaderTerms.

Definition is_fiat (r : Row) : bool :=
  match r with
  | DimFiatCurrencies _ _ => true
  | _ => false
  end.

(** The natural key of the fiat dimension is unique: at most one row
    for each code. *)
Definition one_row_per_code (stored : list Stored) : Prop :=
  forall k, (length (fiat_rows k stored) <= 1)%nat.

Definition fiat_unique (st : State) : Prop :=
  one_row_per_code (rows st)
  /\ Forall (fun r => is_fiat r = false) (pending st).

End UniqueTerms.

Module LimiterTerms.

Import RateLimiter.

Local Open Scope Q_scope.

(** One [acquire] call as the limiter sees it: the reading of the
    clock on entry, the reading after the sleep (looked at on the
    waiting path only) and the number of tokens asked for. *)
Record Call := {
  at_entry : Q;
  after_sleep : Q;
  amount : Z
}.

(** Successive calls on one limiter, a raising call included: the
    limiter after the last one and what each call returned. *)
Fixpoint acquire_all (calls : list Call) (s : TokenBucketRateLimiter)
    : TokenBucketRateLimiter * list (result Q) :=
  match calls with
  | [] => (s, [])
  | c :: rest =>
      let o := acquire (at_entry c) (after_sleep c) (amount c) s in
      let (s', results) := acquire_all rest (after o) in
      (s', returned o :: results)
  end.

(** The tokens handed out: the amounts of the calls that returned. *)
Fixpoint granted (calls : list Call) (results : list (result Q)) : Z :=
  match calls, results with
  | c :: calls', Ok _ :: results' => (amount c + granted calls' results')%Z
  | _ :: calls', Raise _ :: results' => granted calls' results'
  | _, _ => 0%Z
  end.

(** [time.sleep] keeps its word: whenever a call of the run waits,
    the clock read after the sleep is at least the reading on entry
    plus the wait. *)
Fixpoint sleeps_in_full (calls : list Call) (s : TokenBucketRateLimiter)
    : Prop :=
  match calls with
  | [] => True
  | c :: rest =>
      let o := acquire (at_entry c) (after_sleep c) (amount c) s in
      (clock_readings o = 2%nat ->
       forall wait, returned o = Ok wait -> at_entry c + wait <= after_sleep c)
      /\ sleeps_in_full rest (after o)
  end.

(** The clock never runs backwards between the calls of a run that
    does not wait: each reading on entry is at least the one before. *)
Fixpoint chronological (previous : Q) (calls : list Call) : Prop :=
  match calls with
  | [] => True
  | c :: rest => previous <= at_entry c /\ chronological (at_entry c) rest
  end.

(** The clock is never read behind the limiter's own stamp: each
    call of the run is entered no earlier than the last refill the
    limiter recorded. *)
Fixpoint clock_forward (calls : list Call) (s : TokenBucketRateLimiter)
    : Prop :=
  match calls with
  | [] => True
  | c :: rest =>
      last_refill s <= at_entry c
      /\ clock_forward rest
           (after (acquire (at_entry c) (after_sleep c) (amount c) s))
  end.

(** An amount that is not negative and that the limiter [s] can make
    up for, from an empty bucket, within one sleep. *)
Definition within_reach (s : TokenBucketRateLimiter) (c : Call) : Prop :=
  (0 <= amount c)%Z
  /\ inject_Z (amount c) / tokens_per_second s <= sleep_max.

(** The tokens a run asks for. *)
Definition total_amount (calls : list Call) : Z :=
  fold_right (fun c acc => (amount c + acc)%Z) 0%Z calls.

Definition returned_ok (r : result Q) : bool :=
  match r with Ok _ => true | Raise _ => false end.

Definition waited (r : result Q) : bool :=
  match r with Ok wait => negb (Qeq_bool wait 0) | Raise _ => false end.

(** The calls of the scenario: a burst of 20 at time 0, then a call
    that has to wait and is woken 0.6 seconds later. *)
Definition burst_and_wait : list Call :=
  (repeat {| at_entry := 0; after_sleep := 0; amount := 1 |} 20
   ++ [ {| at_entry := 0; after_sleep := 6 # 10; amount := 1 |} ])%list.

(** Twenty calls at increasing times. *)
Definition spread_calls : list Call :=
  map (fun k => {| at_entry := inject_Z (Z.of_nat k);
                   after_sleep := inject_Z (Z.of_nat k);
                   amount := 1 |}) (seq 1 20).

End LimiterTerms.

Module ExtractionTerms.

Import RateLimiter Extractor.

(** [offer["offer_external_id"]]. *)
Definition external_id (offer : pyval) : result pyval :=
  subscript offer "offer_external_id".

(** The ids of the random UUIDs with the given draw numbers. *)
Definition ids_of_draws (E : Env) (draws : list nat) : list (result pyval) :=
  map (fun d => Ok (PStr (uuid4 E d))) draws.

(** Draw numbers that go strictly up, from [lo] on and below [hi]. *)
Fixpoint ascending (lo : nat) (draws : list nat) (hi : nat) : Prop :=
  match draws with
  | [] => (lo <= hi)%nat
  | d :: rest => (lo <= d)%nat /\ ascending (S d) rest hi
  end.

(** The offers carry, in their order, the UUIDs of draws that go
    strictly up between [lo] and [hi]. *)
Definition drawn_between (E : Env) (lo hi : nat) (offers : list pyval)
    : Prop :=
  exists draws,
    map external_id offers = ids_of_draws E draws /\ ascending lo draws hi.

(** [uuid.uuid4()] does not repeat itself between the draws [lo] and
    [hi]. *)
Definition draws_differ (E : Env) (lo hi : nat) : Prop :=
  forall i j, (lo <= i < hi)%nat -> (lo <= j < hi)%nat ->
              uuid4 E i = uuid4 E j -> i = j.

(** A record that [_parse_offer] returned for some input. *)
Definition parsed (E : Env) (offer : pyval) : Prop :=
  exists drawn ad, snd (_parse_offer E drawn ad) = Some offer.

(** Between the worlds [w] and [w'] every call of [session.post] was
    paid for: the calls of [w] are still on record, and the limiter
    counts one more granted [acquire] for each call added. What the
    retry adapter sends again inside a call is not counted. *)
Definition paid (w w' : World) : Prop :=
  exists new,
    posted w' = (new ++ posted w)%list
    /\ total_requests (limiter w')
       = (total_requests (limiter w) + Z.of_nat (length new))%Z.

(** A pool of one worker, whatever the order its futures are yielded
    in: the tasks run one after the other in the order submitted, as
    the single thread takes them from the queue, and [as_completed]
    yields the finished futures in an order of its own. *)
Definition one_worker (E : Env) (pool : Pool) : Prop :=
  forall w pairs,
    fst (pool w pairs) = fst (sequential_pool E w pairs)
    /\ Permutation (snd (pool w pairs)) (snd (sequential_pool E w pairs)).

(** The pool of one worker whose futures are yielded last first. *)
Definition reversing_pool (E : Env) : Pool :=
  fun w pairs =>
    let (w', completed) := sequential_pool E w pairs in (w', rev completed).

(** Every offer a pool hands back is a parsed record. *)
Definition hands_back_parsed (E : Env) (pool : Pool) : Prop :=
  forall w pairs,
    Forall (fun outcome =>
              forall offers, snd outcome = Ok offers ->
                             Forall (parsed E) offers)
           (snd (pool w pairs)).

(** A server with one fiat currency and one asset, whose offer search
    has two full pages of one record each. *)
Definition market (history : list Request) (r : Request) : result Response :=
  match r with
  | PairsRequest =>
      Ok {| status_code := 200;
            json_body :=
              Some (PDict
                      [ ("code", PStr "000000");
                        ("data",
                         PList [ PDict [ ("fiatUnit", PStr "VES");
                                         ("assetList",
                                          PList [PStr "USDT"]) ] ]) ]) |}
  | SearchRequest page _ _ _ _ =>
      Ok {| status_code := 200;
            json_body :=
              Some (PDict
                      [ ("code", PStr "000000");
                        ("data",
                         if page <=? 2 then PList [Sample.ad]
                         else PList []) ]) |}
  end.

End ExtractionTerms.

(** ** The job of [main.py] *)

Module Main.

Import Extractor Loader.

(** What the worker process holds between two runs of the job: the
    world of the module-level extractor, the module-level loader and
    the database. *)
Record Worker := {
  world : World;
  data_loader : DataLoader;
  database : Database
}.

(** [batch_id = uuid.uuid4()]. *)
Definition draw_batch_id (E : Env) (w : World) : World * string :=
  ({| limiter := limiter w; clock_reads := clock_reads w;
      uuids_drawn := S (uuids_drawn w); posted := posted w |},
   uuid4 E (uuids_drawn w)).

(** [job()]: a batch id is drawn, the offers are extracted and, when
    there are any, loaded. [except Exception] logs whatever either
    step raised; the result says which exception that was, if any. *)
Definition job (E : Env) (store : Storage) (pool : Pool) (k : Worker)
    : Worker * option exn :=
  let (w0, batch_id) := draw_batch_id E (world k) in
  let (w1, extracted) := extract_all_offers E pool w0 in
  match extracted with
  | Raise e =>
      ({| world := w1; data_loader := data_loader k;
          database := database k |}, Some e)
  | Ok [] =>
      ({| world := w1; data_loader := data_loader k;
          database := database k |}, None)
  | Ok offers =>
      let '(L, db, loaded) :=
        load_offers store offers batch_id (data_loader k) (database k) in
      ({| world := w1; data_loader := L; database := db |},
       match loaded with
       | Ok _ => None
       | Raise e => Some e
       end)
  end.

(** The worker after the job ran [n] times: once at the start of
    [main()], then each time the scheduler finds it due. *)
Fixpoint runs (E : Env) (store : Storage) (pool : Pool) (n : nat)
    (k : Worker) : Worker :=
  match n with
  | O => k
  | S n' => runs E store pool n' (fst (job E store pool k))
  end.

End Main.

Module IntegrityTerms.

Import Loader LoaderTerms.

(** A row the filter keeps is stored under the key [id]. *)
Definition has_row (keep : Row -> bool) (id : Z) (stored : list Stored)
    : bool :=
  existsb (fun s => (fst s =? id) && keep (snd s)) stored.

(** Every binding of a cache is backed by a stored row: the row of
    the natural key, under the key the cache holds. *)
Definition backed (keep : string -> Row -> bool) (cache : gmap string Z)
    (stored : list Stored) : Prop :=
  forall k id, cache !! k = Some id -> has_row (keep k) id stored = true.

Definition caches_backed (L : DataLoader) (stored : list Stored) : Prop :=
  backed has_symbol (_crypto_cache L) stored
  /\ backed has_currency_code (_fiat_cache L) stored
  /\ backed has_method_code (_payment_method_cache L) stored
  /\ backed is_current_advertiser (_advertiser_cache L) stored.

Definition in_table (t : Table) (r : Row) : bool := Table_eqb (table_of r) t.

(** The foreign keys of a row point at stored rows of the tables they
    name. *)
Definition references_resolve (stored : list Stored) (r : Row) : bool :=
  match r with
  | FactOffers _ _ _ crypto_id fiat_id advertiser_sk _ _ _ _ _ _ _ _ _ =>
      has_row (in_table dim_cryptocurrencies) crypto_id stored
      && has_row (in_table dim_fiat_currencies) fiat_id stored
      && has_row (in_table dim_advertisers) advertiser_sk stored
  | FactOfferPaymentMethods offer_id _ payment_method_id =>
      has_row (in_table fact_offers) offer_id stored
      && has_row (in_table dim_payment_methods) payment_method_id stored
  | _ => true
  end.

(** The three dimension keys a fact carries. *)
Definition keys_of (r : Row) : option (Z * Z * Z) :=
  match r with
  | FactOffers _ _ _ crypto_id fiat_id advertiser_sk _ _ _ _ _ _ _ _ _ =>
      Some (crypto_id, fiat_id, advertiser_sk)
  | _ => None
  end.

(** The fact of an offer points at the rows of the offer's own
    natural keys: its asset, its fiat code and its advertiser. *)
Definition fact_links (stored : list Stored) (offer : pyval) (fact : Stored)
    : Prop :=
  exists asset fiat advertiser adv_id crypto_id fiat_id advertiser_sk,
    subscript offer "asset" = Ok (PStr asset)
    /\ subscript offer "fiat" = Ok (PStr fiat)
    /\ subscript offer "advertiser" = Ok advertiser
    /\ subscript advertiser "id" = Ok (PStr adv_id)
    /\ keys_of (snd fact) = Some (crypto_id, fiat_id, advertiser_sk)
    /\ has_row (has_symbol asset) crypto_id stored = true
    /\ has_row (has_currency_code fiat) fiat_id stored = true
    /\ has_row (is_current_advertiser adv_id) advertiser_sk stored = true.

(** What one lookup does, whatever its outcome: rows are appended to
    the visible ones; the loader is as before, or one new binding was
    added to the cache of the dimension, for the key looked up, to the
    key returned, whose row is visible. *)
Definition lookup_effect (cache : DataLoader -> gmap string Z)
    (put : string -> Z -> DataLoader -> DataLoader)
    (keep : string -> Row -> bool) (key : pyval) (st : State)
    (run : State * result Z) : Prop :=
  (exists inserted, rows (fst run) = (rows st ++ inserted)%list)
  /\ (pending (fst run) = pending st \/ pending (fst run) = [])
  /\ (loader (fst run) = loader st
      \/ exists k id,
           key = PStr k /\ cache (loader st) !! k = None
           /\ snd run = Ok id
           /\ loader (fst run) = put k id (loader st)
           /\ has_row (keep k) id (rows (fst run)) = true)
  /\ (forall id, snd run = Ok id ->
        exists k, key = PStr k /\ cache (loader (fst run)) !! k = Some id).

(** The books of the loader in a session: no binding of the loader
    [L0] was dropped or changed, and the running total is that of
    [L0]. *)
Definition books_kept (L0 : DataLoader) (st : State) : Prop :=
  BatchTerms.cache_grows L0 (loader st)
  /\ processed_offers (loader st) = processed_offers L0.

(** The caches of the session are backed by its visible rows. *)
Definition session_backed (st : State) : Prop :=
  caches_backed (loader st) (rows st).

(** A storage layer that enforces the foreign keys and nothing
    else. *)
Definition enforcing : Storage :=
  {| accepts := fun visible _ r => references_resolve visible r;
     utcnow := fun k => 1700000000 + Z.of_nat k |}.

(** A storage layer that takes every row but the bridge rows. *)
Definition no_bridges : Storage :=
  {| accepts := fun _ _ r => negb (is_bridge r);
     utcnow := fun k => 1700000000 + Z.of_nat k |}.

End IntegrityTerms.

Module KeyTerms.

Import Loader LoaderTerms.

(** The rows a lookup filter keeps for the natural key [k]. *)
Definition rows_of (keep : string -> Row -> bool) (k : string)
    (stored : list Stored) : list Stored :=
  List.filter (fun s => keep k (snd s)) stored.

(** At most one row for each natural key of a dimension. *)
Definition one_row_per_key (keep : string -> Row -> bool)
    (stored : list Stored) : Prop :=
  forall k, (length (rows_of keep k stored) <= 1)%nat.

(** The three columns the models declare [unique]: the symbol of a
    cryptocurrency, the code of a fiat currency and the code of a
    payment method. *)
Definition keys_unique (stored : list Stored) : Prop :=
  one_row_per_key has_symbol stored
  /\ one_row_per_key has_currency_code stored
  /\ one_row_per_key has_method_code stored.

(** A row no lookup filter of the three keeps. *)
Definition keyless (r : Row) : Prop :=
  forall k,
    has_symbol k r = false /\ has_currency_code k r = false
    /\ has_method_code k r = false.

(** Inside a session: the visible rows have unique keys and only
    keyless objects wait for a flush. *)
Definition session_unique (st : State) : Prop :=
  keys_unique (rows st) /\ Forall keyless (pending st).

(** Whatever key the object [r] is filed under, no visible row is
    filed under it yet. *)
Definition is_new (r : Row) (stored : list Stored) : Prop :=
  forall k,
    (has_symbol k r = true -> rows_of has_symbol k stored = [])
    /\ (has_currency_code k r = true -> rows_of has_currency_code k stored = [])
    /\ (has_method_code k r = true -> rows_of has_method_code k stored = []).

(** A warehouse with two cryptocurrencies and one payment method. *)
Definition stocked_db : Database :=
  {| committed :=
       [ (1, DimCryptocurrencies "USDT" "USDT" "USDT");
         (2, DimCryptocurrencies "BTC" "BTC" "BTC");
         (1, DimPaymentMethods "Banesco" (PStr "Banesco")) ];
     sequences := fun _ => 3;
     utc_reads := 0;
     events := [] |}.

End KeyTerms.

Module StampTerms.

Import Loader.

(** The batch id and the extraction timestamp a fact carries. *)
Definition stamp_of (r : Row) : option (string * Z) :=
  match r with
  | FactOffers _ batch_id extraction_timestamp _ _ _ _ _ _ _ _ _ _ _ _ =>
      Some (batch_id, extraction_timestamp)
  | _ => None
  end.

(** The external id a fact carries. *)
Definition external_id_of (r : Row) : result pyval :=
  match r with
  | FactOffers offer_external_id _ _ _ _ _ _ _ _ _ _ _ _ _ _ =>
      Ok offer_external_id
  | _ => Raise TypeError
  end.

(** The fact and the timestamp a bridge row carries. *)
Definition bridge_stamp (r : Row) : option (Z * Z) :=
  match r with
  | FactOfferPaymentMethods offer_id extraction_timestamp _ =>
      Some (offer_id, extraction_timestamp)
  | _ => None
  end.

(** For each offer and the key of its fact, one entry for each payment
    method of the offer: the key of the fact and the timestamp. *)
Fixpoint bridge_stamps (ts : Z) (offers : list pyval) (keys : list Z)
    : list (option (Z * Z)) :=
  match offers, keys with
  | offer :: offers', key :: keys' =>
      (map (fun _ => Some (key, ts))
           (match BatchTerms.payment_methods offer with
            | Ok pms => pms
            | Raise _ => []
            end)
       ++ bridge_stamps ts offers' keys')%list
  | _, _ => []
  end.

End StampTerms.

(** * Properties *)

(** ** Rate limiter *)

Section RateLimiterSpec.

Import RateLimiter.
Local Open Scope Q_scope.

Variables (s : TokenBucketRateLimiter) (now now_after : Q) (n : Z).

Lemma Qltb_true (x y : Q) : Qltb x y = true <-> x < y.
Proof.
  unfold Qltb. rewrite negb_true_iff, <- not_true_iff_false, Qle_bool_iff.
  split; [apply Qnot_le_lt | apply Qlt_not_le].
Qed.

Lemma Qltb_false (x y : Q) : Qltb x y = false <-> y <= x.
Proof.
  unfold Qltb. rewrite negb_false_iff, Qle_bool_iff. reflexivity.
Qed.

(** The refill is the smaller of the capacity and the old count plus
    elapsed time times the rate. *)
Lemma refilled_is_min :
  refilled s now ==
  Qmin (inject_Z (burst_size s))
       (tokens s + (now - last_refill s) * tokens_per_second s).
Proof.
  unfold refilled, py_min.
  set (cap := inject_Z (burst_size s)).
  set (filled := tokens s + (now - last_refill s) * tokens_per_second s).
  destruct (Qltb filled cap) eqn:Hlt.
  - apply Qltb_true in Hlt. symmetry. apply Q.min_r. apply Qlt_le_weak, Hlt.
  - apply Qltb_false in Hlt. symmetry. apply Q.min_l. exact Hlt.
Qed.

Lemma refilled_le_capacity : refilled s now <= inject_Z (burst_size s).
Proof. rewrite refilled_is_min. apply Q.le_min_l. Qed.

(** A positive rate makes the wait of the waiting path positive. *)
Lemma wait_positive :
  0 < tokens_per_second s ->
  refilled s now < inject_Z n ->
  0 < (inject_Z n - refilled s now) / tokens_per_second s.
Proof.
  intros Hrate Hshort. apply Qlt_shift_div_l; [exact Hrate |].
  rewrite Qmult_0_l. unfold Qminus. rewrite <- Qlt_minus_iff. exact Hshort.
Qed.

(** A negative rate makes the wait of the waiting path negative. *)
Lemma wait_negative :
  tokens_per_second s < 0 ->
  refilled s now < inject_Z n ->
  (inject_Z n - refilled s now) / tokens_per_second s < 0.
Proof.
  intros Hrate Hshort.
  assert (Hpos : 0 < (inject_Z n - refilled s now) / - tokens_per_second s).
  { apply Qlt_shift_div_l; [lra |]. rewrite Qmult_0_l. lra. }
  assert (Heq : (inject_Z n - refilled s now) / tokens_per_second s
                == - ((inject_Z n - refilled s now) / - tokens_per_second s)).
  { field. intros H. rewrite H in Hrate. exact (Qlt_irrefl 0 Hrate). }
  rewrite Heq. lra.
Qed.


End RateLimiterSpec.



(** An [acquire] on a limiter whose rate is zero and whose bucket is
    short raises instead of waiting. *)
Example acquire_zero_rate_raises :
  RateLimiter.returned
    (RateLimiter.acquire 0 0 1
       {| RateLimiter.rate := 0; RateLimiter.burst_size := 0;
          RateLimiter.tokens_per_second := 0; RateLimiter.tokens := 0;
          RateLimiter.last_refill := 0; RateLimiter.total_requests := 0;
          RateLimiter.total_waits := 0 |})
  = Raise ZeroDivisionError.
Proof. reflexivity. Qed.

(** The scenario of the specification: a clock that stands still, a
    capacity of 20 and 100 requests per minute. Of 25 immediate
    [acquire(1)] calls the first 20 return a zero wait and each later
    one returns [(1 - 0) / (100/60)], that is 0.6 seconds. *)
Example burst_then_wait :
  let waits :=
    RateLimiter.acquire_many 25 0
      (RateLimiter.init RateLimiter.default_settings None None 0) in
  firstn 20 waits = repeat (Ok 0%Q) 20
  /\ Forall (fun w => exists q, w = Ok q /\ (q == 6 # 10)%Q) (skipn 20 waits).
Proof.
  split; [vm_compute; reflexivity |].
  vm_compute skipn. repeat constructor; eexists; (split; [reflexivity | reflexivity]).
Qed.

(** ** Offer parsing *)

Section ParseOffer.

Import Extractor Terms.

Variable E : Env.

Ltac split_bind :=
  repeat match goal with
    | H : context [bind ?r _] |- _ =>
        let Hr := fresh "Hr" in destruct r eqn:Hr; cbn [bind] in H
    | H : context [match ?r with Ok _ => _ | Raise _ => _ end] |- _ =>
        let Hr := fresh "Hr" in destruct r eqn:Hr
    | H : context [if ?b then _ else _] |- _ =>
        let Hb := fresh "Hb" in destruct b eqn:Hb
    | H : Ok _ = Ok _ |- _ => injection H as H; subst
    | H : Some _ = Some _ |- _ => injection H as H; subst
    | H : Raise _ = Ok _ |- _ => discriminate H
    | H : Ok None = Ok (Some _) |- _ => discriminate H
    end.

Lemma numeric_fields_some (adv : pyval) (nums : Numbers) :
  numeric_fields E adv = Ok (Some nums) <->
  numeric E adv "price" = Ok (n_price nums)
  /\ numeric E adv "surplusAmount" = Ok (n_available_amount nums)
  /\ numeric E adv "minSingleTransAmount" = Ok (n_min_limit nums)
  /\ numeric E adv "maxSingleTransAmount" = Ok (n_max_limit nums)
  /\ decimal_le_zero (n_price nums) = Ok false
  /\ decimal_le_zero (n_available_amount nums) = Ok false.
Proof.
  unfold numeric_fields, numeric. split.
  - intros H. split_bind; try discriminate. cbn. auto 10.
  - intros (Hp & Ha & Hmin & Hmax & Hpos & Hapos).
    destruct nums as [p a mn mx]; cbn in *.
    destruct (get adv "price" (PInt 0)); cbn in Hp |- *; [| discriminate].
    rewrite Hp; cbn.
    destruct (get adv "surplusAmount" (PInt 0)); cbn in Ha |- *;
      [| discriminate].
    rewrite Ha; cbn.
    destruct (get adv "minSingleTransAmount" (PInt 0)); cbn in Hmin |- *;
      [| discriminate].
    rewrite Hmin; cbn.
    destruct (get adv "maxSingleTransAmount" (PInt 0)); cbn in Hmax |- *;
      [| discriminate].
    rewrite Hmax; cbn. rewrite Hpos; cbn. rewrite Hapos; cbn. reflexivity.
Qed.

Lemma offer_parts_some (ad adv advertiser : pyval) (nums : Numbers)
    (codes : list pyval) :
  offer_parts E ad = Ok (Some (adv, advertiser, nums, codes)) <->
  subscript ad "adv" = Ok adv
  /\ subscript ad "advertiser" = Ok advertiser
  /\ numeric_fields E adv = Ok (Some nums)
  /\ method_codes adv = Ok codes.
Proof.
  unfold offer_parts, method_codes. split.
  - intros H.
    destruct (subscript ad "adv") as [adv0 |] eqn:Hadv; cbn in H;
      [| discriminate].
    destruct (subscript ad "advertiser") as [advertiser0 |] eqn:Hadvertiser;
      cbn in H; [| discriminate].
    destruct (numeric_fields E adv0) as [[nums0 |] | e] eqn:Hnum; cbn in H;
      try discriminate.
    + split_bind. repeat split; try assumption.
      rewrite Hr; cbn. rewrite Hr0; cbn. exact Hr1.
    + destruct (is_ValueError_or_TypeError e); cbn in H; discriminate.
  - intros (Hadv & Hadvertiser & Hnum & Hcodes).
    rewrite Hadv; cbn. rewrite Hadvertiser; cbn. rewrite Hnum; cbn.
    destruct (get adv "tradeMethods" (PList [])); cbn in Hcodes |- *;
      [| discriminate].
    destruct (iterate a); cbn in Hcodes |- *; [| discriminate].
    rewrite Hcodes. reflexivity.
Qed.

(** What [_parse_offer] returns is decided by the parts read before
    the dict literal and by the literal itself. *)
Lemma parse_offer_some (drawn : nat) (ad offer : pyval) :
  snd (_parse_offer E drawn ad) = Some offer <->
  exists adv advertiser nums codes,
    offer_parts E ad = Ok (Some (adv, advertiser, nums, codes))
    /\ parsed_offer (uuid4 E drawn) adv advertiser nums codes = Ok offer.
Proof.
  unfold _parse_offer, parse_offer_body. split.
  - destruct (offer_parts E ad) as [[[[[adv advertiser] nums] codes] |] | e];
      cbn.
    + destruct (parsed_offer _ adv advertiser nums codes) as [o | e] eqn:Ho;
        cbn.
      * intros [= <-]. eauto 10.
      * destruct (is_KeyError e); cbn; discriminate.
    + discriminate.
    + destruct (is_KeyError e); cbn; discriminate.
  - intros (adv & advertiser & nums & codes & Hparts & Hoffer).
    rewrite Hparts; cbn. rewrite Hoffer; cbn. reflexivity.
Qed.

(** A record that is kept costs one UUID. *)
Lemma parse_offer_draws (drawn : nat) (ad offer : pyval) :
  snd (_parse_offer E drawn ad) = Some offer ->
  fst (_parse_offer E drawn ad) = S drawn.
Proof.
  unfold _parse_offer, parse_offer_body.
  destruct (offer_parts E ad) as [[[[[adv advertiser] nums] codes] |] | e];
    cbn; [reflexivity | discriminate |].
  destruct (is_KeyError e); cbn; discriminate.
Qed.

(** C3, as the code has it. [_parse_offer] never raises. It returns
    [None] when the [adv] or the [advertiser] key is missing, when
    one of the four numeric fields does not parse, and when the price
    or the available amount is not positive; the two limits are parsed
    and copied but their sign is not looked at. It returns a record
    exactly when, besides, the payment methods are a sequence of
    objects and the advertiser is an object; the record then carries
    a fresh id and the fields of the input: the four decimals as
    parsed, the payment method codes, asset, fiat, trade type and
    nickname. *)
Theorem parse_offer_discards_or_copies (drawn : nat) (ad : pyval) :
  let parsed := snd (_parse_offer E drawn ad) in
  (forall key, In key ["adv"; "advertiser"] ->
     (forall v, subscript ad key <> Ok v) -> parsed = None)
  /\ (forall adv key, subscript ad "adv" = Ok adv -> In key numeric_keys ->
       (forall d, numeric E adv key <> Ok d) -> parsed = None)
  /\ (forall adv key d, subscript ad "adv" = Ok adv -> In key checked_keys ->
       numeric E adv key = Ok d -> decimal_le_zero d <> Ok false ->
       parsed = None)
  /\ (forall offer,
       parsed = Some offer <->
       exists adv advertiser price available_amount min_limit max_limit
              codes nickname asset fiat trade_type,
         subscript ad "adv" = Ok adv
         /\ subscript ad "advertiser" = Ok advertiser
         /\ numeric E adv "price" = Ok price
         /\ numeric E adv "surplusAmount" = Ok available_amount
         /\ numeric E adv "minSingleTransAmount" = Ok min_limit
         /\ numeric E adv "maxSingleTransAmount" = Ok max_limit
         /\ decimal_le_zero price = Ok false
         /\ decimal_le_zero available_amount = Ok false
         /\ method_codes adv = Ok codes
         /\ get advertiser "nickName" PNone = Ok nickname
         /\ get adv "asset" PNone = Ok asset
         /\ get adv "fiatUnit" PNone = Ok fiat
         /\ get adv "tradeType" PNone = Ok trade_type
         /\ offer =
            PDict
              [ ("offer_external_id", PStr (uuid4 E drawn));
                ("advertiser_nickname", nickname);
                ("price", PDecimal price);
                ("available_amount", PDecimal available_amount);
                ("min_limit", PDecimal min_limit);
                ("max_limit", PDecimal max_limit);
                ("payment_methods", PList codes);
                ("asset", asset);
                ("fiat", fiat);
                ("trade_type", trade_type) ]).
Proof.
  intros parsed.
  assert (Hiff : forall offer,
    parsed = Some offer <->
    exists adv advertiser price available_amount min_limit max_limit
           codes nickname asset fiat trade_type,
      subscript ad "adv" = Ok adv
      /\ subscript ad "advertiser" = Ok advertiser
      /\ numeric E adv "price" = Ok price
      /\ numeric E adv "surplusAmount" = Ok available_amount
      /\ numeric E adv "minSingleTransAmount" = Ok min_limit
      /\ numeric E adv "maxSingleTransAmount" = Ok max_limit
      /\ decimal_le_zero price = Ok false
      /\ decimal_le_zero available_amount = Ok false
      /\ method_codes adv = Ok codes
      /\ get advertiser "nickName" PNone = Ok nickname
      /\ get adv "asset" PNone = Ok asset
      /\ get adv "fiatUnit" PNone = Ok fiat
      /\ get adv "tradeType" PNone = Ok trade_type
      /\ offer =
         PDict
           [ ("offer_external_id", PStr (uuid4 E drawn));
             ("advertiser_nickname", nickname);
             ("price", PDecimal price);
             ("available_amount", PDecimal available_amount);
             ("min_limit", PDecimal min_limit);
             ("max_limit", PDecimal max_limit);
             ("payment_methods", PList codes);
             ("asset", asset);
             ("fiat", fiat);
             ("trade_type", trade_type) ]).
  { intros offer. subst parsed. rewrite parse_offer_some. split.
    - intros (adv & advertiser & nums & codes & Hparts & Hoffer).
      apply offer_parts_some in Hparts
        as (Hadv & Hadvertiser & Hnum & Hcodes).
      apply numeric_fields_some in Hnum
        as (Hp & Ha & Hmin & Hmax & Hpos & Hapos).
      unfold parsed_offer in Hoffer. split_bind.
      exists adv, advertiser, (n_price nums), (n_available_amount nums),
        (n_min_limit nums), (n_max_limit nums), codes.
      eauto 20.
    - intros (adv & advertiser & p & a & mn & mx & codes & nick & asset
              & fiat & tt & Hadv & Hadvertiser & Hp & Ha & Hmin & Hmax
              & Hpos & Hapos & Hcodes & Hnick & Hasset & Hfiat & Htt & ->).
      exists adv, advertiser,
        {| n_price := p; n_available_amount := a;
           n_min_limit := mn; n_max_limit := mx |}, codes.
      split.
      + apply offer_parts_some. repeat split; try assumption.
        apply numeric_fields_some. cbn. auto 10.
      + unfold parsed_offer. rewrite Hnick, Hasset, Hfiat, Htt. reflexivity. }
  assert (Hnone : forall P : Prop,
    (forall offer, parsed = Some offer -> P -> False) -> P -> parsed = None).
  { intros P HP p. destruct parsed as [offer |]; [| reflexivity].
    exfalso. exact (HP offer eq_refl p). }
  repeat split.
  - intros key Hkey Hmissing.
    apply (Hnone (forall v, subscript ad key <> Ok v)); [| exact Hmissing].
    intros offer Hsome Hno. apply Hiff in Hsome.
    destruct Hsome as (adv & advertiser & _ & _ & _ & _ & _ & _ & _ & _ & _
                       & Hadv & Hadvertiser & _).
    cbn in Hkey. destruct Hkey as [<- | [<- | []]]; eapply Hno; eassumption.
  - intros adv key Hadv Hkey Hbad.
    apply (Hnone (forall d, numeric E adv key <> Ok d)); [| exact Hbad].
    intros offer Hsome Hno. apply Hiff in Hsome.
    destruct Hsome as (adv' & advertiser & p & a & mn & mx & _ & _ & _ & _
                       & _ & Hadv' & _ & Hp & Ha & Hmin & Hmax & _).
    assert (adv' = adv) as -> by congruence.
    cbn in Hkey.
    destruct Hkey as [<- | [<- | [<- | [<- | []]]]]; eapply Hno; eassumption.
  - intros adv key d Hadv Hkey Hd Hbad.
    apply (Hnone (decimal_le_zero d <> Ok false)); [| exact Hbad].
    intros offer Hsome Hno. apply Hiff in Hsome.
    destruct Hsome as (adv' & advertiser & p & a & mn & mx & _ & _ & _ & _
                       & _ & Hadv' & _ & Hp & Ha & _ & _ & Hpos & Hapos & _).
    assert (adv' = adv) as -> by congruence.
    cbn in Hkey. destruct Hkey as [<- | [<- | []]]; apply Hno; congruence.
  - apply Hiff.
  - apply Hiff.
Qed.

End ParseOffer.

(** The well-formed sample record is kept, its fields copied. *)
Lemma parse_offer_discards_or_copies_witness :
  snd (Extractor._parse_offer (Sample.env Sample.no_reply 50) 0 Sample.ad)
  = Some
      (PDict
         [ ("offer_external_id", PStr "a");
           ("advertiser_nickname", PStr "trader1");
           ("price", PDecimal (DFinite false 3650 (-2)));
           ("available_amount", PDecimal (DFinite false 120 0));
           ("min_limit", PDecimal (DFinite false 10 0));
           ("max_limit", PDecimal (DFinite false 500 0));
           ("payment_methods", PList [PStr "Banesco"; PStr "Mercantil"]);
           ("asset", PStr "USDT");
           ("fiat", PStr "VES");
           ("trade_type", PStr "BUY") ]).
Proof.
  apply (parse_offer_discards_or_copies
           (Sample.env Sample.no_reply 50) 0 Sample.ad).
  eexists _, _, _, _, _, _, _, _, _, _, _.
  repeat (split; [reflexivity |]). reflexivity.
Defined.

(** C3 as stated fails twice. A record whose minimum limit is zero
    and whose maximum limit is negative is kept; and a record with
    every key present and four positive numbers is dropped because its
    payment methods are [null]. *)
Lemma parse_offer_keeps_bad_limits_drops_null_methods :
  let E := Sample.env Sample.no_reply 50 in
  (exists adv low high,
     subscript Sample.ad_without_limits "adv" = Ok adv
     /\ Terms.numeric E adv "minSingleTransAmount" = Ok low
     /\ decimal_le_zero low = Ok true
     /\ Terms.numeric E adv "maxSingleTransAmount" = Ok high
     /\ decimal_le_zero high = Ok true
     /\ snd (Extractor._parse_offer E 0 Sample.ad_without_limits) <> None)
  /\ (exists adv advertiser,
        subscript Sample.ad_null_methods "adv" = Ok adv
        /\ subscript Sample.ad_null_methods "advertiser" = Ok advertiser
        /\ Forall (fun key => exists raw d,
                     subscript adv key = Ok raw
                     /\ Terms.numeric E adv key = Ok d
                     /\ decimal_le_zero d = Ok false)
                  Terms.numeric_keys
        /\ snd (Extractor._parse_offer E 0 Sample.ad_null_methods) = None).
Proof.
  split.
  - eexists _, _, _. repeat (split; [reflexivity |]). vm_compute. discriminate.
  - eexists _, _. repeat (split; [reflexivity |]). split.
    + repeat constructor; eexists _, _; repeat split; reflexivity.
    + reflexivity.
Qed.

(** ** The rate limiter inside the extractor *)

Section LimiterInExtractor.

Import RateLimiter Extractor.
Local Open Scope Q_scope.

(** [acquire] never changes the rate. *)
Lemma acquire_keeps_rate (s : TokenBucketRateLimiter) (now now_after : Q)
    (n : Z) :
  tokens_per_second (after (acquire now now_after n s)) = tokens_per_second s.
Proof.
  unfold acquire.
  repeat match goal with |- context [if ?b then _ else _] => destruct b end;
    reflexivity.
Qed.

Variable E : Env.

(** [rate_limiter.acquire()] touches the limiter and the clock
    only. *)
Lemma rate_limiter_acquire_world (w : World) :
  posted (fst (rate_limiter_acquire E w)) = posted w
  /\ uuids_drawn (fst (rate_limiter_acquire E w)) = uuids_drawn w.
Proof. split; reflexivity. Qed.

End LimiterInExtractor.

(** ** Pair discovery *)

Section Discovery.

Import RateLimiter Extractor DiscoveryTerms.

Variable E : Env.





(** Once the rate limiter has returned, what discovery returns is
    what its [try] block returns, an exception turned into the empty
    list. *)
Lemma get_all_trading_pairs_try (w : World) (wait : Q) :
  snd (rate_limiter_acquire E w) = Ok wait ->
  snd (get_all_trading_pairs E w)
  = try_except
      (d <- (response <- session_post E (posted w) PairsRequest ;;
             if (400 <=? status_code response)
                && (status_code response <? 600)
             then Raise (HTTPError (status_code response))
             else match json_body response with
                  | Some data => Ok data
                  | None => Raise JSONDecodeError
                  end) ;;
       pairs_of_response d)
      is_Exception (fun _ => Ok []).
Proof.
  intros Hwait. unfold get_all_trading_pairs.
  destruct (rate_limiter_acquire_world E w) as [Hposted _].
  destruct (rate_limiter_acquire E w) as [w1 r]. cbn [fst snd] in *.
  subst r. unfold post_json. rewrite Hposted. reflexivity.
Qed.

(** The call of the rate limiter stands before the [try]: what it
    raises, discovery raises. *)
Lemma get_all_trading_pairs_raises (w : World) (e : exn) :
  snd (rate_limiter_acquire E w) = Raise e ->
  snd (get_all_trading_pairs E w) = Raise e.
Proof.
  intros Hraise. unfold get_all_trading_pairs.
  destruct (rate_limiter_acquire E w) as [w1 r]. cbn [snd] in Hraise.
  subst r. reflexivity.
Qed.


(** C10, as the code has it. Discovery raises exactly when the rate
    limiter raises, whose call stands before the [try], and then with
    the limiter's exception. Once the limiter has returned nothing
    raises: a transport failure, an error status, a body that is not
    JSON and a body of another shape are all caught and give the empty
    list. On an empty list [extract_all_offers] returns the empty list
    without running any extraction; on an exception of discovery it
    raises that exception. *)
Theorem discovery_raises_only_with_limiter (w : World) :
  (forall e,
     snd (get_all_trading_pairs E w) = Raise e
     <-> snd (rate_limiter_acquire E w) = Raise e)
  /\ (forall wait,
        snd (rate_limiter_acquire E w) = Ok wait ->
        (exists pairs, snd (get_all_trading_pairs E w) = Ok pairs)
        /\ (forall e,
              session_post E (posted w) PairsRequest = Raise e ->
              snd (get_all_trading_pairs E w) = Ok [])
        /\ (forall response,
              session_post E (posted w) PairsRequest = Ok response ->
              (400 <=? status_code response) && (status_code response <? 600)
              = true ->
              snd (get_all_trading_pairs E w) = Ok [])
        /\ (forall response,
              session_post E (posted w) PairsRequest = Ok response ->
              json_body response = None ->
              snd (get_all_trading_pairs E w) = Ok [])
        /\ (forall data e,
              answers E w PairsRequest data ->
              pairs_of_response data = Raise e ->
              snd (get_all_trading_pairs E w) = Ok []))
  /\ (forall pool,
        snd (get_all_trading_pairs E w) = Ok [] ->
        snd (extract_all_offers E pool w) = Ok [])
  /\ (forall pool e,
        snd (get_all_trading_pairs E w) = Raise e ->
        snd (extract_all_offers E pool w) = Raise e).
Proof.
  assert (Hreturns : forall wait,
            snd (rate_limiter_acquire E w) = Ok wait ->
            exists pairs, snd (get_all_trading_pairs E w) = Ok pairs).
  { intros wait Hwait. rewrite (get_all_trading_pairs_try w wait Hwait).
    match goal with |- context [try_except ?r _ _] => destruct r end;
      cbn; eauto. }
  refine (conj _ (conj _ (conj _ _))).
  - intros e. split.
    + intros Hraise.
      destruct (snd (rate_limiter_acquire E w)) as [wait | e'] eqn:Hwait.
      * destruct (Hreturns wait eq_refl) as [pairs Hpairs]. congruence.
      * rewrite (get_all_trading_pairs_raises w e' Hwait) in Hraise.
        injection Hraise as ->. reflexivity.
    + apply get_all_trading_pairs_raises.
  - intros wait Hwait. split; [eapply Hreturns, Hwait |].
    rewrite (get_all_trading_pairs_try w wait Hwait). repeat split.
    + intros e ->. reflexivity.
    + intros response -> Hstatus. cbn [bind]. rewrite Hstatus. reflexivity.
    + intros response -> Hjson. cbn [bind]. rewrite Hjson.
      destruct ((400 <=? status_code response)
                && (status_code response <? 600)); reflexivity.
    + intros data e (response & -> & Hstatus & Hjson) Hshape. cbn [bind].
      rewrite Hstatus, Hjson. cbn [bind]. rewrite Hshape. reflexivity.
  - intros pool Hempty. unfold extract_all_offers.
    destruct (get_all_trading_pairs E w) as [w1 r]. cbn in Hempty. subst r.
    reflexivity.
  - intros pool e Hraise. unfold extract_all_offers.
    destruct (get_all_trading_pairs E w) as [w1 r]. cbn in Hraise. subst r.
    reflexivity.
Qed.

End Discovery.


(** With the discovery endpoint down and any pool, the whole job
    produces the empty list. *)
Lemma discovery_raises_only_with_limiter_witness :
  snd (Extractor.rate_limiter_acquire
         (Sample.env DiscoveryTerms.gateway_error 50) Sample.world)
  = Ok 0%Q
  /\ snd (Extractor.extract_all_offers
            (Sample.env DiscoveryTerms.gateway_error 50)
            DiscoveryTerms.idle_pool Sample.world)
     = Ok [].
Proof.
  split; [reflexivity |].
  destruct (discovery_raises_only_with_limiter
              (Sample.env DiscoveryTerms.gateway_error 50) Sample.world)
    as (_ & Hcaught & Hall & _).
  destruct (Hcaught 0%Q eq_refl) as (_ & _ & Hstatus & _).
  apply Hall. eapply Hstatus; reflexivity.
Defined.

(** The claim as stated fails where the limiter raises. Under
    settings with the rate 0 and the burst size 0 the bucket is empty
    and never refilled, the first [acquire] divides by zero, and
    discovery raises although the exchange would have answered; so
    does [extract_all_offers]. *)
Lemma discovery_raises_with_limiter :
  let E := Sample.env DiscoveryTerms.discovery_server 50 in
  snd (Extractor.get_all_trading_pairs E DiscoveryTerms.stalled_world)
  = Raise ZeroDivisionError
  /\ snd (Extractor.extract_all_offers E DiscoveryTerms.idle_pool
            DiscoveryTerms.stalled_world)
     = Raise ZeroDivisionError
  /\ ~ (exists pairs,
          snd (Extractor.get_all_trading_pairs E DiscoveryTerms.stalled_world)
          = Ok pairs).
Proof.
  assert (H : snd (Extractor.get_all_trading_pairs
                     (Sample.env DiscoveryTerms.discovery_server 50)
                     DiscoveryTerms.stalled_world)
              = Raise ZeroDivisionError) by (vm_compute; reflexivity).
  cbv zeta. split; [exact H |]. split; [vm_compute; reflexivity |].
  intros [pairs Hpairs]. rewrite H in Hpairs. discriminate.
Qed.

(** ** Pagination *)

Section Pagination.

Import RateLimiter Extractor PaginationTerms.

Variable E : Env.
Variables (fiat asset : pyval) (trade_type : string).

Lemma pages_from_unfold (page : Z) (all_offers : list pyval) (w : World) :
  pages_from E fiat asset trade_type page all_offers w
  = let (w1, waited) := rate_limiter_acquire E w in
    match waited with
    | Raise e => (w1, Raise e)
    | Ok _ =>
        let '(w2, all_offers', t) :=
          page_turn E fiat asset trade_type page all_offers w1 in
        match t with
        | Break => (w2, Ok all_offers')
        | NextPage =>
            if Z_gt_dec (page + 1) (max_pages_per_pair E)
            then (w2, Ok all_offers')
            else pages_from E fiat asset trade_type (page + 1) all_offers' w2
        end
    end.
Proof.
  simp pages_from.
  destruct (rate_limiter_acquire E w) as [w1 [wait | e]];
    cbn -[page_turn]; [| reflexivity].
  destruct (page_turn E fiat asset trade_type page all_offers w1)
    as [[w2 all_offers'] [|]]; cbn -[page_turn]; [reflexivity |].
  destruct (Z_gt_dec (page + 1) (max_pages_per_pair E)); reflexivity.
Qed.

(** One turn of the loop in terms of the reply read. *)
Lemma page_turn_read (page : Z) (all_offers : list pyval) (w : World) :
  let payload :=
    SearchRequest page (max_pages_per_pair E) trade_type asset fiat in
  page_turn E fiat asset trade_type page all_offers w
  = match read_page (session_post E (posted w) payload) with
    | FullPage ads =>
        ({| limiter := limiter w; clock_reads := clock_reads w;
            uuids_drawn := fst (parse_page E ads all_offers (uuids_drawn w));
            posted := payload :: posted w |},
         snd (parse_page E ads all_offers (uuids_drawn w)), NextPage)
    | _ =>
        ({| limiter := limiter w; clock_reads := clock_reads w;
            uuids_drawn := uuids_drawn w; posted := payload :: posted w |},
         all_offers, Break)
    end.
Proof.
  intros payload. unfold page_turn, post_json, read_page. fold payload.
  destruct (session_post E (posted w) payload) as [response | e]; cbn [bind];
    [| reflexivity].
  destruct ((400 <=? status_code response) && (status_code response <? 600));
    [reflexivity |].
  destruct (json_body response) as [data |]; [| reflexivity].
  destruct (get data "code" PNone) as [code |]; [| reflexivity].
  destruct (differs_from_str code "000000"); [reflexivity |].
  destruct (get data "data" (PList [])) as [offers |]; [| reflexivity].
  destruct (truthy offers); cbn [negb]; [| reflexivity].
  destruct (iterate offers) as [ads |]; [| reflexivity].
  cbn [uuids_drawn limiter clock_reads posted].
  destruct (parse_page E ads all_offers (uuids_drawn w)). reflexivity.
Qed.

Lemma parse_page_app (ads more all_offers : list pyval) (drawn : nat) :
  parse_page E (ads ++ more) all_offers drawn
  = parse_page E more (snd (parse_page E ads all_offers drawn))
                      (fst (parse_page E ads all_offers drawn)).
Proof.
  revert all_offers drawn.
  induction ads as [| ad ads IH]; intros all_offers drawn; cbn;
    [reflexivity |].
  destruct (_parse_offer E drawn ad) as [drawn' parsed]. apply IH.
Qed.

Lemma searches_S (first count : nat) :
  searches E fiat asset trade_type first (S count)
  = (searches E fiat asset trade_type (S first) count
     ++ [search E fiat asset trade_type first])%list.
Proof. reflexivity. Qed.

Lemma flat_map_seq_S {A} (f : nat -> list A) (start len : nat) :
  flat_map f (seq (S start) len) = flat_map (fun i => f (S i)) (seq start len).
Proof.
  revert start. induction len as [| len IH]; intros start; cbn;
    [reflexivity |].
  rewrite IH. reflexivity.
Qed.

(** The reply to a page does not depend on where the count starts. *)
Lemma reply_shift (w w2 : World) (p i : nat) :
  posted w2 = search E fiat asset trade_type p :: posted w ->
  reply E fiat asset trade_type w2 (S p) i
  = reply E fiat asset trade_type w p (S i).
Proof.
  intros Hsent. unfold reply. rewrite Hsent, searches_S, <- app_assoc.
  cbn [app]. replace (S p + i)%nat with (p + S i)%nat by lia. reflexivity.
Qed.

(** A record [_parse_offer] returns is a dict with entries, so the
    [if parsed_offer] of the loop keeps it. *)
Lemma parsed_is_truthy (drawn : nat) (ad offer : pyval) :
  snd (_parse_offer E drawn ad) = Some offer -> truthy offer = true.
Proof.
  intros H. apply parse_offer_some in H.
  destruct H as (adv & advertiser & nums & codes & _ & Hoffer).
  unfold parsed_offer in Hoffer.
  destruct (get advertiser "nickName" PNone); [| discriminate].
  destruct (get adv "asset" PNone); [| discriminate].
  destruct (get adv "fiatUnit" PNone); [| discriminate].
  destruct (get adv "tradeType" PNone); [| discriminate].
  cbn in Hoffer. injection Hoffer as <-. reflexivity.
Qed.

(** The [for ad in offers] loop appends the valid records of the
    page, in order, to what it was given; its counter of draws does
    not depend on what it was given. *)
Lemma parse_page_records (ads all_offers : list pyval) (drawn : nat) :
  parse_page E ads all_offers drawn
  = (fst (parse_page E ads [] drawn),
     (all_offers ++ valid_records E ads drawn)%list).
Proof.
  revert all_offers drawn.
  induction ads as [| ad ads IH]; intros all_offers drawn; cbn.
  { rewrite app_nil_r. reflexivity. }
  pose proof (parsed_is_truthy drawn ad) as Htruthy.
  destruct (_parse_offer E drawn ad) as [drawn' [offer |]]; cbn [snd] in *.
  - rewrite (Htruthy offer eq_refl).
    rewrite (IH (all_offers ++ [offer])%list), (IH [offer]).
    cbn [fst snd app]. rewrite <- app_assoc. reflexivity.
  - apply IH.
Qed.

Lemma valid_records_app (ads more : list pyval) (drawn : nat) :
  valid_records E (ads ++ more) drawn
  = (valid_records E ads drawn
     ++ valid_records E more (fst (parse_page E ads [] drawn)))%list.
Proof.
  revert drawn. induction ads as [| ad ads IH]; intros drawn; cbn;
    [reflexivity |].
  pose proof (parsed_is_truthy drawn ad) as Htruthy.
  destruct (_parse_offer E drawn ad) as [drawn' [offer |]]; cbn [snd] in *.
  - rewrite (Htruthy offer eq_refl), IH.
    rewrite (parse_page_records ads [offer]). reflexivity.
  - apply IH.
Qed.

(** The rate limiter looks at the limiter and the clock only. *)
Lemma rate_limiter_acquire_congr (w w' : World) :
  limiter w = limiter w' -> clock_reads w = clock_reads w' ->
  snd (rate_limiter_acquire E w) = snd (rate_limiter_acquire E w')
  /\ limiter (fst (rate_limiter_acquire E w))
     = limiter (fst (rate_limiter_acquire E w'))
  /\ clock_reads (fst (rate_limiter_acquire E w))
     = clock_reads (fst (rate_limiter_acquire E w')).
Proof.
  intros Hlimiter Hclock. unfold rate_limiter_acquire. cbn [fst snd limiter
    clock_reads]. rewrite Hlimiter, Hclock. repeat split.
Qed.

Lemma acquire_at_congr (i : nat) :
  forall w w' : World,
    limiter w = limiter w' -> clock_reads w = clock_reads w' ->
    acquire_at E w i = acquire_at E w' i.
Proof.
  unfold acquire_at. induction i as [| i IH]; intros w w' Hlimiter Hclock;
    cbn [after_acquires].
  - apply rate_limiter_acquire_congr; assumption.
  - destruct (rate_limiter_acquire_congr w w' Hlimiter Hclock)
      as (_ & Hl & Hc).
    apply IH; assumption.
Qed.

(** The run of the loop from page [p] on, with [n] pages left under
    the cap after this one: it makes [k] calls of the rate limiter. *)
Lemma pages_from_run (n : nat) :
  forall (p : nat) (all_offers : list pyval) (w : World),
    Z.of_nat p + Z.of_nat n = Z.max (max_pages_per_pair E) (Z.of_nat p) ->
    exists k : nat,
      (1 <= k <= S n)%nat
      /\ (forall i, (S i < k)%nat ->
            (exists wait, acquire_at E w i = Ok wait)
            /\ exists ads, reply E fiat asset trade_type w p i = FullPage ads)
      /\ ((exists e,
             acquire_at E w (k - 1) = Raise e
             /\ snd (pages_from E fiat asset trade_type (Z.of_nat p)
                       all_offers w) = Raise e
             /\ posted (fst (pages_from E fiat asset trade_type (Z.of_nat p)
                               all_offers w))
                = (searches E fiat asset trade_type p (k - 1) ++ posted w)%list)
          \/ ((exists wait, acquire_at E w (k - 1) = Ok wait)
              /\ posted (fst (pages_from E fiat asset trade_type (Z.of_nat p)
                                all_offers w))
                 = (searches E fiat asset trade_type p k ++ posted w)%list
              /\ snd (pages_from E fiat asset trade_type (Z.of_nat p)
                        all_offers w)
                 = Ok (all_offers
                       ++ valid_records E
                            (flat_map
                               (fun i =>
                                  ads_of (reply E fiat asset trade_type w p i))
                               (seq 0 k))
                            (uuids_drawn w))%list
              /\ ((k < S n)%nat ->
                  forall ads,
                    reply E fiat asset trade_type w p (k - 1)
                    <> FullPage ads))).
Proof.
  induction n as [| n IH]; intros p all_offers w Hcap;
    rewrite pages_from_unfold;
    destruct (rate_limiter_acquire_world E w) as [Hposted Hdrawn];
    assert (Hfirst_acquire : acquire_at E w 0 = snd (rate_limiter_acquire E w))
      by reflexivity;
    destruct (rate_limiter_acquire E w) as [w1 [wait | e]] eqn:Hacquire;
    cbn [fst snd] in Hposted, Hdrawn, Hfirst_acquire.
  2, 4:
    (exists 1%nat; split; [lia |]; split; [intros i Hi; lia |];
     left; exists e; cbn [Nat.sub fst snd]; rewrite Hposted;
     repeat split; exact Hfirst_acquire).
  all: rewrite page_turn_read;
    assert (Hreply : read_page
                       (session_post E (posted w1)
                          (SearchRequest (Z.of_nat p) (max_pages_per_pair E)
                             trade_type asset fiat))
                     = reply E fiat asset trade_type w p 0)
      by (unfold reply; rewrite Hposted, Nat.add_0_r; reflexivity);
    rewrite Hreply, Hposted, Hdrawn;
    destruct (reply E fiat asset trade_type w p 0) as [ads | | |] eqn:Hfirst.
  2-4, 6-8:
    (exists 1%nat; split; [lia |]; split; [intros i Hi; lia |];
     right; cbn [Nat.sub fst snd seq flat_map]; rewrite Hfirst;
     cbn [ads_of app valid_records]; rewrite app_nil_r;
     refine (conj (ex_intro _ wait Hfirst_acquire)
               (conj eq_refl (conj eq_refl _)));
     intros _ ads; discriminate).
  - (* the cap is reached with this page *)
    destruct (Z_gt_dec (Z.of_nat p + 1) (max_pages_per_pair E)) as [_ | Hle];
      [| lia].
    exists 1%nat. split; [lia |]. split; [intros i Hi; lia |].
    right. cbn [Nat.sub fst snd seq flat_map]. rewrite Hfirst.
    cbn [ads_of]. rewrite !app_nil_r, parse_page_records. cbn [snd].
    refine (conj (ex_intro _ wait Hfirst_acquire)
              (conj eq_refl (conj eq_refl _))).
    lia.
  - destruct (Z_gt_dec (Z.of_nat p + 1) (max_pages_per_pair E)) as [Hgt | Hle].
    + exists 1%nat. split; [lia |]. split; [intros i Hi; lia |].
      right. cbn [Nat.sub fst snd seq flat_map]. rewrite Hfirst.
      cbn [ads_of]. rewrite !app_nil_r, parse_page_records. cbn [snd].
      refine (conj (ex_intro _ wait Hfirst_acquire)
                (conj eq_refl (conj eq_refl _))).
      lia.
    + set (w2 := {| limiter := limiter w1; clock_reads := clock_reads w1;
                    uuids_drawn :=
                      fst (parse_page E ads all_offers (uuids_drawn w));
                    posted := SearchRequest (Z.of_nat p) (max_pages_per_pair E)
                                trade_type asset fiat :: posted w |}).
      assert (Hposted2 : posted w2
                         = search E fiat asset trade_type p :: posted w)
        by reflexivity.
      assert (Hshift : forall i, acquire_at E w (S i) = acquire_at E w2 i).
      { intros i. unfold acquire_at at 1. cbn [after_acquires].
        rewrite Hacquire. cbn [fst].
        apply (acquire_at_congr i w1 w2); reflexivity. }
      destruct (IH (S p) (snd (parse_page E ads all_offers (uuids_drawn w))) w2)
        as (k & Hk & Hfull & Hend); [lia |].
      replace (Z.of_nat p + 1) with (Z.of_nat (S p)) by lia.
      exists (S k). split; [lia |]. split.
      * intros [| i] Hi.
        -- split; [exists wait; exact Hfirst_acquire | eauto].
        -- rewrite Hshift, <- (reply_shift w w2 p i Hposted2).
           apply Hfull. lia.
      * replace (S k - 1)%nat with (S (k - 1)) by lia.
        rewrite Hshift, <- (reply_shift w w2 p (k - 1) Hposted2).
        destruct Hend as [(e & He & Hraise & Hsent)
                         | (Hwait & Hsent & Hrun & Hstop)].
        -- left. exists e. split; [exact He |]. split; [exact Hraise |].
           rewrite Hsent, Hposted2.
           replace (S (k - 1)) with k by lia.
           destruct k as [| k']; [lia |].
           replace (S k' - 1)%nat with k' by lia.
           rewrite searches_S, <- app_assoc. reflexivity.
        -- right. split; [exact Hwait |]. split.
           { rewrite Hsent, Hposted2, searches_S, <- app_assoc.
             reflexivity. }
           split; [| intros Hlt; apply Hstop; lia].
           rewrite Hrun. f_equal.
           cbn [seq flat_map]. rewrite Hfirst. cbn [ads_of].
           rewrite valid_records_app, flat_map_seq_S.
           rewrite (parse_page_records ads all_offers). cbn [fst snd uuids_drawn w2].
           rewrite <- app_assoc. f_equal. f_equal.
           f_equal;
             [ apply flat_map_ext; intros i;
               rewrite (reply_shift w w2 p i Hposted2); reflexivity
             | cbn [uuids_drawn w2];
               rewrite (parse_page_records ads all_offers); reflexivity ].
Qed.

(** C6, as the code has it. [extract_pair_offers] calls the rate
    limiter and then [session.post] for the pages 1, 2, ... in order.
    It makes [k] calls of the limiter, [k] at least 1 and at most the
    larger of 1 and [max_pages_per_pair], since the first page is
    asked for before the cap is looked at. Every page before the last
    turn was a full page. If the limiter raises on the last turn, its
    call standing outside the [try], the call raises that exception
    and returns no list, with one page less asked for than turns.
    Otherwise [k] pages were asked for and the call returns the valid
    records of the full pages, in order: below the cap the last page
    was not a full one, so the first empty page, the first failure
    code and the first failed exchange each end the pagination, a
    failure code with the records of the earlier pages. *)
Theorem extract_pair_paginates (w : World) :
  let run := extract_pair_offers E fiat asset trade_type w in
  let cap := Z.to_nat (Z.max 1 (max_pages_per_pair E)) in
  exists k : nat,
    (1 <= k <= cap)%nat
    /\ (forall i, (S i < k)%nat ->
          (exists wait, acquire_at E w i = Ok wait)
          /\ exists ads, reply E fiat asset trade_type w 1 i = FullPage ads)
    /\ ((exists e,
           acquire_at E w (k - 1) = Raise e
           /\ snd run = Raise e
           /\ posted (fst run)
              = (searches E fiat asset trade_type 1 (k - 1) ++ posted w)%list)
        \/ ((exists wait, acquire_at E w (k - 1) = Ok wait)
            /\ posted (fst run)
               = (searches E fiat asset trade_type 1 k ++ posted w)%list
            /\ snd run
               = Ok (valid_records E
                       (flat_map
                          (fun i =>
                             ads_of (reply E fiat asset trade_type w 1 i))
                          (seq 0 k))
                       (uuids_drawn w))
            /\ (forall i, (i < k)%nat ->
                  (forall ads,
                     reply E fiat asset trade_type w 1 i <> FullPage ads) ->
                  k = S i)
            /\ ((k < cap)%nat ->
                forall ads,
                  reply E fiat asset trade_type w 1 (k - 1) <> FullPage ads))).
Proof.
  cbv zeta. unfold extract_pair_offers.
  destruct (pages_from_run
              (Z.to_nat (Z.max 1 (max_pages_per_pair E)) - 1) 1 [] w)
    as (k & Hk & Hfull & Hend); [lia |].
  change (Z.of_nat 1) with 1 in Hend.
  exists k. split; [lia |]. split; [exact Hfull |].
  destruct Hend as [Hraise | (Hwait & Hsent & Hrun & Hstop)];
    [left; exact Hraise | right].
  refine (conj Hwait (conj Hsent (conj Hrun (conj _ _)))).
  - intros i Hi Hnot. destruct (Nat.eq_dec k (S i)) as [| Hne]; [assumption |].
    destruct (Hfull i) as [_ [ads Hads]]; [lia |]. destruct (Hnot ads Hads).
  - intros Hlt. apply Hstop. lia.
Qed.

End Pagination.

(** The run against the server with two full pages: three turns,
    three pages asked for, the records of the two full pages
    returned. *)
Lemma extract_pair_paginates_witness :
  let E := Sample.env PaginationTerms.two_pages 50 in
  let run :=
    Extractor.extract_pair_offers E (PStr "VES") (PStr "USDT") "BUY"
      Sample.world in
  exists k : nat,
    (1 <= k <= 50)%nat
    /\ ((exists e, snd run = Raise e)
        \/ snd run
           = Ok (PaginationTerms.valid_records E
                   (flat_map
                      (fun i =>
                         PaginationTerms.ads_of
                           (PaginationTerms.reply E (PStr "VES") (PStr "USDT")
                              "BUY" Sample.world 1 i))
                      (seq 0 k))
                   0)).
Proof.
  intros E run.
  destruct (extract_pair_paginates E (PStr "VES") (PStr "USDT") "BUY"
              Sample.world) as (k & Hk & _ & Hend).
  exists k. split; [exact Hk |].
  destruct Hend as [(e & _ & Hraise & _) | (_ & _ & Hrun & _)];
    [left; exists e; exact Hraise | right; exact Hrun].
Defined.

(** The claim as stated fails twice. A cap of zero still lets the
    first page request out, one more than the cap allows; and under
    settings with the rate 0 and the burst size 0 the first call of
    the rate limiter raises, and so does [extract_pair_offers], past
    its own call boundary. *)
Lemma extract_pair_overruns_cap_and_raises :
  let capped := Sample.env PaginationTerms.two_pages 0 in
  let served := Sample.env PaginationTerms.two_pages 50 in
  (Z.of_nat
     (length
        (Extractor.posted
           (fst (Extractor.extract_pair_offers capped (PStr "VES")
                   (PStr "USDT") "BUY" Sample.world))))
   > Extractor.max_pages_per_pair capped)
  /\ snd (Extractor.extract_pair_offers served (PStr "VES") (PStr "USDT")
            "BUY" DiscoveryTerms.stalled_world)
     = Raise ZeroDivisionError.
Proof. vm_compute. split; reflexivity. Qed.

(** Against that server [session.post] is called three times, for the pages 1, 2
    and 3, and the two records of the full pages are returned. *)
Example two_full_pages_then_stop :
  let E := Sample.env PaginationTerms.two_pages 50 in
  let run :=
    Extractor.extract_pair_offers E (PStr "VES") (PStr "USDT") "BUY"
      Sample.world in
  Extractor.posted (fst run)
  = PaginationTerms.searches E (PStr "VES") (PStr "USDT") "BUY" 1 3
  /\ option_map (@length pyval)
       (match snd run with Ok offers => Some offers | Raise _ => None end)
     = Some 2%nat.
Proof. vm_compute. split; reflexivity. Qed.

(** Under a cap of two pages there is no third call. *)
Example cap_ends_pagination :
  let E := Sample.env PaginationTerms.two_pages 2 in
  Extractor.posted
    (fst (Extractor.extract_pair_offers E (PStr "VES") (PStr "USDT") "BUY"
            Sample.world))
  = PaginationTerms.searches E (PStr "VES") (PStr "USDT") "BUY" 1 2.
Proof. vm_compute. reflexivity. Qed.

(** The loop body runs before the cap is looked at: a cap of zero
    still lets the first request out. *)
Example first_request_precedes_cap :
  let E := Sample.env PaginationTerms.two_pages 0 in
  Extractor.posted
    (fst (Extractor.extract_pair_offers E (PStr "VES") (PStr "USDT") "BUY"
            Sample.world))
  = PaginationTerms.searches E (PStr "VES") (PStr "USDT") "BUY" 1 1.
Proof. vm_compute. reflexivity. Qed.

(** ** Collection of the pairs' results *)

Section Collection.

Import Extractor CollectionTerms.

Lemma collect_flat_map (completed : list (Pair * result (list pyval)))
    (all_offers : list pyval) :
  collect completed all_offers
  = (all_offers ++ flat_map contribution completed)%list.
Proof.
  revert all_offers.
  induction completed as [| [p [offers | e]] completed IH];
    intros all_offers; cbn.
  - rewrite app_nil_r. reflexivity.
  - rewrite IH, <- app_assoc. reflexivity.
  - apply IH.
Qed.


Variable E : Env.
Variable pool : Pool.


End Collection.

(** The pool of one worker completes every pair once, in the order
    submitted. *)
Lemma sequential_pool_joins (E : Extractor.Env) :
  CollectionTerms.joins (Extractor.sequential_pool E).
Proof.
  intros w pairs. revert w.
  induction pairs as [| p pairs IH]; intros w; cbn; [constructor |].
  destruct (Extractor.extract_pair_offers E (Extractor.fiat p)
              (Extractor.asset p) (Extractor.trade_type p) w) as [w1 r].
  specialize (IH w1).
  destruct (Extractor.sequential_pool E w1 pairs) as [w2 more].
  cbn in *. constructor. exact IH.
Qed.



(** The scenario of the specification: pair A fails, pairs B and C
    return 5 and 7 offers, and exactly 12 offers are collected. *)
Example one_failure_twelve_offers :
  length (Extractor.collect CollectionTerms.scenario []) = 12%nat.
Proof. reflexivity. Qed.

(** ** The transaction around a batch *)

Section Transaction.

Import Loader LoaderTerms.

Variable store : Storage.

(** C4. [load_offers] does nothing on an empty list: no session is
    opened, loader and database are as before. On a non-empty list the
    call returns exactly when both phases and the flush of the commit
    succeed, and then the rows the session saw are the committed ones,
    committed once, and the session is closed. An exception of the
    dimension or fact phase, or of the commit, is raised again to the
    caller; whenever the call raises, the committed rows are those of
    before and the session was rolled back and closed. *)
Theorem load_offers_atomic (offers : list pyval) (batch_id : string)
    (L : DataLoader) (db : Database) :
  let '(L', db', r) := load_offers store offers batch_id L db in
  let '(st1, body) :=
    load_offers_body store offers batch_id (session_begin L db) in
  (offers = [] -> L' = L /\ db' = db /\ r = Ok tt)
  /\ (offers <> [] ->
      (forall e, body = Raise e -> r = Raise e)
      /\ (body = Ok tt ->
          forall e, snd (session_flush store st1) = Raise e -> r = Raise e)
      /\ (body = Ok tt -> snd (session_flush store st1) = Ok tt ->
          r = Ok tt)
      /\ (forall e, r = Raise e ->
            committed db' = committed db
            /\ events db'
               = (events db ++ [SessionOpened; RolledBack; SessionClosed])%list)
      /\ (r = Ok tt ->
            body = Ok tt
            /\ snd (session_flush store st1) = Ok tt
            /\ committed db' = rows (fst (session_flush store st1))
            /\ events db'
               = (events db ++ [SessionOpened; Committed; SessionClosed])%list)).
Proof.
  unfold load_offers, get_session.
  destruct offers as [| offer rest].
  - destruct (load_offers_body store [] batch_id (session_begin L db)).
    split; [auto | intros H; destruct (H eq_refl)].
  - destruct (load_offers_body store (offer :: rest) batch_id
                (session_begin L db)) as [st1 [[] | e]].
    + destruct (session_flush store st1) as [st2 [[] | e]] eqn:Hflush.
      * split; [discriminate | intros _]. cbn [fst snd].
        refine (conj _ (conj _ (conj _ (conj _ _))));
          try discriminate; auto.
      * split; [discriminate | intros _]. cbn [fst snd].
        refine (conj _ (conj _ (conj _ (conj _ _))));
          try discriminate.
        -- intros _ e' [= ->]. reflexivity.
        -- intros e' _. cbn. auto.
    + split; [discriminate | intros _].
      refine (conj _ (conj _ (conj _ (conj _ _)))); try discriminate.
      * intros e' [= ->]. reflexivity.
      * intros e' _. cbn. auto.
Qed.

(** An offer that lacks the [advertiser] key stops the dimension
    phase, whatever the lookups before it do. *)
Lemma resolve_offer_needs_advertiser (offer : pyval) (e0 : exn) (st : State) :
  subscript offer "advertiser" = Raise e0 ->
  exists e, snd (resolve_offer store offer st) = Raise e.
Proof.
  intros Hmissing. unfold resolve_offer, mbind, lift.
  destruct (subscript offer "asset") as [asset | e]; [| eauto].
  destruct (_get_or_create_crypto store asset st) as [st1 [crypto_id | e]];
    [| eauto].
  destruct (subscript offer "fiat") as [fiat | e]; [| eauto].
  destruct (_get_or_create_fiat store fiat st1) as [st2 [fiat_id | e]];
    [| eauto].
  rewrite Hmissing. eauto.
Qed.

Lemma load_offers_body_needs_advertiser (offer : pyval) (rest : list pyval)
    (batch_id : string) (e0 : exn) (st : State) :
  subscript offer "advertiser" = Raise e0 ->
  exists e, snd (load_offers_body store (offer :: rest) batch_id st) = Raise e.
Proof.
  intros Hmissing. unfold load_offers_body. cbn [_load_dimensions].
  unfold mbind at 1 2.
  destruct (resolve_offer_needs_advertiser offer e0 st Hmissing) as [e He].
  destruct (resolve_offer store offer st) as [st1 r]. cbn in He. subst r.
  eauto.
Qed.

End Transaction.

Section ParsedOffersInLoader.

Import Loader LoaderTerms.

Variable store : Storage.
Variable E : Extractor.Env.

(** What [_parse_offer] returns has no [advertiser] key. *)
Lemma parsed_offer_has_no_advertiser (drawn : nat) (ad offer : pyval) :
  snd (Extractor._parse_offer E drawn ad) = Some offer ->
  subscript offer "advertiser" = Raise (KeyError "advertiser").
Proof.
  intros H. apply parse_offer_some in H.
  destruct H as (adv & advertiser & nums & codes & _ & Hoffer).
  unfold Extractor.parsed_offer in Hoffer.
  destruct (get advertiser "nickName" PNone); [| discriminate].
  destruct (get adv "asset" PNone); [| discriminate].
  destruct (get adv "fiatUnit" PNone); [| discriminate].
  destruct (get adv "tradeType" PNone); [| discriminate].
  cbn in Hoffer. injection Hoffer as <-. reflexivity.
Qed.

(** C2, on the code. A batch that starts with an offer as
    [_parse_offer] returns it makes [load_offers] raise: the loader
    reads the key [advertiser], which the extractor never writes. No
    fact is stored: the committed rows are those of before. *)
Theorem load_offers_raises_on_parsed_offers (drawn : nat)
    (ad offer : pyval) (rest : list pyval) (batch_id : string)
    (L : DataLoader) (db : Database) :
  snd (Extractor._parse_offer E drawn ad) = Some offer ->
  exists e,
    snd (load_offers store (offer :: rest) batch_id L db) = Raise e
    /\ committed (snd (fst (load_offers store (offer :: rest) batch_id L db)))
       = committed db.
Proof.
  intros Hparsed. apply parsed_offer_has_no_advertiser in Hparsed.
  destruct (load_offers_body_needs_advertiser store offer rest batch_id _
              (session_begin L db) Hparsed) as [e He].
  exists e. unfold load_offers, get_session.
  destruct (load_offers_body store (offer :: rest) batch_id
              (session_begin L db)) as [st1 r].
  cbn in He. subst r. split; reflexivity.
Qed.

End ParsedOffersInLoader.

(** The offer parsed from the sample record, loaded into an empty
    warehouse that accepts every row: [KeyError: 'advertiser'], a
    rollback and no row. *)
Lemma load_offers_raises_on_parsed_offers_witness :
  snd (Extractor._parse_offer (Sample.env Sample.no_reply 50) 0 Sample.ad)
  = Some LoaderTerms.parsed_offer
  /\ exists e,
       snd (Loader.load_offers LoaderTerms.accept_all
              [LoaderTerms.parsed_offer] "batch-1" Loader.new_loader
              LoaderTerms.empty_db)
       = Raise e.
Proof.
  split; [reflexivity |].
  destruct (load_offers_raises_on_parsed_offers LoaderTerms.accept_all
              (Sample.env Sample.no_reply 50) 0 Sample.ad
              LoaderTerms.parsed_offer [] "batch-1" Loader.new_loader
              LoaderTerms.empty_db eq_refl) as (e & He & _).
  exists e. exact He.
Defined.

Example parsed_offer_key_error :
  let run :=
    Loader.load_offers LoaderTerms.accept_all [LoaderTerms.parsed_offer]
      "batch-1" Loader.new_loader LoaderTerms.empty_db in
  snd run = Raise (KeyError "advertiser")
  /\ Loader.committed (snd (fst run)) = []
  /\ Loader.events (snd (fst run))
     = [Loader.SessionOpened; Loader.RolledBack; Loader.SessionClosed].
Proof. vm_compute. repeat split. Qed.

(** Offers that carry the keys the loader reads are loaded: two
    offers give two facts and three bridge rows, all under the one
    batch id and the one timestamp. *)
Example two_offers_loaded :
  let run :=
    Loader.load_offers LoaderTerms.accept_all
      [ LoaderTerms.offer "o1" "VES" "USDT" "adv1" ["Banesco"; "Pago"];
        LoaderTerms.offer "o2" "VES" "BTC" "adv1" ["Banesco"] ]
      "batch-1" Loader.new_loader LoaderTerms.empty_db in
  let stored := Loader.committed (snd (fst run)) in
  snd run = Ok tt
  /\ length (LoaderTerms.facts stored) = 2%nat
  /\ map snd (LoaderTerms.bridges stored)
     = [ Loader.FactOfferPaymentMethods 1 1700000001 1;
         Loader.FactOfferPaymentMethods 1 1700000001 2;
         Loader.FactOfferPaymentMethods 2 1700000001 1 ].
Proof. vm_compute. repeat split. Qed.

(** ** Flushes *)

Section Flush.

Import Loader LoaderTerms InvariantTerms.

Variable store : Storage.

(** A flush appends rows to the visible ones: the objects of a prefix
    of the pending list, all of it when the flush succeeds. *)
Lemma insert_all_appends (new : list Row) :
  forall (visible : list Stored) (sq : Sequences),
  exists inserted rest,
    fst (fst (insert_all store new visible sq)) = (visible ++ inserted)%list
    /\ new = (map snd inserted ++ rest)%list
    /\ (snd (insert_all store new visible sq) = Ok tt -> rest = []).
Proof.
  induction new as [| r new IH]; intros visible sq; cbn.
  - exists [], []. rewrite app_nil_r. auto.
  - destruct (accepts store visible (sq (table_of r)) r).
    + destruct (IH (visible ++ [(sq (table_of r), r)])%list
                  (nextval (table_of r) sq))
        as (inserted & rest & Hrows & Hnew & Hok).
      exists ((sq (table_of r), r) :: inserted), rest.
      rewrite Hrows, <- app_assoc. cbn. rewrite <- Hnew. auto.
    + exists [], (r :: new). cbn. rewrite app_nil_r.
      split; [reflexivity |]. split; [reflexivity | discriminate].
Qed.

Lemma session_flush_appends (st : State) :
  exists inserted rest,
    rows (fst (session_flush store st)) = (rows st ++ inserted)%list
    /\ pending st = (map snd inserted ++ rest)%list
    /\ (snd (session_flush store st) = Ok tt -> rest = [])
    /\ pending (fst (session_flush store st)) = []
    /\ loader (fst (session_flush store st)) = loader st.
Proof.
  unfold session_flush.
  destruct (insert_all_appends (pending st) (rows st) (seq st))
    as (inserted & rest & Hrows & Hnew & Hok).
  destruct (insert_all store (pending st) (rows st) (seq st))
    as [[visible sq] r].
  exists inserted, rest. cbn in *. auto.
Qed.

(** [add_and_flush] appends objects of the pending list and, when it
    returns, the new object last, under the key returned. *)
Lemma add_and_flush_appends (r : Row) (st : State) :
  exists inserted rest,
    rows (fst (add_and_flush store r st)) = (rows st ++ inserted)%list
    /\ (pending st ++ [r] = map snd inserted ++ rest)%list
    /\ (forall id, snd (add_and_flush store r st) = Ok id ->
          exists earlier,
            inserted = (earlier ++ [(id, r)])%list
            /\ map snd earlier = pending st)
    /\ pending (fst (add_and_flush store r st)) = []
    /\ loader (fst (add_and_flush store r st)) = loader st
    /\ clock (fst (add_and_flush store r st)) = clock st.
Proof.
  unfold add_and_flush.
  destruct (insert_all_appends (pending st) (rows st) (seq st))
    as (inserted & rest & Hrows & Hnew & Hok).
  destruct (insert_all store (pending st) (rows st) (seq st))
    as [[visible sq] [[] | e]]; cbn in Hrows, Hok |- *.
  - rewrite (Hok eq_refl), app_nil_r in Hnew. subst visible.
    destruct (accepts store (rows st ++ inserted)%list (sq (table_of r)) r);
      cbn.
    + exists (inserted ++ [(sq (table_of r), r)])%list, [].
      rewrite <- app_assoc, map_app, app_nil_r, Hnew. cbn.
      repeat split. intros id [= <-]. exists inserted. auto.
    + exists inserted, [r]. rewrite Hnew. repeat split. discriminate.
  - exists inserted, (rest ++ [r])%list.
    rewrite Hnew, <- app_assoc. subst visible. repeat split. discriminate.
Qed.

(** Rows that a filter drops leave the filtered table as it was. *)
Lemma filter_app_dropped {A} (keep : A -> bool) (l extra : list A) :
  Forall (fun x => keep x = false) extra ->
  List.filter keep (l ++ extra) = List.filter keep l.
Proof.
  intros Hdrop. rewrite List.filter_app.
  replace (List.filter keep extra) with (@nil A); [apply app_nil_r |].
  induction Hdrop as [| x extra Hx _ IH]; cbn; [reflexivity |].
  rewrite Hx. exact IH.
Qed.

End Flush.

(** ** Invariants of a session *)

Section Composites.

Import Loader LoaderTerms InvariantTerms.

Variable store : Storage.
Variable I : State -> Prop.

Lemma preserves_ret {A} (a : A) : preserves I (ret a).
Proof. intros st H. exact H. Qed.

Lemma preserves_lift {A} (r : result A) : preserves I (lift r).
Proof. intros st H. exact H. Qed.

Lemma preserves_mbind {A B} (m : M A) (k : A -> M B) :
  preserves I m -> (forall a, preserves I (k a)) -> preserves I (mbind m k).
Proof.
  intros Hm Hk st H. unfold mbind. specialize (Hm st H).
  destruct (m st) as [st' [a | e]]; cbn in Hm |- *; [| exact Hm].
  apply Hk, Hm.
Qed.

Lemma preserves_mbind_lift {A B} (r : result A) (k : A -> M B) :
  (forall a, r = Ok a -> preserves I (k a)) -> preserves I (mbind (lift r) k).
Proof.
  intros Hk st H. unfold mbind, lift. destruct r as [a | e]; [| exact H].
  apply (Hk a eq_refl), H.
Qed.

Hypothesis keeps_crypto :
  forall symbol, preserves I (_get_or_create_crypto store symbol).
Hypothesis keeps_fiat :
  forall code, preserves I (_get_or_create_fiat store code).
Hypothesis keeps_payment_method :
  forall code name, preserves I (_get_or_create_payment_method store code name).
Hypothesis keeps_advertiser :
  forall adv_id nickname,
    preserves I (_get_or_create_advertiser store adv_id nickname).

Ltac chain :=
  repeat lazymatch goal with
    | |- preserves _ (ret _) => apply preserves_ret
    | |- preserves _ (lift _) => apply preserves_lift
    | |- preserves _ (mbind _ _) => apply preserves_mbind; [| intros ?]
    | |- preserves _ (_get_or_create_crypto _ _) => apply keeps_crypto
    | |- preserves _ (_get_or_create_fiat _ _) => apply keeps_fiat
    | |- preserves _ (_get_or_create_payment_method _ _ _) =>
        apply keeps_payment_method
    | |- preserves _ (_get_or_create_advertiser _ _ _) =>
        apply keeps_advertiser
    end.

Lemma resolve_offer_preserves (offer : pyval) :
  preserves I (resolve_offer store offer).
Proof. unfold resolve_offer. chain. Qed.

Lemma load_payment_methods_preserves (pms : list pyval) :
  preserves I (load_payment_methods store pms).
Proof.
  induction pms as [| pm pms IH]; cbn [load_payment_methods]; chain.
  exact IH.
Qed.

Lemma load_dimensions_preserves (offers : list pyval) :
  preserves I (_load_dimensions store offers).
Proof.
  induction offers as [| offer offers IH]; cbn [_load_dimensions]; chain.
  - apply resolve_offer_preserves.
  - apply load_payment_methods_preserves.
  - exact IH.
Qed.

Hypothesis keeps_bridge :
  forall offer_id ts pm_id,
    preserves I (session_add (FactOfferPaymentMethods offer_id ts pm_id)).

Lemma add_bridge_rows_preserves (offer_id ts : Z) (pms : list pyval) :
  preserves I (add_bridge_rows store offer_id ts pms).
Proof.
  induction pms as [| pm pms IH]; cbn [add_bridge_rows]; chain.
  - apply keeps_bridge.
  - exact IH.
Qed.

Hypothesis keeps_fact :
  forall fact, is_fact fact = true -> preserves I (add_and_flush store fact).
Hypothesis keeps_clock : preserves I (datetime_utcnow store).
Hypothesis keeps_total :
  forall n, preserves I (with_loader (add_processed n)).

Lemma fact_of_offer_is_fact (offer : pyval) (batch_id : string)
    (ts crypto_id fiat_id advertiser_sk : Z) (fact : Row) :
  fact_of_offer offer batch_id ts crypto_id fiat_id advertiser_sk = Ok fact ->
  is_fact fact = true.
Proof.
  unfold fact_of_offer. intros H.
  repeat match type of H with
         | bind ?r _ = _ => destruct r; cbn [bind] in H; [| discriminate]
         end.
  injection H as <-. reflexivity.
Qed.

Lemma load_fact_preserves (batch_id : string) (ts : Z) (offer : pyval) :
  preserves I (load_fact store batch_id ts offer).
Proof.
  unfold load_fact. apply preserves_mbind;
    [apply resolve_offer_preserves | intros [[crypto_id fiat_id] advertiser_sk]].
  apply preserves_mbind_lift. intros fact Hfact. chain.
  - apply keeps_fact. eapply fact_of_offer_is_fact, Hfact.
  - apply add_bridge_rows_preserves.
Qed.

Lemma load_facts_from_preserves (batch_id : string) (ts : Z)
    (offers : list pyval) :
  preserves I (load_facts_from store batch_id ts offers).
Proof.
  induction offers as [| offer offers IH]; cbn [load_facts_from]; chain.
  - apply load_fact_preserves.
  - exact IH.
Qed.

Lemma load_offers_body_preserves (offers : list pyval) (batch_id : string) :
  preserves I (load_offers_body store offers batch_id).
Proof.
  unfold load_offers_body, _load_facts. chain.
  - apply load_dimensions_preserves.
  - apply keeps_clock.
  - apply load_facts_from_preserves.
  - apply keeps_total.
Qed.

End Composites.

(** ** The advertiser dimension *)

Section AdvertiserDimension.

Import Loader LoaderTerms InvariantTerms.

Variable store : Storage.

Lemma current_rows_app (k : string) (a b : list Stored) :
  current_rows k (a ++ b) = (current_rows k a ++ current_rows k b)%list.
Proof. apply List.filter_app. Qed.

Lemma current_rows_quiet (k : string) (inserted : list Stored) :
  Forall (fun r => is_advertiser r = false) (map snd inserted) ->
  current_rows k inserted = [].
Proof.
  induction inserted as [| [id r] inserted IH]; cbn; [reflexivity |].
  intros H. inversion H as [| ? ? Hr Hrest]; subst. cbn in Hr.
  destruct r; try discriminate; cbn; apply IH, Hrest.
Qed.

Lemma find_none_current_rows (k : string) (stored : list Stored) :
  List.find (fun s => is_current_advertiser k (snd s)) stored = None ->
  current_rows k stored = [].
Proof.
  induction stored as [| s stored IH]; cbn; [reflexivity |].
  destruct (is_current_advertiser k (snd s)); [discriminate | exact IH].
Qed.

Lemma find_some_current_rows (k : string) (stored : list Stored) (s : Stored) :
  List.find (fun s => is_current_advertiser k (snd s)) stored = Some s ->
  current_rows k stored <> [].
Proof.
  induction stored as [| s' stored IH]; cbn; [discriminate |].
  destruct (is_current_advertiser k (snd s')); [discriminate | exact IH].
Qed.

(** Rows flushed from a pending list without advertisers, possibly
    followed by one object [r]: the only current row they can bring
    is [r]. *)
Lemma current_rows_flushed (k : string) (inserted : list Stored)
    (waiting rest : list Row) (r : Row) :
  Forall (fun r => is_advertiser r = false) waiting ->
  (waiting ++ [r] = map snd inserted ++ rest)%list ->
  current_rows k inserted = []
  \/ (is_current_advertiser k r = true
      /\ exists id, current_rows k inserted = [(id, r)]).
Proof.
  revert waiting. induction inserted as [| [id x] inserted IH];
    intros waiting Hquiet Heq; [left; reflexivity |].
  destruct waiting as [| y waiting]; cbn in Heq.
  - injection Heq as <- Hrest.
    destruct inserted; [| discriminate]. cbn.
    destruct (is_current_advertiser k r) eqn:Hr; [right | left];
      eauto.
  - injection Heq as <- Hrest. inversion Hquiet as [| ? ? Hy Hw]; subst.
    destruct (IH waiting Hw Hrest) as [Hnone | Hone].
    + left. cbn. destruct y; try discriminate; cbn; exact Hnone.
    + right. destruct Hone as (Hr & id' & Hid'). split; [exact Hr |].
      exists id'. cbn. destruct y; try discriminate; cbn; exact Hid'.
Qed.

(** An object that is no advertiser, added and flushed, leaves the
    advertiser dimension as it was. *)
Lemma add_and_flush_quiet (r : Row) (k : string) (st : State) :
  Forall (fun r => is_advertiser r = false) (pending st) ->
  is_advertiser r = false ->
  current_rows k (rows (fst (add_and_flush store r st)))
  = current_rows k (rows st).
Proof.
  intros Hquiet Hr.
  destruct (add_and_flush_appends store r st)
    as (inserted & rest & -> & Heq & _).
  rewrite current_rows_app.
  destruct (current_rows_flushed k inserted (pending st) rest r Hquiet Heq)
    as [-> | (Hcur & _)]; [apply app_nil_r |].
  destruct r; discriminate.
Qed.

Lemma add_and_flush_keeps_advertisers (r : Row) :
  is_advertiser r = false ->
  preserves advertisers_consistent (add_and_flush store r).
Proof.
  intros Hr st [Hone Hquiet]. split.
  - intros k. rewrite (add_and_flush_quiet r k st Hquiet Hr). apply Hone.
  - destruct (add_and_flush_appends store r st)
      as (_ & _ & _ & _ & _ & -> & _). constructor.
Qed.

Lemma with_loader_keeps_advertisers (f : DataLoader -> DataLoader) :
  preserves advertisers_consistent (with_loader f).
Proof. intros st H. exact H. Qed.

Lemma query_first_keeps_advertisers (keep : Row -> bool) :
  preserves advertisers_consistent (query_first keep).
Proof. intros st H. exact H. Qed.

Ltac dimension_lookup :=
  apply preserves_mbind; [apply preserves_lift | intros k];
  intros st H;
  match goal with
  | |- context [match ?hit with Some _ => _ | None => _ end] => destruct hit
  end; [exact H |];
  revert st H;
  apply preserves_mbind; [apply query_first_keeps_advertisers |];
  intros [[id row] |];
  repeat (apply preserves_mbind; [| intros ?]);
  try apply preserves_ret;
  try apply with_loader_keeps_advertisers;
  try (apply add_and_flush_keeps_advertisers; reflexivity).

Lemma crypto_keeps_advertisers (symbol : pyval) :
  preserves advertisers_consistent (_get_or_create_crypto store symbol).
Proof. unfold _get_or_create_crypto. dimension_lookup. Qed.

Lemma fiat_keeps_advertisers (code : pyval) :
  preserves advertisers_consistent (_get_or_create_fiat store code).
Proof. unfold _get_or_create_fiat. dimension_lookup. Qed.

Lemma payment_method_keeps_advertisers (code name : pyval) :
  preserves advertisers_consistent
    (_get_or_create_payment_method store code name).
Proof. unfold _get_or_create_payment_method. dimension_lookup. Qed.

(** The lookup of the advertiser [k], branch by branch. *)
Lemma advertiser_lookup (k : string) (nickname : pyval) (st : State) :
  _get_or_create_advertiser store (PStr k) nickname st
  = match _advertiser_cache (loader st) !! k with
    | Some id => (st, Ok id)
    | None =>
        match List.find (fun s => is_current_advertiser k (snd s)) (rows st)
        with
        | Some (id, _) =>
            ({| loader := cache_advertiser k id (loader st);
                rows := rows st; pending := pending st;
                seq := seq st; clock := clock st |}, Ok id)
        | None =>
            (id <~ add_and_flush store
                     (DimAdvertisers k nickname false 0
                        (utcnow store (clock st)) true) ;;
             _ <~ with_loader (cache_advertiser k id) ;; ret id)
              {| loader := loader st; rows := rows st;
                 pending := pending st; seq := seq st;
                 clock := S (clock st) |}
        end
    end.
Proof.
  unfold _get_or_create_advertiser, mbind, lift, query_first.
  cbn [natural_key].
  destruct (_advertiser_cache (loader st) !! k); [reflexivity |].
  destruct (List.find (fun s => is_current_advertiser k (snd s)) (rows st))
    as [[id row] |]; reflexivity.
Qed.

Lemma advertiser_lookup_other (adv_id nickname : pyval) (st : State) :
  (forall k, adv_id <> PStr k) ->
  fst (_get_or_create_advertiser store adv_id nickname st) = st.
Proof.
  intros Hother. destruct adv_id; try reflexivity. destruct (Hother s eq_refl).
Qed.

(** What one advertiser lookup does to the current rows of any
    advertiser id [k']: nothing, or one new current row, dated now;
    and the latter only for the id looked up, after a miss in the
    cache and a lookup that found no current row. *)
Lemma advertiser_resolution (adv_id nickname : pyval) (st : State)
    (k' : string) :
  Forall (fun r => is_advertiser r = false) (pending st) ->
  let st' := fst (_get_or_create_advertiser store adv_id nickname st) in
  Forall (fun r => is_advertiser r = false) (pending st')
  /\ exists new,
       current_rows k' (rows st') = (current_rows k' (rows st) ++ new)%list
       /\ (new = []
           \/ (adv_id = PStr k'
               /\ _advertiser_cache (loader st) !! k' = None
               /\ current_rows k' (rows st) = []
               /\ exists id,
                    new = [(id, DimAdvertisers k' nickname false 0
                                  (utcnow store (clock st)) true)])).
Proof.
  intros Hquiet st'.
  assert (Hnothing : forall st0,
            rows st0 = rows st /\ pending st0 = pending st ->
            Forall (fun r => is_advertiser r = false) (pending st0)
            /\ exists new,
                 current_rows k' (rows st0)
                 = (current_rows k' (rows st) ++ new)%list
                 /\ (new = []
                     \/ (adv_id = PStr k'
                         /\ _advertiser_cache (loader st) !! k' = None
                         /\ current_rows k' (rows st) = []
                         /\ exists id,
                              new = [(id, DimAdvertisers k' nickname false 0
                                            (utcnow store (clock st)) true)]))).
  { intros st0 [Hrows Hpending]. rewrite Hrows, Hpending.
    split; [exact Hquiet |]. exists []. rewrite app_nil_r. auto. }
  subst st'.
  destruct adv_id as [| | | | k | | |];
    try (apply Hnothing; rewrite advertiser_lookup_other;
         [split; reflexivity | discriminate]).
  rewrite advertiser_lookup.
  destruct (_advertiser_cache (loader st) !! k) as [hit |] eqn:Hcache;
    [apply Hnothing; split; reflexivity |].
  destruct (List.find (fun s => is_current_advertiser k (snd s)) (rows st))
    as [[id row] |] eqn:Hfind; [apply Hnothing; split; reflexivity |].
  clear Hnothing.
  set (st1 := {| loader := loader st; rows := rows st;
                 pending := pending st; seq := seq st;
                 clock := S (clock st) |}).
  set (r := DimAdvertisers k nickname false 0 (utcnow store (clock st)) true).
  destruct (add_and_flush_appends store r st1)
    as (inserted & rest & Hrows & Heq & _ & Hpending & _).
  assert (Hst' : rows (fst ((id <~ add_and_flush store r ;;
                             _ <~ with_loader (cache_advertiser k id) ;;
                             ret id) st1))
                 = rows (fst (add_and_flush store r st1))
                 /\ pending (fst ((id <~ add_and_flush store r ;;
                                   _ <~ with_loader (cache_advertiser k id) ;;
                                   ret id) st1))
                    = pending (fst (add_and_flush store r st1))).
  { unfold mbind.
    destruct (add_and_flush store r st1) as [st2 [id | e]]; cbn; auto. }
  destruct Hst' as [-> ->]. rewrite Hpending, Hrows.
  split; [constructor |].
  rewrite current_rows_app.
  destruct (current_rows_flushed k' inserted (pending st1) rest r Hquiet Heq)
    as [-> | (Hcur & id & ->)]; [exists []; auto |].
  eexists. split; [reflexivity |]. right.
  cbn in Hcur. rewrite andb_true_r in Hcur.
  apply String.eqb_eq in Hcur. subst k'.
  repeat split; [exact Hcache | | eauto].
  apply find_none_current_rows, Hfind.
Qed.

Lemma advertiser_keeps_advertisers (adv_id nickname : pyval) :
  preserves advertisers_consistent
    (_get_or_create_advertiser store adv_id nickname).
Proof.
  intros st [Hone Hquiet]. split.
  - intros k'.
    destruct (advertiser_resolution adv_id nickname st k' Hquiet)
      as (_ & new & -> & [-> | (_ & _ & Hnone & id & ->)]).
    + rewrite app_nil_r. apply Hone.
    + rewrite Hnone. cbn. lia.
  - apply (advertiser_resolution adv_id nickname st EmptyString Hquiet).
Qed.

Lemma bridge_keeps_advertisers (offer_id ts pm_id : Z) :
  preserves advertisers_consistent
    (session_add (FactOfferPaymentMethods offer_id ts pm_id)).
Proof.
  intros st [Hone Hquiet]. split; [exact Hone |].
  cbn. apply Forall_app. split; [exact Hquiet | repeat constructor].
Qed.

Lemma fact_keeps_advertisers (fact : Row) :
  is_fact fact = true ->
  preserves advertisers_consistent (add_and_flush store fact).
Proof.
  intros Hfact. apply add_and_flush_keeps_advertisers.
  destruct fact; try discriminate. reflexivity.
Qed.

Lemma clock_keeps_advertisers :
  preserves advertisers_consistent (datetime_utcnow store).
Proof. intros st H. exact H. Qed.

Lemma flush_keeps_advertisers :
  preserves advertisers_consistent (session_flush store).
Proof.
  intros st [Hone Hquiet].
  destruct (session_flush_appends store st)
    as (inserted & rest & Hrows & Heq & _ & Hpending & _).
  split; [| rewrite Hpending; constructor].
  intros k. rewrite Hrows, current_rows_app, (current_rows_quiet k inserted).
  - rewrite app_nil_r. apply Hone.
  - rewrite Heq in Hquiet. apply Forall_app in Hquiet. apply Hquiet.
Qed.

(** C9. Given at most one current row for each advertiser id among
    the committed rows, every [load_offers] call leaves it so. Each
    advertiser lookup on the way adds nothing to the current rows of
    an id, or adds one row, current and dated now, and that only for
    the id looked up when neither the cache nor the lookup of the
    current row found one. *)
Theorem load_offers_keeps_one_current (offers : list pyval)
    (batch_id : string) (L : DataLoader) (db : Database) :
  one_current (committed db) ->
  one_current
    (committed (snd (fst (load_offers store offers batch_id L db))))
  /\ (forall adv_id nickname st k',
        advertisers_consistent st ->
        let st' := fst (_get_or_create_advertiser store adv_id nickname st) in
        advertisers_consistent st'
        /\ exists new,
             current_rows k' (rows st')
             = (current_rows k' (rows st) ++ new)%list
             /\ (new = []
                 \/ (adv_id = PStr k'
                     /\ _advertiser_cache (loader st) !! k' = None
                     /\ current_rows k' (rows st) = []
                     /\ exists id,
                          new = [(id, DimAdvertisers k' nickname false 0
                                        (utcnow store (clock st)) true)]))).
Proof.
  intros Hone. split.
  - unfold load_offers. destruct offers as [| offer rest]; [exact Hone |].
    unfold get_session.
    assert (Hbody : advertisers_consistent
                      (fst (load_offers_body store (offer :: rest) batch_id
                              (session_begin L db)))).
    { apply (load_offers_body_preserves store advertisers_consistent).
      - apply crypto_keeps_advertisers.
      - apply fiat_keeps_advertisers.
      - apply payment_method_keeps_advertisers.
      - apply advertiser_keeps_advertisers.
      - apply bridge_keeps_advertisers.
      - apply fact_keeps_advertisers.
      - apply clock_keeps_advertisers.
      - intros n. apply with_loader_keeps_advertisers.
      - split; [exact Hone | constructor]. }
    destruct (load_offers_body store (offer :: rest) batch_id
                (session_begin L db)) as [st1 [[] | e]]; [| exact Hone].
    cbn in Hbody. apply flush_keeps_advertisers in Hbody.
    destruct (session_flush store st1) as [st2 [[] | e]]; [| exact Hone].
    apply Hbody.
  - intros adv_id nickname st k' Hst. split.
    + apply advertiser_keeps_advertisers, Hst.
    + apply (advertiser_resolution adv_id nickname st k'), Hst.
Qed.

End AdvertiserDimension.

(** Two offers of two advertisers, one of them known already, loaded
    into the seeded warehouse. *)
Lemma load_offers_keeps_one_current_witness :
  LoaderTerms.one_current (Loader.committed WarehouseSamples.seeded_db)
  /\ LoaderTerms.one_current
       (Loader.committed
          (snd (fst (Loader.load_offers LoaderTerms.accept_all
                       WarehouseSamples.first_batch "batch-1"
                       Loader.new_loader WarehouseSamples.seeded_db)))).
Proof.
  assert (H : LoaderTerms.one_current
                (Loader.committed WarehouseSamples.seeded_db)).
  { intros k. unfold LoaderTerms.current_rows.
    cbn [Loader.committed WarehouseSamples.seeded_db List.filter snd
         Loader.is_current_advertiser].
    destruct (String.eqb "adv1" k); cbn; lia. }
  split; [exact H |].
  exact (proj1 (load_offers_keeps_one_current LoaderTerms.accept_all
                  WarehouseSamples.first_batch "batch-1" Loader.new_loader
                  WarehouseSamples.seeded_db H)).
Defined.

(** In that run [adv1] keeps its one row and [adv2] gets one. *)
Example known_advertiser_reused :
  map snd
    (List.filter (fun s => InvariantTerms.is_advertiser (snd s))
       (Loader.committed
          (snd (fst (Loader.load_offers LoaderTerms.accept_all
                       WarehouseSamples.first_batch "batch-1"
                       Loader.new_loader WarehouseSamples.seeded_db)))))
  = [ Loader.DimAdvertisers "adv1" (PStr "adv1") false 0 1600000000 true;
      Loader.DimAdvertisers "adv2" (PStr "adv2") false 0 1700000000 true ].
Proof. vm_compute. reflexivity. Qed.

(** ** The fiat dimension *)

Section FiatDimension.

Import Loader LoaderTerms InvariantTerms.

Variable store : Storage.
Variables (c : string) (i : Z) (known : list Stored).

(** The lookup of the fiat code [k], branch by branch. *)
Lemma fiat_lookup (k : string) (st : State) :
  _get_or_create_fiat store (PStr k) st
  = match _fiat_cache (loader st) !! k with
    | Some id => (st, Ok id)
    | None =>
        match List.find (fun s => has_currency_code k (snd s)) (rows st) with
        | Some (id, _) =>
            ({| loader := cache_fiat k id (loader st);
                rows := rows st; pending := pending st;
                seq := seq st; clock := clock st |}, Ok id)
        | None =>
            (id <~ add_and_flush store (DimFiatCurrencies k k) ;;
             _ <~ with_loader (cache_fiat k id) ;; ret id) st
        end
    end.
Proof.
  unfold _get_or_create_fiat, mbind, lift, query_first.
  cbn [natural_key].
  destruct (_fiat_cache (loader st) !! k); [reflexivity |].
  destruct (List.find (fun s => has_currency_code k (snd s)) (rows st))
    as [[id row] |]; reflexivity.
Qed.

(** A code that is bound resolves to its key, and nothing changes. *)
Lemma fiat_lookup_hit (st : State) :
  _fiat_cache (loader st) !! c = Some i ->
  _get_or_create_fiat store (PStr c) st = (st, Ok i).
Proof. intros Hhit. rewrite fiat_lookup, Hhit. reflexivity. Qed.

(** A code that resolves is bound, from then on, to the key
    returned. *)
Lemma fiat_lookup_binds (st : State) (j : Z) :
  snd (_get_or_create_fiat store (PStr c) st) = Ok j ->
  _fiat_cache (loader (fst (_get_or_create_fiat store (PStr c) st))) !! c
  = Some j.
Proof.
  rewrite fiat_lookup.
  destruct (_fiat_cache (loader st) !! c) as [hit |] eqn:Hcache.
  - intros [= <-]. exact Hcache.
  - destruct (List.find (fun s => has_currency_code c (snd s)) (rows st))
      as [[id row] |].
    + intros [= <-]. cbn. apply lookup_insert_eq.
    + unfold mbind.
      destruct (add_and_flush_appends store (DimFiatCurrencies c c) st)
        as (_ & _ & _ & _ & _ & Hloader & _).
      destruct (add_and_flush store (DimFiatCurrencies c c) st)
        as [st1 [id | e]]; cbn; [| discriminate].
      intros [= <-]. apply lookup_insert_eq.
Qed.

(** Objects filed under other codes, added and flushed, leave the
    binding of [c] as it was. *)
Lemma add_and_flush_keeps_fiat (r : Row) :
  has_currency_code c r = false ->
  preserves (fiat_bound c i known) (add_and_flush store r).
Proof.
  intros Hr st (Hcache & Hrows & Hquiet).
  destruct (add_and_flush_appends store r st)
    as (inserted & rest & Hrows' & Heq & _ & Hpending & Hloader & _).
  refine (conj _ (conj _ _)).
  - rewrite Hloader. exact Hcache.
  - rewrite Hrows'. unfold fiat_rows in *. rewrite filter_app_dropped; [exact Hrows |].
    assert (Hall : Forall (fun r => has_currency_code c r = false)
                     (map snd inserted ++ rest)).
    { rewrite <- Heq. apply Forall_app. split; [exact Hquiet | auto]. }
    apply Forall_app in Hall. destruct Hall as [Hall _].
    clear -Hall. induction inserted as [| s inserted IH]; [constructor |].
    inversion Hall; subst. constructor; auto.
  - rewrite Hpending. constructor.
Qed.

Lemma with_loader_keeps_fiat (f : DataLoader -> DataLoader) :
  (forall L, _fiat_cache (f L) !! c = _fiat_cache L !! c) ->
  preserves (fiat_bound c i known) (with_loader f).
Proof.
  intros Hf st (Hcache & Hrows & Hquiet). refine (conj _ (conj Hrows Hquiet)).
  cbn. rewrite Hf. exact Hcache.
Qed.

Lemma query_first_keeps_fiat (keep : Row -> bool) :
  preserves (fiat_bound c i known) (query_first keep).
Proof. intros st H. exact H. Qed.

Ltac other_dimension :=
  apply preserves_mbind; [apply preserves_lift | intros k];
  intros st H;
  match goal with
  | |- context [match ?hit with Some _ => _ | None => _ end] => destruct hit
  end; [exact H |];
  revert st H;
  apply preserves_mbind; [apply query_first_keeps_fiat |];
  intros [[id row] |];
  repeat (apply preserves_mbind; [| intros ?]);
  try apply preserves_ret;
  try (apply with_loader_keeps_fiat; reflexivity);
  try (apply add_and_flush_keeps_fiat; reflexivity).

Lemma crypto_keeps_fiat (symbol : pyval) :
  preserves (fiat_bound c i known) (_get_or_create_crypto store symbol).
Proof. unfold _get_or_create_crypto. other_dimension. Qed.

Lemma payment_method_keeps_fiat (code name : pyval) :
  preserves (fiat_bound c i known)
    (_get_or_create_payment_method store code name).
Proof. unfold _get_or_create_payment_method. other_dimension. Qed.

Lemma advertiser_keeps_fiat (adv_id nickname : pyval) :
  preserves (fiat_bound c i known)
    (_get_or_create_advertiser store adv_id nickname).
Proof.
  unfold _get_or_create_advertiser.
  apply preserves_mbind; [apply preserves_lift | intros k].
  intros st H.
  match goal with
  | |- context [match ?hit with Some _ => _ | None => _ end] => destruct hit
  end; [exact H |].
  revert st H.
  apply preserves_mbind; [apply query_first_keeps_fiat |].
  intros [[id row] |];
    repeat (apply preserves_mbind; [| intros ?]);
    try apply preserves_ret;
    try (apply with_loader_keeps_fiat; reflexivity);
    try (apply add_and_flush_keeps_fiat; reflexivity).
  intros st H. exact H.
Qed.

(** A lookup of any fiat code keeps the binding of [c]: a lookup of
    [c] itself hits the cache, a lookup of another code files its
    row and its cache entry under that other code. *)
Lemma fiat_keeps_fiat (code : pyval) :
  preserves (fiat_bound c i known) (_get_or_create_fiat store code).
Proof.
  destruct code as [| | | | k | | |]; try (intros st H; exact H).
  intros st H. rewrite fiat_lookup.
  destruct (_fiat_cache (loader st) !! k) as [hit |] eqn:Hcache; [exact H |].
  assert (Hne : k <> c).
  { intros ->. destruct H as (Hc & _). congruence. }
  destruct (List.find (fun s => has_currency_code k (snd s)) (rows st))
    as [[id row] |].
  - destruct H as (Hc & Hrows & Hquiet). refine (conj _ (conj Hrows Hquiet)).
    cbn. rewrite lookup_insert_ne; assumption.
  - revert st H Hcache.
    assert (Hkeeps : preserves (fiat_bound c i known)
                       (id <~ add_and_flush store (DimFiatCurrencies k k) ;;
                        _ <~ with_loader (cache_fiat k id) ;; ret id)).
    { repeat (apply preserves_mbind; [| intros ?]).
      - apply add_and_flush_keeps_fiat. cbn.
        apply String.eqb_neq. exact Hne.
      - apply with_loader_keeps_fiat. intros L. cbn.
        apply lookup_insert_ne. exact Hne.
      - apply preserves_ret. }
    intros st H _. apply Hkeeps, H.
Qed.

Lemma bridge_keeps_fiat (offer_id ts pm_id : Z) :
  preserves (fiat_bound c i known)
    (session_add (FactOfferPaymentMethods offer_id ts pm_id)).
Proof.
  intros st (Hcache & Hrows & Hquiet). refine (conj Hcache (conj Hrows _)).
  cbn. apply Forall_app. split; [exact Hquiet | repeat constructor].
Qed.

Lemma fact_keeps_fiat (fact : Row) :
  is_fact fact = true ->
  preserves (fiat_bound c i known) (add_and_flush store fact).
Proof.
  intros Hfact. apply add_and_flush_keeps_fiat.
  destruct fact; try discriminate. reflexivity.
Qed.

Lemma flush_keeps_fiat : preserves (fiat_bound c i known) (session_flush store).
Proof.
  intros st (Hcache & Hrows & Hquiet).
  destruct (session_flush_appends store st)
    as (inserted & rest & Hrows' & Heq & _ & Hpending & Hloader).
  refine (conj _ (conj _ _)).
  - rewrite Hloader. exact Hcache.
  - rewrite Hrows'. unfold fiat_rows in *.
    rewrite filter_app_dropped; [exact Hrows |].
    rewrite Heq in Hquiet. apply Forall_app in Hquiet.
    destruct Hquiet as [Hall _].
    clear -Hall. induction inserted as [| s inserted IH]; [constructor |].
    inversion Hall; subst. constructor; auto.
  - rewrite Hpending. constructor.
Qed.

(** Both phases of a batch keep the binding of [c]. *)
Lemma load_offers_body_keeps_fiat (offers : list pyval) (batch_id : string) :
  preserves (fiat_bound c i known) (load_offers_body store offers batch_id).
Proof.
  apply load_offers_body_preserves.
  - apply crypto_keeps_fiat.
  - apply fiat_keeps_fiat.
  - apply payment_method_keeps_fiat.
  - apply advertiser_keeps_fiat.
  - apply bridge_keeps_fiat.
  - apply fact_keeps_fiat.
  - intros st H. exact H.
  - intros n. apply with_loader_keeps_fiat. reflexivity.
Qed.

End FiatDimension.

(** ** What a committed batch stores *)

Section Runs.

Import Loader LoaderTerms BatchTerms.

Lemma mbind_ok {A B} (m : M A) (k : A -> M B) (st st'' : State) (b : B) :
  mbind m k st = (st'', Ok b) ->
  exists a st', m st = (st', Ok a) /\ k a st' = (st'', Ok b).
Proof.
  unfold mbind. destruct (m st) as [st' [a | e]]; [eauto | discriminate].
Qed.

Lemma lift_ok {A} (r : result A) (st st' : State) (a : A) :
  lift r st = (st', Ok a) -> r = Ok a /\ st' = st.
Proof. unfold lift. intros [= -> ->]. auto. Qed.

Lemma ret_ok {A} (x a : A) (st st' : State) :
  ret x st = (st', Ok a) -> a = x /\ st' = st.
Proof. unfold ret. intros [= -> ->]. auto. Qed.

Lemma cache_grows_refl (L : DataLoader) : cache_grows L L.
Proof. repeat split; reflexivity. Qed.

Lemma cache_grows_trans (L1 L2 L3 : DataLoader) :
  cache_grows L1 L2 -> cache_grows L2 L3 -> cache_grows L1 L3.
Proof.
  intros (Ha & Hb & Hc & Hd) (Ha' & Hb' & Hc' & Hd').
  repeat split; etrans; eassumption.
Qed.

Lemma step_refl (st : State) : no_pending_facts st -> step st st [] [].
Proof.
  intros Hquiet. refine (conj (cache_grows_refl _) (conj _ _)).
  - exists []. rewrite app_nil_r. reflexivity.
  - rewrite !app_nil_r. auto.
Qed.

Lemma step_trans (st1 st2 st3 : State) (added added' : list Row)
    (new_facts new_facts' : list Stored) :
  step st1 st2 added new_facts ->
  step st2 st3 added' new_facts' ->
  step st1 st3 (added ++ added') (new_facts ++ new_facts').
Proof.
  intros (Hc & (ins & Hi) & Ho & Hf & Hr & _)
         (Hc' & (ins' & Hi') & Ho' & Hf' & Hr' & Hq').
  refine (conj (cache_grows_trans _ _ _ Hc Hc')
            (conj _ (conj _ (conj _ (conj _ Hq'))))).
  - exists (ins ++ ins')%list. rewrite Hi', Hi, app_assoc. reflexivity.
  - rewrite Ho', Ho, app_assoc. reflexivity.
  - rewrite List.map_app, List.filter_app, Hf, Hf'. reflexivity.
  - rewrite Hr', Hr, app_assoc. reflexivity.
Qed.

Lemma dimension_step_refl (st : State) :
  no_pending_facts st -> dimension_step st st.
Proof. intros H. exists []. split; [apply step_refl, H | constructor]. Qed.

Lemma dimension_step_trans (st1 st2 st3 : State) :
  dimension_step st1 st2 -> dimension_step st2 st3 -> dimension_step st1 st3.
Proof.
  intros (added & Hstep & Hdim) (added' & Hstep' & Hdim').
  exists (added ++ added')%list. split.
  - apply (step_trans _ _ _ _ _ [] [] Hstep Hstep').
  - apply Forall_app. auto.
Qed.

Lemma filter_none {A} (keep : A -> bool) (l : list A) :
  Forall (fun x => keep x = false) l -> List.filter keep l = [].
Proof.
  induction 1 as [| x l Hx _ IH]; cbn; [reflexivity |]. rewrite Hx. exact IH.
Qed.

Lemma dimension_has_no_fact (added : list Row) :
  Forall (fun r => is_dimension r = true) added ->
  List.filter is_fact added = [] /\ List.filter is_bridge added = [].
Proof.
  intros H. split; apply filter_none; eapply Forall_impl; try exact H;
    intros r Hr; unfold is_dimension in Hr;
    apply andb_true_iff in Hr; destruct Hr as [Hf Hb];
    apply negb_true_iff in Hf, Hb; assumption.
Qed.

Variable store : Storage.

(** An object added and flushed with success joins the objects of the
    session; it is stored last, under the key returned. *)
Lemma add_and_flush_ok (r : Row) (st st' : State) (id : Z) :
  no_pending_facts st ->
  add_and_flush store r st = (st', Ok id) ->
  loader st' = loader st
  /\ clock st' = clock st
  /\ (exists inserted, rows st' = (rows st ++ inserted)%list)
  /\ objects st' = (objects st ++ [r])%list
  /\ facts (rows st')
     = (facts (rows st) ++ (if is_fact r then [(id, r)] else []))%list
  /\ no_pending_facts st'.
Proof.
  intros Hquiet Hrun.
  destruct (add_and_flush_appends store r st)
    as (inserted & rest & Hrows & _ & Hok & Hpending & Hloader & Hclock).
  rewrite Hrun in *. cbn [fst snd] in *.
  destruct (Hok id eq_refl) as (earlier & -> & Hearlier).
  refine (conj Hloader (conj Hclock (conj (ex_intro _ _ Hrows) _))).
  unfold objects, no_pending_facts. rewrite Hrows, Hpending, <- Hearlier.
  rewrite !map_app, app_nil_r, <- app_assoc. cbn [map snd].
  refine (conj eq_refl (conj _ _)); [| constructor].
  unfold facts. rewrite !List.filter_app. cbn [List.filter snd].
  replace (List.filter (fun s => is_fact (snd s)) earlier) with (@nil Stored);
    [reflexivity |].
  symmetry. apply filter_none.
  unfold no_pending_facts in Hquiet. rewrite <- Hearlier in Hquiet.
  clear -Hquiet. induction earlier as [| s earlier IH]; [constructor |].
  inversion Hquiet; subst. constructor; auto.
Qed.

(** A dimension row added and flushed, then cached under a new key of
    one cache: a dimension step. *)
Lemma create_dimension_ok (r : Row) (f : Z -> DataLoader -> DataLoader)
    (st st' : State) (id : Z) :
  no_pending_facts st ->
  is_dimension r = true ->
  (forall x, cache_grows (loader st) (f x (loader st))) ->
  (x <~ add_and_flush store r ;; _ <~ with_loader (f x) ;; ret x) st
  = (st', Ok id) ->
  dimension_step st st' /\ loader st' = f id (loader st).
Proof.
  intros Hquiet Hdim Hgrows Hrun.
  apply mbind_ok in Hrun as (x & st1 & Hadd & Hrun).
  apply mbind_ok in Hrun as ([] & st2 & Hcache & Hret).
  apply ret_ok in Hret as [-> ->]. injection Hcache as <-.
  destruct (add_and_flush_ok r st st1 x Hquiet Hadd)
    as (Hloader & _ & Hextends & Hobjects & Hfacts & Hquiet1).
  assert (Hnofact : is_fact r = false).
  { unfold is_dimension in Hdim. apply andb_true_iff in Hdim.
    destruct Hdim as [H _]. apply negb_true_iff in H. exact H. }
  rewrite Hnofact, app_nil_r in Hfacts.
  split; [| cbn [loader]; rewrite Hloader; reflexivity].
  exists [r]. split; [| repeat constructor; exact Hdim].
  unfold step, objects, no_pending_facts in *. cbn [loader rows pending].
  refine (conj _ (conj Hextends (conj Hobjects (conj _ (conj _ Hquiet1))))).
  - rewrite Hloader. apply Hgrows.
  - cbn. rewrite Hnofact. reflexivity.
  - rewrite Hfacts, app_nil_r. reflexivity.
Qed.

Lemma crypto_lookup (k : string) (st : State) :
  _get_or_create_crypto store (PStr k) st
  = match _crypto_cache (loader st) !! k with
    | Some id => (st, Ok id)
    | None =>
        match List.find (fun s => has_symbol k (snd s)) (rows st) with
        | Some (id, _) =>
            ({| loader := cache_crypto k id (loader st);
                rows := rows st; pending := pending st;
                seq := seq st; clock := clock st |}, Ok id)
        | None =>
            (id <~ add_and_flush store (DimCryptocurrencies k k k) ;;
             _ <~ with_loader (cache_crypto k id) ;; ret id) st
        end
    end.
Proof.
  unfold _get_or_create_crypto, mbind, lift, query_first.
  cbn [natural_key].
  destruct (_crypto_cache (loader st) !! k); [reflexivity |].
  destruct (List.find (fun s => has_symbol k (snd s)) (rows st))
    as [[id row] |]; reflexivity.
Qed.

Lemma payment_method_lookup (k : string) (name : pyval) (st : State) :
  _get_or_create_payment_method store (PStr k) name st
  = match _payment_method_cache (loader st) !! k with
    | Some id => (st, Ok id)
    | None =>
        match List.find (fun s => has_method_code k (snd s)) (rows st) with
        | Some (id, _) =>
            ({| loader := cache_payment_method k id (loader st);
                rows := rows st; pending := pending st;
                seq := seq st; clock := clock st |}, Ok id)
        | None =>
            (id <~ add_and_flush store (DimPaymentMethods k name) ;;
             _ <~ with_loader (cache_payment_method k id) ;; ret id) st
        end
    end.
Proof.
  unfold _get_or_create_payment_method, mbind, lift, query_first.
  cbn [natural_key].
  destruct (_payment_method_cache (loader st) !! k); [reflexivity |].
  destruct (List.find (fun s => has_method_code k (snd s)) (rows st))
    as [[id row] |]; reflexivity.
Qed.

Lemma cache_crypto_grows (k : string) (id : Z) (L : DataLoader) :
  _crypto_cache L !! k = None -> cache_grows L (cache_crypto k id L).
Proof.
  intros H. repeat split; cbn; try reflexivity. apply insert_subseteq, H.
Qed.

Lemma cache_fiat_grows (k : string) (id : Z) (L : DataLoader) :
  _fiat_cache L !! k = None -> cache_grows L (cache_fiat k id L).
Proof.
  intros H. repeat split; cbn; try reflexivity. apply insert_subseteq, H.
Qed.

Lemma cache_payment_method_grows (k : string) (id : Z) (L : DataLoader) :
  _payment_method_cache L !! k = None ->
  cache_grows L (cache_payment_method k id L).
Proof.
  intros H. repeat split; cbn; try reflexivity. apply insert_subseteq, H.
Qed.

Lemma cache_advertiser_grows (k : string) (id : Z) (L : DataLoader) :
  _advertiser_cache L !! k = None -> cache_grows L (cache_advertiser k id L).
Proof.
  intros H. repeat split; cbn; try reflexivity. apply insert_subseteq, H.
Qed.

(** A row found by the lookup and cached: a dimension step. *)
Lemma cache_found_step (f : DataLoader -> DataLoader) (st : State) :
  no_pending_facts st ->
  cache_grows (loader st) (f (loader st)) ->
  dimension_step st
    {| loader := f (loader st); rows := rows st; pending := pending st;
       seq := seq st; clock := clock st |}.
Proof.
  intros Hquiet Hgrows. exists []. split; [| constructor].
  unfold step, objects, no_pending_facts in *. cbn [loader rows pending].
  rewrite !app_nil_r. refine (conj Hgrows (conj _ _)); [| auto].
  exists []. rewrite app_nil_r. reflexivity.
Qed.

(** The four lookups, when they return: the key was a string, the
    session made a dimension step and the cache binds the key to the
    id returned. *)
Lemma crypto_lookup_ok (symbol : pyval) (st st' : State) (id : Z) :
  no_pending_facts st ->
  _get_or_create_crypto store symbol st = (st', Ok id) ->
  exists k,
    symbol = PStr k /\ dimension_step st st'
    /\ _crypto_cache (loader st') !! k = Some id.
Proof.
  intros Hquiet Hrun. destruct symbol as [| | | | k | | |]; try discriminate.
  exists k. split; [reflexivity |]. rewrite crypto_lookup in Hrun.
  destruct (_crypto_cache (loader st) !! k) as [hit |] eqn:Hcache.
  - injection Hrun as <- <-. split; [apply dimension_step_refl, Hquiet | auto].
  - destruct (List.find (fun s => has_symbol k (snd s)) (rows st))
      as [[id0 row] |].
    + injection Hrun as <- <-. split.
      * apply (cache_found_step (cache_crypto k id0)); [exact Hquiet |].
        apply cache_crypto_grows, Hcache.
      * apply lookup_insert_eq.
    + apply create_dimension_ok in Hrun as [Hstep ->];
        [| exact Hquiet | reflexivity
         | intros x; apply cache_crypto_grows, Hcache].
      split; [exact Hstep | apply lookup_insert_eq].
Qed.

Lemma fiat_lookup_ok (code : pyval) (st st' : State) (id : Z) :
  no_pending_facts st ->
  _get_or_create_fiat store code st = (st', Ok id) ->
  exists k,
    code = PStr k /\ dimension_step st st'
    /\ _fiat_cache (loader st') !! k = Some id.
Proof.
  intros Hquiet Hrun. destruct code as [| | | | k | | |]; try discriminate.
  exists k. split; [reflexivity |]. rewrite fiat_lookup in Hrun.
  destruct (_fiat_cache (loader st) !! k) as [hit |] eqn:Hcache.
  - injection Hrun as <- <-. split; [apply dimension_step_refl, Hquiet | auto].
  - destruct (List.find (fun s => has_currency_code k (snd s)) (rows st))
      as [[id0 row] |].
    + injection Hrun as <- <-. split.
      * apply (cache_found_step (cache_fiat k id0)); [exact Hquiet |].
        apply cache_fiat_grows, Hcache.
      * apply lookup_insert_eq.
    + apply create_dimension_ok in Hrun as [Hstep ->];
        [| exact Hquiet | reflexivity
         | intros x; apply cache_fiat_grows, Hcache].
      split; [exact Hstep | apply lookup_insert_eq].
Qed.

Lemma payment_method_lookup_ok (code name : pyval) (st st' : State) (id : Z) :
  no_pending_facts st ->
  _get_or_create_payment_method store code name st = (st', Ok id) ->
  exists k,
    code = PStr k /\ dimension_step st st'
    /\ _payment_method_cache (loader st') !! k = Some id.
Proof.
  intros Hquiet Hrun. destruct code as [| | | | k | | |]; try discriminate.
  exists k. split; [reflexivity |]. rewrite payment_method_lookup in Hrun.
  destruct (_payment_method_cache (loader st) !! k) as [hit |] eqn:Hcache.
  - injection Hrun as <- <-. split; [apply dimension_step_refl, Hquiet | auto].
  - destruct (List.find (fun s => has_method_code k (snd s)) (rows st))
      as [[id0 row] |].
    + injection Hrun as <- <-. split.
      * apply (cache_found_step (cache_payment_method k id0));
          [exact Hquiet |].
        apply cache_payment_method_grows, Hcache.
      * apply lookup_insert_eq.
    + apply create_dimension_ok in Hrun as [Hstep ->];
        [| exact Hquiet | reflexivity
         | intros x; apply cache_payment_method_grows, Hcache].
      split; [exact Hstep | apply lookup_insert_eq].
Qed.

Lemma advertiser_lookup_ok (adv_id nickname : pyval) (st st' : State)
    (id : Z) :
  no_pending_facts st ->
  _get_or_create_advertiser store adv_id nickname st = (st', Ok id) ->
  exists k,
    adv_id = PStr k /\ dimension_step st st'
    /\ _advertiser_cache (loader st') !! k = Some id.
Proof.
  intros Hquiet Hrun. destruct adv_id as [| | | | k | | |]; try discriminate.
  exists k. split; [reflexivity |]. rewrite advertiser_lookup in Hrun.
  destruct (_advertiser_cache (loader st) !! k) as [hit |] eqn:Hcache.
  - injection Hrun as <- <-. split; [apply dimension_step_refl, Hquiet | auto].
  - destruct (List.find (fun s => is_current_advertiser k (snd s)) (rows st))
      as [[id0 row] |].
    + injection Hrun as <- <-. split.
      * apply (cache_found_step (cache_advertiser k id0)); [exact Hquiet |].
        apply cache_advertiser_grows, Hcache.
      * apply lookup_insert_eq.
    + set (st1 := {| loader := loader st; rows := rows st;
                     pending := pending st; seq := seq st;
                     clock := S (clock st) |}) in Hrun.
      apply (create_dimension_ok _ (cache_advertiser k) st1) in Hrun
        as [Hstep ->];
        [| exact Hquiet | reflexivity
         | intros x; apply cache_advertiser_grows, Hcache].
      split; [| apply lookup_insert_eq].
      apply (dimension_step_trans st st1 st'); [| exact Hstep].
      exists []. split; [| constructor].
      unfold step, objects. cbn [loader rows pending].
      rewrite !app_nil_r.
      refine (conj (cache_grows_refl _) (conj _ _)); [| auto].
      exists []. rewrite app_nil_r. reflexivity.
Qed.

Lemma dimension_step_grows (st st' : State) :
  dimension_step st st' ->
  cache_grows (loader st) (loader st') /\ no_pending_facts st'.
Proof. intros (added & (Hc & _ & _ & _ & _ & Hq) & _). auto. Qed.

Lemma resolved_grows (L L' : DataLoader) (offer : pyval) (ids : Z * Z * Z) :
  cache_grows L L' -> resolved L offer ids -> resolved L' offer ids.
Proof.
  intros (Hf & Hc & _ & Ha)
         (asset & fiat & advertiser & adv_id & H1 & H2 & H3 & H4 & H5 & H6 & H7).
  exists asset, fiat, advertiser, adv_id.
  repeat split; try assumption; eapply lookup_weaken; eassumption.
Qed.

Lemma fact_of_grows (L L' : DataLoader) (batch_id : string) (ts : Z)
    (offer : pyval) (fact : Row) :
  cache_grows L L' ->
  fact_of L batch_id ts offer fact -> fact_of L' batch_id ts offer fact.
Proof.
  intros Hgrows (crypto_id & fiat_id & advertiser_sk & Hres & Hfact).
  exists crypto_id, fiat_id, advertiser_sk.
  split; [eapply resolved_grows; eassumption | exact Hfact].
Qed.

Lemma bridge_of_grows (L L' : DataLoader) (ts offer_id : Z) (pm : pyval)
    (r : Row) :
  cache_grows L L' -> bridge_of L ts offer_id pm r -> bridge_of L' ts offer_id pm r.
Proof.
  intros (_ & _ & Hp & _) (code & pm_id & H1 & H2 & H3).
  exists code, pm_id. repeat split; try assumption.
  eapply lookup_weaken; eassumption.
Qed.

Lemma batch_stored_grows (L L' : DataLoader) (batch_id : string) (ts : Z)
    (offers : list pyval) (new_facts : list Stored) (new_bridges : list Row) :
  cache_grows L L' ->
  batch_stored L batch_id ts offers new_facts new_bridges ->
  batch_stored L' batch_id ts offers new_facts new_bridges.
Proof.
  intros Hgrows. induction 1 as [| ? ? ? ? ? ? ? ? Hfact Hpms Hgroup _ IH].
  - constructor.
  - econstructor; [eapply fact_of_grows; eassumption | exact Hpms | | exact IH].
    eapply Forall2_impl; [exact Hgroup |].
    intros pm r. apply bridge_of_grows, Hgrows.
Qed.

(** The three lookups of an offer, when they return: a dimension step
    after which the caches hold the keys returned. *)
Lemma resolve_offer_ok (offer : pyval) (st st' : State) (ids : Z * Z * Z) :
  no_pending_facts st ->
  resolve_offer store offer st = (st', Ok ids) ->
  dimension_step st st' /\ resolved (loader st') offer ids.
Proof.
  intros Hquiet Hrun. unfold resolve_offer in Hrun.
  apply mbind_ok in Hrun as (asset & s0 & Hasset & Hrun).
  apply lift_ok in Hasset as [Hasset ->].
  apply mbind_ok in Hrun as (crypto_id & st1 & Hcrypto & Hrun).
  apply crypto_lookup_ok in Hcrypto as (ka & -> & Hstep1 & Hbound1);
    [| exact Hquiet].
  destruct (dimension_step_grows _ _ Hstep1) as [_ Hquiet1].
  apply mbind_ok in Hrun as (fiat & s1 & Hfiat & Hrun).
  apply lift_ok in Hfiat as [Hfiat ->].
  apply mbind_ok in Hrun as (fiat_id & st2 & Hfiatrun & Hrun).
  apply fiat_lookup_ok in Hfiatrun as (kf & -> & Hstep2 & Hbound2);
    [| exact Hquiet1].
  destruct (dimension_step_grows _ _ Hstep2) as [Hgrows2 Hquiet2].
  apply mbind_ok in Hrun as (advertiser & s2 & Hadv & Hrun).
  apply lift_ok in Hadv as [Hadv ->].
  apply mbind_ok in Hrun as (adv_id & s3 & Hid & Hrun).
  apply lift_ok in Hid as [Hid ->].
  apply mbind_ok in Hrun as (advertiser' & s4 & Hadv' & Hrun).
  apply lift_ok in Hadv' as [Hadv' ->].
  apply mbind_ok in Hrun as (nickname & s5 & Hnick & Hrun).
  apply lift_ok in Hnick as [Hnick ->].
  apply mbind_ok in Hrun as (advertiser_sk & st3 & Hadvrun & Hret).
  apply ret_ok in Hret as [-> ->].
  apply advertiser_lookup_ok in Hadvrun as (kv & -> & Hstep3 & Hbound3);
    [| exact Hquiet2].
  destruct (dimension_step_grows _ _ Hstep3) as [Hgrows3 _].
  split.
  - eapply dimension_step_trans; [| exact Hstep3].
    eapply dimension_step_trans; eassumption.
  - exists ka, kf, advertiser, kv. cbn [fst snd].
    destruct Hgrows2 as (_ & Hc2 & _). destruct Hgrows3 as (Hf3 & Hc3 & _).
    repeat split; try assumption.
    + eapply lookup_weaken; [| exact Hc3].
      eapply lookup_weaken; [exact Hbound1 | exact Hc2].
    + eapply lookup_weaken; [exact Hbound2 | exact Hf3].
Qed.

Lemma load_payment_methods_ok (pms : list pyval) :
  forall st st',
    no_pending_facts st ->
    load_payment_methods store pms st = (st', Ok tt) ->
    dimension_step st st'.
Proof.
  induction pms as [| pm pms IH]; intros st st' Hquiet Hrun;
    cbn [load_payment_methods] in Hrun.
  - apply ret_ok in Hrun as [_ ->]. apply dimension_step_refl, Hquiet.
  - apply mbind_ok in Hrun as (identifier & s0 & H0 & Hrun).
    apply lift_ok in H0 as [_ ->].
    apply mbind_ok in Hrun as (name & s1 & H1 & Hrun).
    apply lift_ok in H1 as [_ ->].
    apply mbind_ok in Hrun as (pm_id & st1 & Hlookup & Hrun).
    apply payment_method_lookup_ok in Hlookup as (k & _ & Hstep & _);
      [| exact Hquiet].
    eapply dimension_step_trans; [exact Hstep |].
    apply IH; [apply (dimension_step_grows _ _ Hstep) | exact Hrun].
Qed.

Lemma load_dimensions_ok (offers : list pyval) :
  forall st st',
    no_pending_facts st ->
    _load_dimensions store offers st = (st', Ok tt) ->
    dimension_step st st'.
Proof.
  induction offers as [| offer offers IH]; intros st st' Hquiet Hrun;
    cbn [_load_dimensions] in Hrun.
  - apply ret_ok in Hrun as [_ ->]. apply dimension_step_refl, Hquiet.
  - apply mbind_ok in Hrun as (ids & st1 & Hres & Hrun).
    apply resolve_offer_ok in Hres as [Hstep1 _]; [| exact Hquiet].
    apply mbind_ok in Hrun as (pms & s0 & H0 & Hrun).
    apply lift_ok in H0 as [_ ->].
    apply mbind_ok in Hrun as (pm_list & s1 & H1 & Hrun).
    apply lift_ok in H1 as [_ ->].
    apply mbind_ok in Hrun as ([] & st2 & Hpms & Hrun).
    apply load_payment_methods_ok in Hpms;
      [| apply (dimension_step_grows _ _ Hstep1)].
    eapply dimension_step_trans; [exact Hstep1 |].
    eapply dimension_step_trans; [exact Hpms |].
    apply IH; [apply (dimension_step_grows _ _ Hpms) | exact Hrun].
Qed.

(** A bridge object added to the session waits there. *)
Lemma session_add_bridge_ok (offer_id ts pm_id : Z) (st st' : State) :
  no_pending_facts st ->
  session_add (FactOfferPaymentMethods offer_id ts pm_id) st = (st', Ok tt) ->
  step st st' [FactOfferPaymentMethods offer_id ts pm_id] []
  /\ loader st' = loader st.
Proof.
  intros Hquiet [= <-]. split; [| reflexivity].
  unfold step, objects, no_pending_facts in *. cbn [loader rows pending].
  refine (conj (cache_grows_refl _) (conj _ (conj _ (conj eq_refl (conj _ _))))).
  - exists []. rewrite app_nil_r. reflexivity.
  - rewrite app_assoc. reflexivity.
  - rewrite app_nil_r. reflexivity.
  - apply Forall_app. split; [exact Hquiet | repeat constructor].
Qed.

Lemma dimension_step_is_step (st st' : State) :
  dimension_step st st' ->
  exists added,
    step st st' added []
    /\ List.filter is_fact added = [] /\ List.filter is_bridge added = [].
Proof.
  intros (added & Hstep & Hdim). exists added.
  split; [exact Hstep | apply dimension_has_no_fact, Hdim].
Qed.

(** The bridge loop of one fact, when it returns: no fact is stored,
    and the bridge objects added are one for each payment method, in
    order, under the key of the fact. *)
Lemma add_bridge_rows_ok (offer_id ts : Z) (pms : list pyval) :
  forall st st',
    no_pending_facts st ->
    add_bridge_rows store offer_id ts pms st = (st', Ok tt) ->
    exists added,
      step st st' added []
      /\ Forall2 (bridge_of (loader st') ts offer_id) pms
           (List.filter is_bridge added).
Proof.
  induction pms as [| pm pms IH]; intros st st' Hquiet Hrun;
    cbn [add_bridge_rows] in Hrun.
  - apply ret_ok in Hrun as [_ ->]. exists [].
    split; [apply step_refl, Hquiet | constructor].
  - apply mbind_ok in Hrun as (identifier & s0 & Hid & Hrun).
    apply lift_ok in Hid as [Hid ->].
    apply mbind_ok in Hrun as (name & s1 & H1 & Hrun).
    apply lift_ok in H1 as [_ ->].
    apply mbind_ok in Hrun as (pm_id & st1 & Hlookup & Hrun).
    apply payment_method_lookup_ok in Hlookup as (k & -> & Hdim & Hbound);
      [| exact Hquiet].
    destruct (dimension_step_grows _ _ Hdim) as [_ Hquiet1].
    apply dimension_step_is_step in Hdim as (added1 & Hstep1 & Hf1 & Hb1).
    apply mbind_ok in Hrun as ([] & st2 & Hadd & Hrun).
    apply session_add_bridge_ok in Hadd as [Hstep2 Hloader2];
      [| exact Hquiet1].
    assert (Hquiet2 : no_pending_facts st2) by apply Hstep2.
    destruct (IH st2 st' Hquiet2 Hrun) as (added3 & Hstep3 & Hgroup).
    exists (added1 ++ [FactOfferPaymentMethods offer_id ts pm_id] ++ added3)%list.
    split.
    + apply (step_trans _ _ _ _ _ [] [] Hstep1).
      apply (step_trans _ _ _ _ _ [] [] Hstep2 Hstep3).
    + rewrite !List.filter_app, Hb1. cbn [app List.filter is_bridge].
      constructor; [| exact Hgroup].
      exists k, pm_id. repeat split; [exact Hid |].
      destruct Hstep3 as ((_ & _ & Hp & _) & _).
      eapply lookup_weaken; [| exact Hp]. rewrite Hloader2. exact Hbound.
Qed.

Lemma fact_is_no_bridge (r : Row) : is_fact r = true -> is_bridge r = false.
Proof. destruct r; try discriminate; reflexivity. Qed.

(** The loop body of [_load_facts] for one offer, when it returns:
    one fact is stored, the fact of the offer, and the bridge objects
    added are those of its payment methods under the key of that
    fact. *)
Lemma load_fact_ok (batch_id : string) (ts : Z) (offer : pyval)
    (st st' : State) :
  no_pending_facts st ->
  load_fact store batch_id ts offer st = (st', Ok tt) ->
  exists added offer_id fact pms,
    step st st' added [(offer_id, fact)]
    /\ fact_of (loader st') batch_id ts offer fact
    /\ payment_methods offer = Ok pms
    /\ Forall2 (bridge_of (loader st') ts offer_id) pms
         (List.filter is_bridge added).
Proof.
  intros Hquiet Hrun. unfold load_fact in Hrun.
  apply mbind_ok in Hrun as ([[crypto_id fiat_id] advertiser_sk] & st1
                             & Hres & Hrun).
  apply resolve_offer_ok in Hres as [Hdim Hresolved]; [| exact Hquiet].
  destruct (dimension_step_grows _ _ Hdim) as [_ Hquiet1].
  apply dimension_step_is_step in Hdim as (added1 & Hstep1 & Hf1 & Hb1).
  apply mbind_ok in Hrun as (fact & s0 & Hfact & Hrun).
  apply lift_ok in Hfact as [Hfact ->].
  pose proof (fact_of_offer_is_fact _ _ _ _ _ _ _ Hfact) as Hisfact.
  apply mbind_ok in Hrun as (offer_id & st2 & Hadd & Hrun).
  apply add_and_flush_ok in Hadd
    as (Hloader2 & _ & Hextends2 & Hobjects2 & Hfacts2 & Hquiet2);
    [| exact Hquiet1].
  rewrite Hisfact in Hfacts2.
  assert (Hstep2 : step st1 st2 [fact] [(offer_id, fact)]).
  { refine (conj _ (conj Hextends2 (conj Hobjects2 (conj _ (conj Hfacts2 Hquiet2))))).
    - rewrite Hloader2. apply cache_grows_refl.
    - cbn. rewrite Hisfact. reflexivity. }
  apply mbind_ok in Hrun as (raw & s1 & Hraw & Hrun).
  apply lift_ok in Hraw as [Hraw ->].
  apply mbind_ok in Hrun as (pms & s2 & Hpms & Hrun).
  apply lift_ok in Hpms as [Hpms ->].
  destruct (add_bridge_rows_ok offer_id ts pms st2 st' Hquiet2 Hrun)
    as (added3 & Hstep3 & Hgroup).
  exists (added1 ++ [fact] ++ added3)%list, offer_id, fact, pms.
  refine (conj _ (conj _ (conj _ _))).
  - apply (step_trans _ _ _ _ _ [] [(offer_id, fact)] Hstep1).
    apply (step_trans _ _ _ _ _ [(offer_id, fact)] [] Hstep2 Hstep3).
  - exists crypto_id, fiat_id, advertiser_sk. split; [| exact Hfact].
    eapply resolved_grows; [| exact Hresolved].
    eapply cache_grows_trans; [apply Hstep2 | apply Hstep3].
  - unfold payment_methods. rewrite Hraw. exact Hpms.
  - rewrite !List.filter_app, Hb1. cbn [app List.filter].
    rewrite (fact_is_no_bridge fact Hisfact). exact Hgroup.
Qed.

(** The loop of [_load_facts], when it returns: the facts stored and
    the bridge objects added are those of the batch. *)
Lemma load_facts_from_ok (batch_id : string) (ts : Z) (offers : list pyval) :
  forall st st',
    no_pending_facts st ->
    load_facts_from store batch_id ts offers st = (st', Ok tt) ->
    exists added new_facts,
      step st st' added new_facts
      /\ batch_stored (loader st') batch_id ts offers new_facts
           (List.filter is_bridge added).
Proof.
  induction offers as [| offer offers IH]; intros st st' Hquiet Hrun;
    cbn [load_facts_from] in Hrun.
  - apply ret_ok in Hrun as [_ ->]. exists [], [].
    split; [apply step_refl, Hquiet | constructor].
  - apply mbind_ok in Hrun as ([] & st1 & Hfact & Hrun).
    apply load_fact_ok in Hfact
      as (added1 & offer_id & fact & pms & Hstep1 & Hof & Hpms & Hgroup);
      [| exact Hquiet].
    assert (Hquiet1 : no_pending_facts st1) by apply Hstep1.
    destruct (IH st1 st' Hquiet1 Hrun) as (added2 & new_facts & Hstep2 & Hrest).
    exists (added1 ++ added2)%list, ((offer_id, fact) :: new_facts).
    split; [apply (step_trans _ _ _ _ _ [(offer_id, fact)] _ Hstep1 Hstep2) |].
    rewrite List.filter_app.
    assert (Hgrows : cache_grows (loader st1) (loader st')) by apply Hstep2.
    econstructor.
    + eapply fact_of_grows; eassumption.
    + exact Hpms.
    + eapply Forall2_impl; [exact Hgroup |].
      intros pm r. apply bridge_of_grows, Hgrows.
    + exact Hrest.
Qed.

Lemma batch_stored_length (L : DataLoader) (batch_id : string) (ts : Z)
    (offers : list pyval) (new_facts : list Stored) (new_bridges : list Row) :
  batch_stored L batch_id ts offers new_facts new_bridges ->
  length new_facts = length offers.
Proof. induction 1; cbn; congruence. Qed.

(** Both phases of a batch, when they return. *)
Lemma load_offers_body_ok (offers : list pyval) (batch_id : string)
    (st st' : State) :
  no_pending_facts st ->
  load_offers_body store offers batch_id st = (st', Ok tt) ->
  exists added new_facts ts,
    step st st' added new_facts
    /\ batch_stored (loader st') batch_id ts offers new_facts
         (List.filter is_bridge added).
Proof.
  intros Hquiet Hrun. unfold load_offers_body, _load_facts in Hrun.
  apply mbind_ok in Hrun as ([] & st1 & Hdims & Hrun).
  apply load_dimensions_ok in Hdims; [| exact Hquiet].
  destruct (dimension_step_grows _ _ Hdims) as [_ Hquiet1].
  apply dimension_step_is_step in Hdims as (added1 & Hstep1 & Hf1 & Hb1).
  apply mbind_ok in Hrun as ([] & st3 & Hfacts & Hrun).
  apply mbind_ok in Hfacts as (ts & st2 & Hclock & Hfacts).
  unfold datetime_utcnow in Hclock. injection Hclock as <- <-.
  apply load_facts_from_ok in Hfacts as (added2 & new_facts & Hstep2 & Hbatch);
    [| exact Hquiet1].
  injection Hrun as <-.
  exists (added1 ++ added2)%list, new_facts, (utcnow store (clock st1)).
  split.
  - apply (step_trans st st1 _ added1 added2 [] new_facts Hstep1).
    destruct Hstep2 as (Hc & Hi & Ho & Hf & Hr & Hq).
    refine (conj Hc (conj Hi (conj Ho (conj Hf (conj Hr Hq))))).
  - rewrite List.filter_app, Hb1. cbn [app loader].
    eapply batch_stored_grows; [| exact Hbatch].
    repeat split; reflexivity.
Qed.

Lemma filter_map_snd (keep : Row -> bool) (stored : list Stored) :
  map snd (List.filter (fun s => keep (snd s)) stored)
  = List.filter keep (map snd stored).
Proof.
  induction stored as [| s stored IH]; cbn; [reflexivity |].
  destruct (keep (snd s)); cbn; rewrite IH; reflexivity.
Qed.

(** A batch that [load_offers] commits: the rows of before are kept
    and rows are appended, among them one fact for each offer, in
    order, with the batch id and one timestamp for the whole batch,
    and for each fact one bridge row for each payment method of its
    offer, with the key of that fact and the same timestamp. The
    dimension keys of the facts and bridge rows are those the loader's
    caches hold for the natural keys of the offers. *)
Theorem load_offers_stores_batch (offers : list pyval) (batch_id : string)
    (L : DataLoader) (db : Database) :
  offers <> [] ->
  snd (load_offers store offers batch_id L db) = Ok tt ->
  exists new ts,
    committed (snd (fst (load_offers store offers batch_id L db)))
    = (committed db ++ new)%list
    /\ batch_stored (fst (fst (load_offers store offers batch_id L db)))
         batch_id ts offers (facts new) (map snd (bridges new))
    /\ length (facts new) = length offers
    /\ cache_grows L (fst (fst (load_offers store offers batch_id L db))).
Proof.
  intros Hsome. unfold load_offers.
  destruct offers as [| offer rest]; [destruct (Hsome eq_refl) |].
  unfold get_session.
  destruct (load_offers_body store (offer :: rest) batch_id
              (session_begin L db)) as [st1 [[] | e]] eqn:Hbody;
    [| discriminate].
  apply load_offers_body_ok in Hbody
    as (added & new_facts & ts & Hstep & Hbatch); [| constructor].
  destruct Hstep as (Hgrows & (ins & Hins) & Hobjects & _ & Hfacts & Hquiet1).
  destruct (session_flush_appends store st1)
    as (inserted & rest' & Hrows & Hpending & Hall & _ & Hloader).
  destruct (session_flush store st1) as [st2 [[] | e]]; [| discriminate].
  cbn [fst snd] in *. intros _.
  rewrite (Hall eq_refl), app_nil_r in Hpending.
  cbn [session_begin rows loader] in Hins, Hgrows.
  unfold objects in Hobjects. cbn [session_begin rows pending] in Hobjects.
  rewrite app_nil_r in Hobjects.
  unfold facts in Hfacts. cbn [session_begin rows] in Hfacts.
  exists (ins ++ inserted)%list, ts. cbn [committed loader].
  assert (Hadded : added = map snd (ins ++ inserted)).
  { rewrite Hins, Hpending, List.map_app, <- app_assoc in Hobjects.
    apply app_inv_head in Hobjects. rewrite List.map_app. congruence. }
  assert (Hnew : facts (ins ++ inserted) = new_facts).
  { rewrite Hins in Hfacts. unfold facts. rewrite !List.filter_app in *.
    apply app_inv_head in Hfacts. rewrite Hfacts.
    replace (List.filter (fun s => is_fact (snd s)) inserted)
      with (@nil Stored); [apply app_nil_r |].
    symmetry. apply filter_none.
    unfold no_pending_facts in Hquiet1. rewrite Hpending in Hquiet1.
    clear -Hquiet1. induction inserted as [| s inserted IH]; [constructor |].
    inversion Hquiet1; subst. constructor; auto. }
  refine (conj _ (conj _ (conj _ _))).
  - rewrite Hrows, Hins, app_assoc. reflexivity.
  - rewrite Hloader, Hnew. unfold bridges.
    rewrite filter_map_snd, <- Hadded. exact Hbatch.
  - rewrite Hnew. eapply batch_stored_length, Hbatch.
  - rewrite Hloader. exact Hgrows.
Qed.

End Runs.

(** ** One row for each fiat code *)

Section FiatUnique.

Import Loader LoaderTerms InvariantTerms UniqueTerms.

Variable store : Storage.

(** Rows flushed from a pending list that a filter drops, possibly
    followed by one object [r]: the only row the filter can keep
    is [r]. *)
Lemma filter_flushed (keep : Row -> bool) (inserted : list Stored)
    (waiting rest : list Row) (r : Row) :
  Forall (fun x => keep x = false) waiting ->
  (waiting ++ [r] = map snd inserted ++ rest)%list ->
  List.filter (fun s => keep (snd s)) inserted = []
  \/ (keep r = true
      /\ exists id, List.filter (fun s => keep (snd s)) inserted = [(id, r)]).
Proof.
  revert waiting. induction inserted as [| [id x] inserted IH];
    intros waiting Hquiet Heq; [left; reflexivity |].
  destruct waiting as [| y waiting]; cbn in Heq.
  - injection Heq as <- Hrest.
    destruct inserted; [| discriminate]. cbn.
    destruct (keep r) eqn:Hr; [right | left]; eauto.
  - injection Heq as <- Hrest. inversion Hquiet as [| ? ? Hy Hw]; subst.
    cbn. rewrite Hy. apply (IH waiting Hw Hrest).
Qed.

Lemma fiat_code_is_fiat (k : string) (r : Row) :
  is_fiat r = false -> has_currency_code k r = false.
Proof. destruct r; try reflexivity. discriminate. Qed.

Lemma add_and_flush_keeps_unique (r : Row) :
  is_fiat r = false -> preserves fiat_unique (add_and_flush store r).
Proof.
  intros Hr st [Hone Hquiet].
  destruct (add_and_flush_appends store r st)
    as (inserted & rest & Hrows & Heq & _ & Hpending & _).
  split; [| rewrite Hpending; constructor].
  intros k. rewrite Hrows. unfold fiat_rows. rewrite List.filter_app.
  destruct (filter_flushed (has_currency_code k) inserted (pending st) rest r)
    as [-> | (Hkeep & _)]; [| exact Heq | rewrite app_nil_r; apply Hone |].
  - eapply Forall_impl; [exact Hquiet |]. intros x. apply fiat_code_is_fiat.
  - rewrite (fiat_code_is_fiat k r Hr) in Hkeep. discriminate.
Qed.

Lemma unchanged_keeps_unique {A} (m : M A) :
  (forall st, rows (fst (m st)) = rows st
              /\ pending (fst (m st)) = pending st) ->
  preserves fiat_unique m.
Proof.
  intros Hsame st [Hone Hquiet]. destruct (Hsame st) as [Hrows Hpending].
  split; [rewrite Hrows | rewrite Hpending]; assumption.
Qed.

Ltac other_lookup :=
  apply preserves_mbind; [apply preserves_lift | intros k];
  intros st H;
  match goal with
  | |- context [match ?hit with Some _ => _ | None => _ end] => destruct hit
  end; [exact H |];
  revert st H;
  apply preserves_mbind;
    [apply unchanged_keeps_unique; intros st; split; reflexivity |];
  intros [[id row] |];
  repeat (apply preserves_mbind; [| intros ?]);
  try apply preserves_ret;
  try (apply unchanged_keeps_unique; intros st; split; reflexivity);
  try (apply add_and_flush_keeps_unique; reflexivity).

Lemma crypto_keeps_unique (symbol : pyval) :
  preserves fiat_unique (_get_or_create_crypto store symbol).
Proof. unfold _get_or_create_crypto. other_lookup. Qed.

Lemma payment_method_keeps_unique (code name : pyval) :
  preserves fiat_unique (_get_or_create_payment_method store code name).
Proof. unfold _get_or_create_payment_method. other_lookup. Qed.

Lemma advertiser_keeps_unique (adv_id nickname : pyval) :
  preserves fiat_unique (_get_or_create_advertiser store adv_id nickname).
Proof. unfold _get_or_create_advertiser. other_lookup. Qed.

Lemma find_none_fiat_rows (k : string) (stored : list Stored) :
  List.find (fun s => has_currency_code k (snd s)) stored = None ->
  fiat_rows k stored = [].
Proof.
  induction stored as [| s stored IH]; cbn; [reflexivity |].
  destruct (has_currency_code k (snd s)); [discriminate | exact IH].
Qed.

(** A fiat lookup stores a row under a code only when the lookup of
    that code found none. *)
Lemma fiat_keeps_unique (code : pyval) :
  preserves fiat_unique (_get_or_create_fiat store code).
Proof.
  destruct code as [| | | | k | | |]; try (intros st H; exact H).
  intros st [Hone Hquiet]. rewrite fiat_lookup.
  destruct (_fiat_cache (loader st) !! k) as [hit |]; [split; assumption |].
  destruct (List.find (fun s => has_currency_code k (snd s)) (rows st))
    as [[id row] |] eqn:Hfind; [split; assumption |].
  destruct (add_and_flush_appends store (DimFiatCurrencies k k) st)
    as (inserted & rest & Hrows & Heq & _ & Hpending & _).
  assert (Hst' : rows (fst ((id <~ add_and_flush store (DimFiatCurrencies k k) ;;
                             _ <~ with_loader (cache_fiat k id) ;;
                             ret id) st))
                 = rows (fst (add_and_flush store (DimFiatCurrencies k k) st))
                 /\ pending (fst ((id <~ add_and_flush store
                                          (DimFiatCurrencies k k) ;;
                                   _ <~ with_loader (cache_fiat k id) ;;
                                   ret id) st))
                    = pending (fst (add_and_flush store
                                      (DimFiatCurrencies k k) st))).
  { unfold mbind.
    destruct (add_and_flush store (DimFiatCurrencies k k) st)
      as [st2 [id | e]]; cbn; auto. }
  destruct Hst' as [Hrows' Hpending']. split.
  - intros k'. rewrite Hrows', Hrows. unfold fiat_rows.
    rewrite List.filter_app.
    destruct (filter_flushed (has_currency_code k') inserted (pending st)
                rest (DimFiatCurrencies k k))
      as [-> | (Hkeep & id & ->)]; [| exact Heq | |].
    + eapply Forall_impl; [exact Hquiet |]. intros x. apply fiat_code_is_fiat.
    + rewrite app_nil_r. apply Hone.
    + cbn in Hkeep. apply String.eqb_eq in Hkeep. subst k'.
      fold (fiat_rows k (rows st)).
      rewrite (find_none_fiat_rows k (rows st) Hfind). cbn. lia.
  - rewrite Hpending', Hpending. constructor.
Qed.

Lemma flush_keeps_unique : preserves fiat_unique (session_flush store).
Proof.
  intros st [Hone Hquiet].
  destruct (session_flush_appends store st)
    as (inserted & rest & Hrows & Heq & _ & Hpending & _).
  split; [| rewrite Hpending; constructor].
  intros k. rewrite Hrows. unfold fiat_rows.
  rewrite filter_app_dropped; [apply Hone |].
  rewrite Heq in Hquiet. apply Forall_app in Hquiet.
  destruct Hquiet as [Hall _].
  clear -Hall. induction inserted as [| s inserted IH]; [constructor |].
  inversion Hall; subst. constructor; [apply fiat_code_is_fiat |]; auto.
Qed.

(** Every batch, committed or rolled back, leaves at most one row for
    each fiat code. *)
Lemma load_offers_keeps_unique (offers : list pyval) (batch_id : string)
    (L : DataLoader) (db : Database) :
  one_row_per_code (committed db) ->
  one_row_per_code
    (committed (snd (fst (load_offers store offers batch_id L db)))).
Proof.
  intros Hone. unfold load_offers.
  destruct offers as [| offer rest]; [exact Hone |].
  unfold get_session.
  assert (Hbody : fiat_unique
                    (fst (load_offers_body store (offer :: rest) batch_id
                            (session_begin L db)))).
  { apply (load_offers_body_preserves store fiat_unique).
    - apply crypto_keeps_unique.
    - apply fiat_keeps_unique.
    - apply payment_method_keeps_unique.
    - apply advertiser_keeps_unique.
    - intros offer_id ts pm_id st [H1 H2]. split; [exact H1 |].
      cbn. apply Forall_app. split; [exact H2 | repeat constructor].
    - intros fact Hfact. apply add_and_flush_keeps_unique.
      destruct fact; try discriminate. reflexivity.
    - intros st H. exact H.
    - intros n st H. exact H.
    - split; [exact Hone | constructor]. }
  destruct (load_offers_body store (offer :: rest) batch_id
              (session_begin L db)) as [st1 [[] | e]]; [| exact Hone].
  cbn in Hbody. apply flush_keeps_unique in Hbody.
  destruct (session_flush store st1) as [st2 [[] | e]]; [| exact Hone].
  apply Hbody.
Qed.

End FiatUnique.

Section FiatAcrossBatches.

Import Loader LoaderTerms InvariantTerms BatchTerms FiatTerms UniqueTerms.

Variable store : Storage.

(** A batch, committed or rolled back, keeps every binding of the
    fiat cache and stores no further row under a bound code. *)
Lemma load_offers_keeps_fiat (offers : list pyval) (batch_id : string)
    (L : DataLoader) (db : Database) (c : string) (i : Z) :
  _fiat_cache L !! c = Some i ->
  _fiat_cache (fst (fst (load_offers store offers batch_id L db))) !! c
  = Some i
  /\ fiat_rows c (committed (snd (fst (load_offers store offers batch_id L db))))
     = fiat_rows c (committed db).
Proof.
  intros Hbound. unfold load_offers.
  destruct offers as [| offer rest]; [auto |].
  unfold get_session.
  assert (Hbody : fiat_bound c i (fiat_rows c (committed db))
                    (fst (load_offers_body store (offer :: rest) batch_id
                            (session_begin L db)))).
  { apply load_offers_body_keeps_fiat.
    refine (conj Hbound (conj eq_refl _)). constructor. }
  destruct (load_offers_body store (offer :: rest) batch_id
              (session_begin L db)) as [st1 [[] | e]]; cbn in Hbody.
  - apply (flush_keeps_fiat store) in Hbody.
    destruct (session_flush store st1) as [st2 [[] | e]]; cbn in Hbody |- *;
      destruct Hbody as (Hcache & Hrows & _); auto.
  - cbn. destruct Hbody as (Hcache & _). auto.
Qed.

Lemma fact_of_offer_fiat_id (offer : pyval) (batch_id : string)
    (ts crypto_id fiat_id advertiser_sk : Z) (fact : Row) :
  fact_of_offer offer batch_id ts crypto_id fiat_id advertiser_sk = Ok fact ->
  fiat_id_of fact = Some fiat_id.
Proof.
  unfold fact_of_offer. intros H.
  repeat match type of H with
         | bind ?r _ = _ => destruct r; cbn [bind] in H; [| discriminate]
         end.
  injection H as <-. reflexivity.
Qed.

(** The facts of a stored batch carry, for the fiat codes the cache
    binds, the keys the cache binds them to. *)
Lemma batch_stored_carries (L' : DataLoader) (batch_id : string) (ts : Z)
    (offers : list pyval) (new_facts : list Stored) (new_bridges : list Row)
    (c : string) (i : Z) :
  _fiat_cache L' !! c = Some i ->
  batch_stored L' batch_id ts offers new_facts new_bridges ->
  facts_carry c i offers new_facts.
Proof.
  intros Hbound. unfold facts_carry.
  induction 1 as [| offer offers offer_id fact new_facts pms group
                    new_bridges Hfact _ _ _ IH]; constructor; [| exact IH].
  intros Hnames. cbn [snd].
  destruct Hfact as (crypto_id & fiat_id & advertiser_sk & Hres & Hrow).
  destruct Hres as (asset & fiat & advertiser & adv_id & _ & _ & Hfiat
                    & Hcache & _).
  cbn [fst snd] in Hcache.
  rewrite (fact_of_offer_fiat_id _ _ _ _ _ _ _ Hrow).
  assert (fiat = c) as -> by congruence. congruence.
Qed.

(** A batch that commits under a loader whose cache binds [c] to [i]
    stores, for the offers that name [c], facts that carry [i]. *)
Lemma committed_facts_carry (offers : list pyval) (batch_id : string)
    (L : DataLoader) (db : Database) (c : string) (i : Z) :
  offers <> [] ->
  snd (load_offers store offers batch_id L db) = Ok tt ->
  _fiat_cache (fst (fst (load_offers store offers batch_id L db))) !! c
  = Some i ->
  exists new,
    committed (snd (fst (load_offers store offers batch_id L db)))
    = (committed db ++ new)%list
    /\ facts_carry c i offers (facts new).
Proof.
  intros Hsome Hok Hbound.
  destruct (load_offers_stores_batch store offers batch_id L db Hsome Hok)
    as (new & ts & Hrows & Hbatch & _).
  exists new. split; [exact Hrows |].
  eapply batch_stored_carries; eassumption.
Qed.

(** C7. When a first [load_offers] call has resolved the fiat code
    [c] to the key [i], a second call on the same loader resolves it
    to [i] again: every lookup of [c] returns [i] from the cache and
    changes nothing, the cache still says [i] when the call is over,
    and the rows stored under [c] are those of before, none added.
    The facts either call commits for offers that name [c] carry the
    key [i]. A lookup that returns a key binds the code to that key,
    so each code has one key for the life of the loader; and a
    warehouse with at most one row for each code stays so. *)
Theorem fiat_resolution_stable (offers1 offers2 : list pyval)
    (batch1 batch2 : string) (L : DataLoader) (db : Database)
    (c : string) (i : Z) :
  let first := load_offers store offers1 batch1 L db in
  let second :=
    load_offers store offers2 batch2 (fst (fst first)) (snd (fst first)) in
  _fiat_cache (fst (fst first)) !! c = Some i ->
  _fiat_cache (fst (fst second)) !! c = Some i
  /\ fiat_rows c (committed (snd (fst second)))
     = fiat_rows c (committed (snd (fst first)))
  /\ (offers1 <> [] -> snd first = Ok tt ->
      exists new,
        committed (snd (fst first)) = (committed db ++ new)%list
        /\ facts_carry c i offers1 (facts new))
  /\ (offers2 <> [] -> snd second = Ok tt ->
      exists new,
        committed (snd (fst second))
        = (committed (snd (fst first)) ++ new)%list
        /\ facts_carry c i offers2 (facts new))
  /\ (forall known st,
        fiat_bound c i known st ->
        fiat_bound c i known
          (fst (load_offers_body store offers2 batch2 st)))
  /\ (forall st,
        _fiat_cache (loader st) !! c = Some i ->
        _get_or_create_fiat store (PStr c) st = (st, Ok i))
  /\ (forall st j,
        snd (_get_or_create_fiat store (PStr c) st) = Ok j ->
        _fiat_cache (loader (fst (_get_or_create_fiat store (PStr c) st))) !! c
        = Some j)
  /\ (one_row_per_code (committed db) ->
      one_row_per_code (committed (snd (fst first)))
      /\ one_row_per_code (committed (snd (fst second)))).
Proof.
  intros first second Hbound.
  destruct (load_offers_keeps_fiat offers2 batch2 (fst (fst first))
              (snd (fst first)) c i Hbound) as [Hcache Hrows].
  refine (conj Hcache (conj Hrows (conj _ (conj _ (conj _ (conj _
            (conj _ _))))))).
  - intros Hsome Hok. apply committed_facts_carry; assumption.
  - intros Hsome Hok. apply committed_facts_carry; assumption.
  - intros known st. apply load_offers_body_keeps_fiat.
  - intros st. apply fiat_lookup_hit.
  - intros st j. apply fiat_lookup_binds.
  - intros Hone.
    assert (Hfirst : one_row_per_code (committed (snd (fst first))))
      by apply load_offers_keeps_unique, Hone.
    split; [exact Hfirst | apply load_offers_keeps_unique, Hfirst].
Qed.

End FiatAcrossBatches.

(** Two batches that both name VES, loaded into an empty warehouse:
    VES has the key 1 after the first and after the second. *)
Lemma fiat_resolution_stable_witness :
  let first :=
    Loader.load_offers LoaderTerms.accept_all WarehouseSamples.first_batch
      "batch-1" Loader.new_loader LoaderTerms.empty_db in
  let second :=
    Loader.load_offers LoaderTerms.accept_all WarehouseSamples.second_batch
      "batch-2" (fst (fst first)) (snd (fst first)) in
  Loader._fiat_cache (fst (fst first)) !! "VES" = Some 1
  /\ Loader._fiat_cache (fst (fst second)) !! "VES" = Some 1.
Proof.
  intros first second.
  assert (H : Loader._fiat_cache (fst (fst first)) !! "VES" = Some 1)
    by (vm_compute; reflexivity).
  split; [exact H |].
  exact (proj1 (fiat_resolution_stable LoaderTerms.accept_all
                  WarehouseSamples.first_batch WarehouseSamples.second_batch
                  "batch-1" "batch-2" Loader.new_loader LoaderTerms.empty_db
                  "VES" 1 H)).
Defined.

(** The facts of both batches that name VES carry its key 1; the
    fact that names USD carries the key 2. *)
Example ves_facts_share_key :
  let first :=
    Loader.load_offers LoaderTerms.accept_all WarehouseSamples.first_batch
      "batch-1" Loader.new_loader LoaderTerms.empty_db in
  let second :=
    Loader.load_offers LoaderTerms.accept_all WarehouseSamples.second_batch
      "batch-2" (fst (fst first)) (snd (fst first)) in
  map (fun s => match snd s with
                | Loader.FactOffers id _ _ _ fiat_id _ _ _ _ _ _ _ _ _ _ =>
                    (id, fiat_id)
                | _ => (PNone, 0)
                end)
      (LoaderTerms.facts (Loader.committed (snd (fst second))))
  = [ (PStr "o1", 1); (PStr "o2", 1); (PStr "o3", 1); (PStr "o4", 2) ].
Proof. vm_compute. reflexivity. Qed.

(** The binding outlives a rollback: a first batch that fails after
    it has resolved VES leaves no row, and the second batch still
    resolves VES to the key of the first. *)
Example binding_outlives_rollback :
  let first :=
    Loader.load_offers LoaderTerms.accept_all [LoaderTerms.parsed_offer]
      "batch-1" Loader.new_loader LoaderTerms.empty_db in
  let second :=
    Loader.load_offers LoaderTerms.accept_all WarehouseSamples.second_batch
      "batch-2" (fst (fst first)) (snd (fst first)) in
  Loader.committed (snd (fst first)) = []
  /\ Loader._fiat_cache (fst (fst first)) !! "VES" = Some 1
  /\ Loader._fiat_cache (fst (fst second)) !! "VES" = Some 1
  /\ LoaderTerms.fiat_rows "VES" (Loader.committed (snd (fst second))) = [].
Proof. vm_compute. repeat split. Qed.

(** ** The token bucket over a run of calls *)

Section LimiterRuns.

Import RateLimiter LimiterTerms.
Local Open Scope Q_scope.

(** The ways through [acquire]: enough tokens, a wait that is slept,
    and the three raises. *)
Lemma acquire_cases (now now_after : Q) (n : Z) (s : TokenBucketRateLimiter) :
  let o := acquire now now_after n s in
  let r := refilled s now in
  (inject_Z n <= r
   /\ returned o = Ok 0 /\ clock_readings o = 1%nat
   /\ tokens (after o) = r - inject_Z n /\ last_refill (after o) = now
   /\ total_requests (after o) = (total_requests s + 1)%Z
   /\ total_waits (after o) = total_waits s)
  \/ (r < inject_Z n /\ 0 < tokens_per_second s
      /\ returned o = Ok ((inject_Z n - r) / tokens_per_second s)
      /\ clock_readings o = 2%nat
      /\ tokens (after o) = 0 /\ last_refill (after o) = now_after
      /\ total_requests (after o) = (total_requests s + 1)%Z
      /\ total_waits (after o) = (total_waits s + 1)%Z)
  \/ (r < inject_Z n
      /\ (tokens_per_second s <= 0
          \/ sleep_max < (inject_Z n - r) / tokens_per_second s)
      /\ (exists e, returned o = Raise e) /\ clock_readings o = 1%nat
      /\ tokens (after o) = r /\ last_refill (after o) = now
      /\ total_requests (after o) = total_requests s
      /\ total_waits (after o) = total_waits s).
Proof.
  unfold acquire.
  cbn [tokens tokens_per_second last_refill total_requests total_waits
       rate burst_size].
  destruct (Qle_bool (inject_Z n) (refilled s now)) eqn:Hle.
  { left. apply Qle_bool_iff in Hle. cbn. repeat split; assumption. }
  assert (Hshort : refilled s now < inject_Z n).
  { apply Qnot_le_lt. intros H. apply Qle_bool_iff in H. congruence. }
  right.
  destruct (Qeq_bool (tokens_per_second s) 0) eqn:Hzero.
  { right. apply Qeq_bool_iff in Hzero. cbn.
    repeat split; try assumption; [left; rewrite Hzero; apply Qle_refl | eauto]. }
  assert (Hnz : ~ tokens_per_second s == 0).
  { intros H. apply Qeq_bool_iff in H. congruence. }
  destruct (Qltb ((inject_Z n - refilled s now) / tokens_per_second s) 0)
    eqn:Hneg.
  - right. cbn. repeat split; try assumption; [| eauto].
    left. apply Qltb_true in Hneg.
    apply Qnot_lt_le. intros Hpos.
    pose proof (wait_positive s now n Hpos Hshort). lra.
  - apply Qltb_false in Hneg.
    assert (Hrate : 0 < tokens_per_second s).
    { destruct (Qlt_le_dec 0 (tokens_per_second s)) as [Hpos | Hnonpos];
        [assumption | exfalso].
      assert (Hlt : tokens_per_second s < 0).
      { apply Qle_lteq in Hnonpos.
        destruct Hnonpos; [assumption | contradiction]. }
      pose proof (wait_negative s now n Hlt Hshort). lra. }
    destruct (Qltb sleep_max
                ((inject_Z n - refilled s now) / tokens_per_second s))
      eqn:Hlong.
    + right. cbn. apply Qltb_true in Hlong.
      repeat split; try assumption; [right; exact Hlong | eauto].
    + left. cbn. repeat split; assumption.
Qed.

Lemma refilled_le_filled (s : TokenBucketRateLimiter) (now : Q) :
  refilled s now <= tokens s + (now - last_refill s) * tokens_per_second s.
Proof.
  unfold refilled, py_min.
  destruct (Qltb _ _) eqn:Hlt; [apply Qle_refl |].
  apply Qltb_false in Hlt. exact Hlt.
Qed.

(** When time has not run backwards and the rate is not negative, the
    refill loses no token of a bucket within its capacity. *)
Lemma refilled_ge_tokens (s : TokenBucketRateLimiter) (now : Q) :
  0 <= tokens_per_second s -> last_refill s <= now ->
  tokens s <= inject_Z (burst_size s) ->
  tokens s <= refilled s now.
Proof.
  intros Hrate Hclock Hcap. unfold refilled, py_min.
  assert (0 <= (now - last_refill s) * tokens_per_second s).
  { apply Qmult_le_0_compat; [lra | assumption]. }
  destruct (Qltb _ _); [lra | assumption].
Qed.

Lemma acquire_all_cons (c : Call) (rest : list Call)
    (s : TokenBucketRateLimiter) :
  let o := acquire (at_entry c) (after_sleep c) (amount c) s in
  acquire_all (c :: rest) s
  = (fst (acquire_all rest (after o)), returned o :: snd (acquire_all rest (after o))).
Proof.
  cbn [acquire_all]. destruct (acquire_all rest _). reflexivity.
Qed.

(** X1. Whatever the clock does, a call that returns leaves a token count
    between zero and the capacity, and the wait it returns is not
    negative: it is zero exactly when the clock was read once. *)
Theorem acquire_keeps_tokens_in_range (now now_after : Q) (n : Z)
    (s : TokenBucketRateLimiter) (wait : Q) :
  (0 <= n)%Z -> (0 <= burst_size s)%Z ->
  returned (acquire now now_after n s) = Ok wait ->
  0 <= tokens (after (acquire now now_after n s))
  /\ tokens (after (acquire now now_after n s)) <= inject_Z (burst_size s)
  /\ burst_size (after (acquire now now_after n s)) = burst_size s
  /\ 0 <= wait
  /\ (wait == 0 <-> clock_readings (acquire now now_after n s) = 1%nat).
Proof.
  intros Hn Hburst Hret.
  assert (Hsame : burst_size (after (acquire now now_after n s)) = burst_size s).
  { unfold acquire.
    repeat match goal with |- context [if ?b then _ else _] => destruct b end;
      reflexivity. }
  pose proof (refilled_le_capacity s now) as Hcap.
  assert (0 <= inject_Z n) by (change 0 with (inject_Z 0); rewrite <- Zle_Qle; lia).
  assert (0 <= inject_Z (burst_size s))
    by (change 0 with (inject_Z 0); rewrite <- Zle_Qle; lia).
  destruct (acquire_cases now now_after n s)
    as [(Hle & Hr & Hreads & Htok & _) | [(Hlt & Hrate & Hr & Hreads & Htok & _)
       | (_ & _ & [e He] & _)]].
  - rewrite Hr in Hret. injection Hret as <-. rewrite Htok, Hreads.
    repeat split; try lra; try exact Hsame; intros; reflexivity.
  - rewrite Hr in Hret. injection Hret as <-. rewrite Htok, Hreads.
    pose proof (wait_positive s now n Hrate Hlt) as Hpos.
    repeat split; try lra; try exact Hsame; try discriminate.
  - rewrite He in Hret. discriminate.
Qed.

(** One call, honestly slept: what it grants plus what it leaves is at
    most what the bucket held plus the rate times the time between the
    two refill stamps. *)
Lemma acquire_within_budget (c : Call) (s : TokenBucketRateLimiter) :
  let o := acquire (at_entry c) (after_sleep c) (amount c) s in
  (clock_readings o = 2%nat ->
   forall wait, returned o = Ok wait -> at_entry c + wait <= after_sleep c) ->
  inject_Z (granted [c] [returned o]) + tokens (after o)
  <= tokens s
     + tokens_per_second s * (last_refill (after o) - last_refill s).
Proof.
  intros o Hsleep. subst o.
  pose proof (refilled_le_filled s (at_entry c)) as Hfill.
  destruct (acquire_cases (at_entry c) (after_sleep c) (amount c) s)
    as [(Hle & Hr & Hreads & Htok & Hlast & _)
       | [(Hlt & Hrate & Hr & Hreads & Htok & Hlast & _)
       | (_ & _ & [e He] & _ & Htok & Hlast & _)]];
    rewrite Htok, Hlast.
  - rewrite Hr. cbn [granted]. rewrite Z.add_0_r. lra.
  - rewrite Hr. cbn [granted]. rewrite Z.add_0_r.
    specialize (Hsleep Hreads _ Hr).
    assert (Hpaid : inject_Z (amount c) - refilled s (at_entry c)
                    <= tokens_per_second s * (after_sleep c - at_entry c)).
    { assert (Heq : inject_Z (amount c) - refilled s (at_entry c)
                    == tokens_per_second s
                       * ((inject_Z (amount c) - refilled s (at_entry c))
                          / tokens_per_second s)).
      { field. intros H. rewrite H in Hrate. exact (Qlt_irrefl 0 Hrate). }
      rewrite Heq. apply Qmult_le_l; [assumption | lra]. }
    lra.
  - rewrite He. cbn [granted]. change (inject_Z 0) with 0. lra.
Qed.

Lemma granted_cons (c : Call) (rest : list Call) (r : result Q)
    (results : list (result Q)) :
  granted (c :: rest) (r :: results)
  = (granted [c] [r] + granted rest results)%Z.
Proof.
  destruct r; cbn [granted]; lia.
Qed.

Lemma acquire_all_keeps_rate (calls : list Call) (s : TokenBucketRateLimiter) :
  tokens_per_second (fst (acquire_all calls s)) = tokens_per_second s.
Proof.
  revert s. induction calls as [| c rest IH]; intros s; [reflexivity |].
  rewrite acquire_all_cons. cbn [fst]. rewrite IH. apply acquire_keeps_rate.
Qed.

(** X2. Over any run of calls whose sleeps are honest, the tokens granted
    plus the tokens left are at most the tokens the bucket held at the
    start plus the rate times the time between the first and the last
    refill stamp: the limiter never grants more than its budget. *)
Theorem granted_within_budget (calls : list Call)
    (s : TokenBucketRateLimiter) :
  sleeps_in_full calls s ->
  inject_Z (granted calls (snd (acquire_all calls s)))
  + tokens (fst (acquire_all calls s))
  <= tokens s
     + tokens_per_second s
       * (last_refill (fst (acquire_all calls s)) - last_refill s).
Proof.
  revert s. induction calls as [| c rest IH]; intros s Hsleeps.
  { cbn [acquire_all granted fst snd]. change (inject_Z 0) with 0.
    assert (Hnone : tokens_per_second s * (last_refill s - last_refill s) == 0)
      by ring.
    rewrite Hnone. lra. }
  destruct Hsleeps as [Hsleep Hrest].
  rewrite acquire_all_cons. cbn [fst snd].
  rewrite granted_cons, inject_Z_plus.
  specialize (IH _ Hrest).
  pose proof (acquire_within_budget c s Hsleep) as Hstep. cbv zeta in Hstep.
  rewrite acquire_keeps_rate in IH.
  set (o := acquire (at_entry c) (after_sleep c) (amount c) s) in *.
  set (run := acquire_all rest (after o)) in *.
  set (rate := tokens_per_second s) in *.
  assert (Hsplit : rate * (last_refill (fst run) - last_refill s)
                   == rate * (last_refill (fst run) - last_refill (after o))
                      + rate * (last_refill (after o) - last_refill s)) by ring.
  rewrite Hsplit. lra.
Qed.

(** X3. A bucket within its capacity whose rate is not negative serves,
    under a clock that does not run backwards, every call of a run
    that asks for no more tokens than it holds without any wait. *)
Theorem burst_served_without_wait (calls : list Call)
    (s : TokenBucketRateLimiter) :
  Forall (fun c => (0 <= amount c)%Z) calls ->
  inject_Z (total_amount calls) <= tokens s ->
  tokens s <= inject_Z (burst_size s) ->
  0 <= tokens_per_second s ->
  chronological (last_refill s) calls ->
  snd (acquire_all calls s) = map (fun _ => Ok 0) calls.
Proof.
  revert s. induction calls as [| c rest IH];
    intros s Hamounts Htotal Hcap Hrate Hclock; [reflexivity |].
  apply Forall_cons_1 in Hamounts. destruct Hamounts as [Hn Hamounts].
  destruct Hclock as [Hnow Hclock].
  cbn [total_amount fold_right] in Htotal.
  fold (total_amount rest) in Htotal. rewrite inject_Z_plus in Htotal.
  assert (0 <= inject_Z (amount c))
    by (change 0 with (inject_Z 0); rewrite <- Zle_Qle; lia).
  assert (Hrest : 0 <= inject_Z (total_amount rest)).
  { change 0 with (inject_Z 0). rewrite <- Zle_Qle.
    clear - Hamounts. induction Hamounts; cbn; [lia |].
    fold (total_amount l). lia. }
  pose proof (refilled_ge_tokens s (at_entry c) Hrate Hnow Hcap) as Hkept.
  pose proof (refilled_le_capacity s (at_entry c)) as Hfull.
  rewrite acquire_all_cons. cbn [snd map].
  destruct (acquire_cases (at_entry c) (after_sleep c) (amount c) s)
    as [(Hle & Hr & _ & Htok & Hlast & _)
       | [(Hlt & _) | (Hlt & _)]]; try lra.
  rewrite Hr. f_equal. apply IH.
  - assumption.
  - rewrite Htok. lra.
  - rewrite Htok.
    assert (Hsame : burst_size
                      (after (acquire (at_entry c) (after_sleep c) (amount c) s))
                    = burst_size s).
    { unfold acquire.
      repeat match goal with |- context [if ?b then _ else _] => destruct b end;
        reflexivity. }
    rewrite Hsame. lra.
  - rewrite acquire_keeps_rate. assumption.
  - rewrite Hlast. assumption.
Qed.

(** X4. The two counters count what they say: over any run,
    [total_requests] advances by the number of calls that returned and
    [total_waits] by the number of those that returned a wait other
    than zero; so [get_stats] reports a waiting percentage between 0
    and 100 whenever it started from counters in that order. *)
Theorem stats_count_calls (calls : list Call) (s : TokenBucketRateLimiter) :
  (0 <= total_waits s <= total_requests s)%Z ->
  let s' := fst (acquire_all calls s) in
  let results := snd (acquire_all calls s) in
  st_total_requests (get_stats s')
  = (total_requests s + Z.of_nat (length (List.filter returned_ok results)))%Z
  /\ st_total_waits (get_stats s')
     = (total_waits s + Z.of_nat (length (List.filter waited results)))%Z
  /\ (0 <= st_total_waits (get_stats s') <= st_total_requests (get_stats s'))%Z
  /\ 0 <= st_wait_percentage (get_stats s')
  /\ st_wait_percentage (get_stats s') <= 100.
Proof.
  intros Horder s' results.
  assert (Hcount :
    total_requests s'
    = (total_requests s + Z.of_nat (length (List.filter returned_ok results)))%Z
    /\ total_waits s'
       = (total_waits s + Z.of_nat (length (List.filter waited results)))%Z
    /\ (length (List.filter waited results)
        <= length (List.filter returned_ok results))%nat).
  { subst s' results. clear Horder. revert s.
    induction calls as [| c rest IH]; intros s.
    { cbn. split; [lia | split; [lia | lia]]. }
    rewrite acquire_all_cons. cbn [fst snd List.filter].
    destruct (IH (after (acquire (at_entry c) (after_sleep c) (amount c) s)))
      as (IHr & IHw & IHle).
    rewrite IHr, IHw.
    destruct (acquire_cases (at_entry c) (after_sleep c) (amount c) s)
      as [(_ & Hr & _ & _ & _ & Hreq & Hwaits)
         | [(Hlt & Hrate & Hr & _ & _ & _ & Hreq & Hwaits)
         | (_ & _ & [e He] & _ & _ & _ & Hreq & Hwaits)]];
      rewrite Hreq, Hwaits.
    - rewrite Hr. cbn [returned_ok waited Qeq_bool]. cbn [length].
      change (negb (Qeq_bool 0 0)) with false. cbn iota. lia.
    - rewrite Hr. cbn [returned_ok waited].
      pose proof (wait_positive s (at_entry c) (amount c) Hrate Hlt) as Hpos.
      assert (Hnz : Qeq_bool ((inject_Z (amount c) - refilled s (at_entry c))
                              / tokens_per_second s) 0 = false).
      { apply not_true_iff_false. rewrite Qeq_bool_iff. intros H.
        rewrite H in Hpos. exact (Qlt_irrefl 0 Hpos). }
      rewrite Hnz. cbn [negb length]. lia.
    - rewrite He. cbn [returned_ok waited]. lia. }
  destruct Hcount as (Hreq & Hwaits & Hle).
  unfold get_stats. cbn [st_total_requests st_total_waits st_wait_percentage].
  refine (conj Hreq (conj Hwaits _)).
  assert (Hbounds : (0 <= total_waits s' <= total_requests s')%Z) by lia.
  split; [exact Hbounds |].
  destruct (total_requests s' >? 0)%Z eqn:Hpos; [| split; lra].
  apply Z.gtb_lt in Hpos.
  assert (Hq : 0 < inject_Z (total_requests s'))
    by (change 0 with (inject_Z 0); rewrite <- Zlt_Qlt; lia).
  assert (Hw : 0 <= inject_Z (total_waits s'))
    by (change 0 with (inject_Z 0); rewrite <- Zle_Qle; lia).
  assert (Hwr : inject_Z (total_waits s') <= inject_Z (total_requests s'))
    by (rewrite <- Zle_Qle; lia).
  assert (Hfrac0 : 0 <= inject_Z (total_waits s') / inject_Z (total_requests s')).
  { apply Qle_shift_div_l; [assumption | lra]. }
  assert (Hfrac1 : inject_Z (total_waits s') / inject_Z (total_requests s') <= 1).
  { apply Qle_shift_div_r; [assumption | lra]. }
  split; lra.
Qed.

End LimiterRuns.


(** A request for 25 tokens on the fresh bucket of the default
    settings waits three seconds and leaves the bucket empty. *)
Lemma acquire_keeps_tokens_in_range_witness :
  let s := RateLimiter.init RateLimiter.default_settings None None 0 in
  RateLimiter.returned (RateLimiter.acquire 0 3 25 s)
  = Ok ((inject_Z 25 - RateLimiter.refilled s 0)
        / RateLimiter.tokens_per_second s)%Q
  /\ (0 <= RateLimiter.tokens (RateLimiter.after (RateLimiter.acquire 0 3 25 s))
      <= inject_Z (RateLimiter.burst_size s))%Q.
Proof.
  intros s. split; [vm_compute; reflexivity |].
  destruct (acquire_keeps_tokens_in_range 0 3 25 s
              ((inject_Z 25 - RateLimiter.refilled s 0)
               / RateLimiter.tokens_per_second s)%Q)
    as (Hlow & Hhigh & _).
  - lia.
  - vm_compute. discriminate.
  - vm_compute. reflexivity.
  - split; assumption.
Defined.

(** The burst of 20 and the call that waits 0.6 seconds: 21 tokens
    granted within a budget of 20 plus one second's worth. *)
Lemma granted_within_budget_witness :
  let s := RateLimiter.init RateLimiter.default_settings None None 0 in
  LimiterTerms.sleeps_in_full LimiterTerms.burst_and_wait s
  /\ LimiterTerms.granted LimiterTerms.burst_and_wait
       (snd (LimiterTerms.acquire_all LimiterTerms.burst_and_wait s)) = 21%Z
  /\ (inject_Z (LimiterTerms.granted LimiterTerms.burst_and_wait
                  (snd (LimiterTerms.acquire_all LimiterTerms.burst_and_wait s)))
      + RateLimiter.tokens
          (fst (LimiterTerms.acquire_all LimiterTerms.burst_and_wait s))
      <= RateLimiter.tokens s
         + RateLimiter.tokens_per_second s
           * (RateLimiter.last_refill
                (fst (LimiterTerms.acquire_all LimiterTerms.burst_and_wait s))
              - RateLimiter.last_refill s))%Q.
Proof.
  intros s.
  assert (Hsleeps : LimiterTerms.sleeps_in_full LimiterTerms.burst_and_wait s).
  { vm_compute. repeat split; try discriminate.
    intros _ wait [= <-]. vm_compute. discriminate. }
  split; [exact Hsleeps |]. split; [vm_compute; reflexivity |].
  exact (granted_within_budget LimiterTerms.burst_and_wait s Hsleeps).
Defined.

(** Twenty calls a second apart on the fresh bucket of the default
    settings: none waits. *)
Lemma burst_served_without_wait_witness :
  let s := RateLimiter.init RateLimiter.default_settings None None 0 in
  LimiterTerms.chronological (RateLimiter.last_refill s)
    LimiterTerms.spread_calls
  /\ snd (LimiterTerms.acquire_all LimiterTerms.spread_calls s)
     = map (fun _ => Ok 0%Q) LimiterTerms.spread_calls.
Proof.
  intros s.
  assert (Hclock : LimiterTerms.chronological (RateLimiter.last_refill s)
                     LimiterTerms.spread_calls).
  { vm_compute. repeat split; discriminate. }
  split; [exact Hclock |].
  refine (burst_served_without_wait LimiterTerms.spread_calls s _ _ _ _ Hclock).
  - vm_compute. repeat constructor; discriminate.
  - vm_compute. discriminate.
  - vm_compute. discriminate.
  - vm_compute. discriminate.
Defined.

(** After the burst of 20 and the call that waits, [get_stats] counts
    21 requests and one wait. *)
Lemma stats_count_calls_witness :
  let s := RateLimiter.init RateLimiter.default_settings None None 0 in
  let s' := fst (LimiterTerms.acquire_all LimiterTerms.burst_and_wait s) in
  RateLimiter.st_total_requests (RateLimiter.get_stats s') = 21%Z
  /\ RateLimiter.st_total_waits (RateLimiter.get_stats s') = 1%Z
  /\ (0 <= RateLimiter.st_wait_percentage (RateLimiter.get_stats s') <= 100)%Q.
Proof.
  intros s s'.
  destruct (stats_count_calls LimiterTerms.burst_and_wait s)
    as (Hrequests & Hwaits & _ & Hlow & Hhigh).
  - vm_compute. split; discriminate.
  - split; [vm_compute; reflexivity |].
    split; [vm_compute; reflexivity |].
    split; assumption.
Defined.

(** ** What a whole extraction keeps *)

Section ExtractionRuns.

Local Abbreviation pages_from_turn := pages_from_unfold.

Import RateLimiter Extractor PaginationTerms ExtractionTerms.

Variable E : Env.

(** [rate_limiter.acquire()] sends nothing and draws no UUID; it counts
    one request when it returns and none when it raises. *)
Lemma rate_limiter_acquire_counts (w : World) :
  let run := rate_limiter_acquire E w in
  posted (fst run) = posted w
  /\ uuids_drawn (fst run) = uuids_drawn w
  /\ total_requests (limiter (fst run))
     = (total_requests (limiter w)
        + match snd run with Ok _ => 1 | Raise _ => 0 end)%Z.
Proof.
  unfold rate_limiter_acquire. cbn [fst snd posted uuids_drawn limiter].
  split; [reflexivity |]. split; [reflexivity |].
  destruct (acquire_cases (time_time E (clock_reads w))
              (time_time E (S (clock_reads w))) 1 (limiter w))
    as [(_ & Hr & _ & _ & _ & Hreq & _)
       | [(_ & _ & Hr & _ & _ & _ & Hreq & _)
       | (_ & _ & [e He] & _ & _ & _ & Hreq & _)]];
    rewrite Hreq; [rewrite Hr | rewrite Hr | rewrite He]; lia.
Qed.

Lemma post_json_sends (r : Request) (w : World) :
  posted (fst (post_json E r w)) = r :: posted w
  /\ limiter (fst (post_json E r w)) = limiter w
  /\ uuids_drawn (fst (post_json E r w)) = uuids_drawn w.
Proof. repeat split. Qed.

Lemma paid_refl (w : World) : paid w w.
Proof. exists []. split; [reflexivity | cbn; lia]. Qed.

Lemma paid_trans (w1 w2 w3 : World) : paid w1 w2 -> paid w2 w3 -> paid w1 w3.
Proof.
  intros (new1 & Hsent1 & Hcount1) (new2 & Hsent2 & Hcount2).
  exists (new2 ++ new1)%list. split.
  - rewrite Hsent2, Hsent1. apply app_assoc.
  - rewrite Hcount2, Hcount1, length_app. lia.
Qed.

(** [_parse_offer] draws at most one UUID. *)
Lemma parse_offer_counter (drawn : nat) (ad : pyval) :
  (drawn <= fst (_parse_offer E drawn ad) <= S drawn)%nat.
Proof.
  unfold _parse_offer, parse_offer_body.
  destruct (offer_parts E ad) as [[[[[adv advertiser] nums] codes] |] | e];
    cbn; lia.
Qed.

(** A record that is kept carries the UUID drawn for it. *)
Lemma parse_offer_id (drawn : nat) (ad offer : pyval) :
  snd (_parse_offer E drawn ad) = Some offer ->
  external_id offer = Ok (PStr (uuid4 E drawn)).
Proof.
  intros H. apply parse_offer_some in H.
  destruct H as (adv & advertiser & nums & codes & _ & Hoffer).
  unfold parsed_offer in Hoffer.
  destruct (get advertiser "nickName" PNone); [| discriminate].
  destruct (get adv "asset" PNone); [| discriminate].
  destruct (get adv "fiatUnit" PNone); [| discriminate].
  destruct (get adv "tradeType" PNone); [| discriminate].
  cbn in Hoffer. injection Hoffer as <-. reflexivity.
Qed.

Lemma ascending_le (lo : nat) (draws : list nat) (hi : nat) :
  ascending lo draws hi -> (lo <= hi)%nat.
Proof.
  revert lo. induction draws as [| d rest IH]; intros lo H; [exact H |].
  destruct H as [Hlo Hrest]. apply IH in Hrest. lia.
Qed.

Lemma ascending_widen (lo : nat) (draws : list nat) (hi hi' : nat) :
  ascending lo draws hi -> (hi <= hi')%nat -> ascending lo draws hi'.
Proof.
  revert lo. induction draws as [| d rest IH]; intros lo H Hle.
  - cbn in *. lia.
  - destruct H as [Hlo Hrest]. split; [exact Hlo | eauto].
Qed.

Lemma ascending_earlier (lo lo' : nat) (draws : list nat) (hi : nat) :
  ascending lo draws hi -> (lo' <= lo)%nat -> ascending lo' draws hi.
Proof.
  destruct draws as [| d rest]; cbn; intros H Hle; [lia |].
  destruct H as [Hlo Hrest]. split; [lia | exact Hrest].
Qed.

Lemma ascending_app (lo : nat) (draws more : list nat) (mid hi : nat) :
  ascending lo draws mid -> ascending mid more hi ->
  ascending lo (draws ++ more) hi.
Proof.
  revert lo. induction draws as [| d rest IH]; intros lo H Hmore.
  - cbn in *. apply ascending_earlier with mid; assumption.
  - destruct H as [Hlo Hrest]. split; [exact Hlo | eauto].
Qed.

Lemma drawn_between_app (lo mid hi : nat) (offers more : list pyval) :
  drawn_between E lo mid offers -> drawn_between E mid hi more ->
  drawn_between E lo hi (offers ++ more).
Proof.
  intros (d1 & Hids1 & Hup1) (d2 & Hids2 & Hup2).
  exists (d1 ++ d2)%list. split.
  - unfold ids_of_draws in *. rewrite !map_app, Hids1, Hids2. reflexivity.
  - eapply ascending_app; eassumption.
Qed.

Lemma drawn_between_widen (lo hi hi' : nat) (offers : list pyval) :
  drawn_between E lo hi offers -> (hi <= hi')%nat ->
  drawn_between E lo hi' offers.
Proof.
  intros (d & Hids & Hup) Hle. exists d.
  split; [exact Hids | eapply ascending_widen; eassumption].
Qed.

(** The [for ad in offers] loop appends records that carry the UUIDs
    drawn for them, in the order drawn. *)
Lemma parse_page_ids (lo : nat) (ads all_offers : list pyval) (drawn : nat) :
  drawn_between E lo drawn all_offers ->
  drawn_between E lo (fst (parse_page E ads all_offers drawn))
    (snd (parse_page E ads all_offers drawn)).
Proof.
  revert all_offers drawn.
  induction ads as [| ad rest IH]; intros all_offers drawn Hall;
    [exact Hall |].
  cbn [parse_page].
  pose proof (parse_offer_counter drawn ad) as Hcounter.
  pose proof (parse_offer_id drawn ad) as Hid.
  pose proof (parse_offer_draws E drawn ad) as Hdraws.
  destruct (_parse_offer E drawn ad) as [drawn' [offer |]]; cbn [fst snd] in *.
  - specialize (Hid _ eq_refl). specialize (Hdraws _ eq_refl). subst drawn'.
    destruct (truthy offer).
    + apply IH. apply drawn_between_app with drawn; [exact Hall |].
      exists [drawn]. split; [cbn; rewrite Hid; reflexivity | cbn; lia].
    + apply IH. apply drawn_between_widen with drawn; [exact Hall | lia].
  - apply IH. apply drawn_between_widen with drawn; [exact Hall | lia].
Qed.

(** The loop appends nothing but what [_parse_offer] returned. *)
Lemma parse_page_parsed (ads all_offers : list pyval) (drawn : nat) :
  Forall (parsed E) all_offers ->
  Forall (parsed E) (snd (parse_page E ads all_offers drawn)).
Proof.
  revert all_offers drawn.
  induction ads as [| ad rest IH]; intros all_offers drawn Hall;
    [exact Hall |].
  cbn [parse_page].
  destruct (_parse_offer E drawn ad) as [drawn' [offer |]] eqn:Hparse;
    [| apply IH; exact Hall].
  destruct (truthy offer); apply IH; [| exact Hall].
  apply Forall_app. split; [exact Hall |].
  constructor; [| constructor].
  exists drawn, ad. rewrite Hparse. reflexivity.
Qed.

Section OnePair.

Variables (fiat asset : pyval) (trade_type : string).

(** Whatever every turn of the [while True] loop keeps, from the call
    of the rate limiter to the end of the [try] block, the whole loop
    keeps, whether it returns or the rate limiter raises. *)
Lemma pages_from_rule (P : list pyval -> World -> Prop) :
  (forall page offers w, P offers w ->
     let (w1, waited) := rate_limiter_acquire E w in
     match waited with
     | Raise _ => P offers w1
     | Ok _ =>
         let '(w2, offers', _) :=
           page_turn E fiat asset trade_type page offers w1 in
         P offers' w2
     end) ->
  forall (n : nat) (page : Z) (offers : list pyval) (w : World),
    (Z.to_nat (max_pages_per_pair E + 1 - page) <= n)%nat ->
    P offers w ->
    let run := pages_from E fiat asset trade_type page offers w in
    exists offers',
      P offers' (fst run)
      /\ forall r, snd run = Ok r -> r = offers'.
Proof.
  intros Hturn. induction n as [| n IH]; intros page offers w Hn HP run;
    subst run; specialize (Hturn page offers w HP);
    pose proof (pages_from_turn E fiat asset trade_type page offers w)
      as Hrun;
    destruct (rate_limiter_acquire E w) as [w1 [wait | e]];
    try (rewrite Hrun; exists offers; split; [exact Hturn | discriminate]);
    destruct (page_turn E fiat asset trade_type page offers w1)
      as [[w2 offers'] [|]];
    try (rewrite Hrun; exists offers';
         split; [exact Hturn | intros r [= <-]; reflexivity]);
    destruct (Z_gt_dec (page + 1) (max_pages_per_pair E));
    try (rewrite Hrun; exists offers';
         split; [exact Hturn | intros r [= <-]; reflexivity]).
  - lia.
  - rewrite Hrun. apply IH; [lia | exact Hturn].
Qed.

Lemma page_turn_world (page : Z) (offers : list pyval) (w : World) :
  let payload :=
    SearchRequest page (max_pages_per_pair E) trade_type asset fiat in
  let t := page_turn E fiat asset trade_type page offers w in
  posted (fst (fst t)) = payload :: posted w
  /\ limiter (fst (fst t)) = limiter w
  /\ ((uuids_drawn (fst (fst t)) = uuids_drawn w /\ snd (fst t) = offers)
      \/ exists ads,
           uuids_drawn (fst (fst t))
           = fst (parse_page E ads offers (uuids_drawn w))
           /\ snd (fst t) = snd (parse_page E ads offers (uuids_drawn w))).
Proof.
  cbv zeta. rewrite page_turn_read.
  destruct (read_page _) as [ads | | |]; cbn [fst snd posted limiter uuids_drawn];
    repeat split; eauto.
Qed.

(** One turn of the loop is paid for: a request is posted only after the
    rate limiter returned, which counts it. *)
Lemma turn_paid (w0 : World) (page : Z) (offers : list pyval) (w : World) :
  paid w0 w ->
  let (w1, waited) := rate_limiter_acquire E w in
  match waited with
  | Raise _ => paid w0 w1
  | Ok _ =>
      let '(w2, _, _) := page_turn E fiat asset trade_type page offers w1 in
      paid w0 w2
  end.
Proof.
  intros Hpaid.
  destruct (rate_limiter_acquire_counts w) as (Hsent & _ & Hcount).
  destruct (rate_limiter_acquire E w) as [w1 [wait | e]];
    cbn [fst snd] in Hsent, Hcount.
  - destruct (page_turn_world page offers w1) as (Hsent2 & Hlimiter & _).
    destruct (page_turn E fiat asset trade_type page offers w1)
      as [[w2 offers'] t]. cbn [fst snd] in Hsent2, Hlimiter.
    apply paid_trans with w; [exact Hpaid |].
    exists [SearchRequest page (max_pages_per_pair E) trade_type asset fiat].
    split; [rewrite Hsent2, Hsent; reflexivity |].
    rewrite Hlimiter, Hcount. cbn. lia.
  - apply paid_trans with w; [exact Hpaid |].
    exists []. split; [exact Hsent | rewrite Hcount; cbn; lia].
Qed.

Lemma extract_pair_paid (w : World) :
  paid w (fst (extract_pair_offers E fiat asset trade_type w)).
Proof.
  unfold extract_pair_offers.
  destruct (pages_from_rule (fun _ w' => paid w w')
              (fun page offers w' H => turn_paid w page offers w' H)
              (Z.to_nat (max_pages_per_pair E + 1 - 1)) 1 [] w
              (Nat.le_refl _) (paid_refl w)) as (_ & H & _).
  exact H.
Qed.

(** One turn of the loop appends records that carry the UUIDs drawn
    for them. *)
Lemma turn_ids (lo : nat) (page : Z) (offers : list pyval) (w : World) :
  drawn_between E lo (uuids_drawn w) offers ->
  let (w1, waited) := rate_limiter_acquire E w in
  match waited with
  | Raise _ => drawn_between E lo (uuids_drawn w1) offers
  | Ok _ =>
      let '(w2, offers', _) :=
        page_turn E fiat asset trade_type page offers w1 in
      drawn_between E lo (uuids_drawn w2) offers'
  end.
Proof.
  intros Hids.
  destruct (rate_limiter_acquire_counts w) as (_ & Hdrawn & _).
  destruct (rate_limiter_acquire E w) as [w1 [wait | e]];
    cbn [fst snd] in Hdrawn; rewrite <- Hdrawn in Hids; [| exact Hids].
  destruct (page_turn_world page offers w1)
    as (_ & _ & [[Hsame Hoffers] | (ads & Hsame & Hoffers)]);
    destruct (page_turn E fiat asset trade_type page offers w1)
      as [[w2 offers'] t]; cbn [fst snd] in Hsame, Hoffers;
    rewrite Hsame, Hoffers; [exact Hids | apply parse_page_ids; exact Hids].
Qed.

Lemma extract_pair_ids (w : World) (offers : list pyval) :
  snd (extract_pair_offers E fiat asset trade_type w) = Ok offers ->
  drawn_between E (uuids_drawn w)
    (uuids_drawn (fst (extract_pair_offers E fiat asset trade_type w)))
    offers.
Proof.
  unfold extract_pair_offers. intros Hrun.
  destruct (pages_from_rule
              (fun offers' w' =>
                 drawn_between E (uuids_drawn w) (uuids_drawn w') offers')
              (fun page offers' w' H => turn_ids (uuids_drawn w) page offers' w' H)
              (Z.to_nat (max_pages_per_pair E + 1 - 1)) 1 [] w
              (Nat.le_refl _))
    as (offers' & Hids & Hsame).
  - exists []. split; [reflexivity | cbn; lia].
  - rewrite (Hsame _ Hrun). exact Hids.
Qed.

(** Drawing UUIDs is all a task does to the counter: it never goes
    back. *)
Lemma extract_pair_counter (w : World) :
  (uuids_drawn w
   <= uuids_drawn (fst (extract_pair_offers E fiat asset trade_type w)))%nat.
Proof.
  unfold extract_pair_offers.
  destruct (pages_from_rule
              (fun offers' w' =>
                 drawn_between E (uuids_drawn w) (uuids_drawn w') offers')
              (fun page offers' w' H => turn_ids (uuids_drawn w) page offers' w' H)
              (Z.to_nat (max_pages_per_pair E + 1 - 1)) 1 [] w
              (Nat.le_refl _))
    as (offers' & (draws & _ & Hup) & _).
  - exists []. split; [reflexivity | cbn; lia].
  - eapply ascending_le; eassumption.
Qed.

Lemma turn_parsed (page : Z) (offers : list pyval) (w : World) :
  Forall (parsed E) offers ->
  let (w1, waited) := rate_limiter_acquire E w in
  match waited with
  | Raise _ => Forall (parsed E) offers
  | Ok _ =>
      let '(w2, offers', _) :=
        page_turn E fiat asset trade_type page offers w1 in
      Forall (parsed E) offers'
  end.
Proof.
  intros Hparsed.
  destruct (rate_limiter_acquire E w) as [w1 [wait | e]]; [| exact Hparsed].
  destruct (page_turn_world page offers w1)
    as (_ & _ & [[_ Hoffers] | (ads & _ & Hoffers)]);
    destruct (page_turn E fiat asset trade_type page offers w1)
      as [[w2 offers'] t]; cbn [fst snd] in Hoffers;
    rewrite Hoffers; [exact Hparsed | apply parse_page_parsed; exact Hparsed].
Qed.

Lemma extract_pair_parsed (w : World) (offers : list pyval) :
  snd (extract_pair_offers E fiat asset trade_type w) = Ok offers ->
  Forall (parsed E) offers.
Proof.
  unfold extract_pair_offers. intros Hrun.
  destruct (pages_from_rule (fun offers' _ => Forall (parsed E) offers')
              (fun page offers' w' H => turn_parsed page offers' w' H)
              (Z.to_nat (max_pages_per_pair E + 1 - 1)) 1 [] w
              (Nat.le_refl _) (List.Forall_nil _))
    as (offers' & Hparsed & Hsame).
  rewrite (Hsame _ Hrun). exact Hparsed.
Qed.

End OnePair.

Lemma get_all_trading_pairs_paid (w : World) :
  paid w (fst (get_all_trading_pairs E w)).
Proof.
  unfold get_all_trading_pairs.
  destruct (rate_limiter_acquire_counts w) as (Hsent & _ & Hcount).
  destruct (rate_limiter_acquire E w) as [w1 [wait | e]];
    cbn [fst snd] in *.
  - exists [PairsRequest]. split; [cbn; rewrite Hsent; reflexivity |].
    cbn. rewrite Hcount. lia.
  - exists []. split; [exact Hsent | rewrite Hcount; cbn; lia].
Qed.

Lemma sequential_pool_paid (pairs : list Pair) (w : World) :
  paid w (fst (sequential_pool E w pairs)).
Proof.
  revert w. induction pairs as [| p rest IH]; intros w; [apply paid_refl |].
  cbn [sequential_pool].
  pose proof (extract_pair_paid (Extractor.fiat p) (Extractor.asset p)
                (Extractor.trade_type p) w) as Hfirst.
  destruct (extract_pair_offers E (Extractor.fiat p) (Extractor.asset p)
              (Extractor.trade_type p) w) as [w1 r].
  specialize (IH w1). destruct (sequential_pool E w1 rest) as [w2 more].
  cbn [fst] in *. eapply paid_trans; eassumption.
Qed.

Lemma ascending_bounds (lo : nat) (draws : list nat) (hi : nat) :
  ascending lo draws hi -> forall d, In d draws -> (lo <= d < hi)%nat.
Proof.
  revert lo. induction draws as [| d0 rest IH]; intros lo Hup d Hin;
    [destruct Hin |].
  destruct Hup as [Hlo Hrest]. destruct Hin as [<- | Hin].
  - apply ascending_le in Hrest. lia.
  - specialize (IH _ Hrest d Hin). lia.
Qed.

(** Draws that go up give ids that differ, unless [uuid4] repeats
    itself. *)
Lemma ids_distinct (lo : nat) (draws : list nat) (hi : nat) :
  ascending lo draws hi -> draws_differ E lo hi ->
  NoDup (ids_of_draws E draws).
Proof.
  intros Hup Hdiffer. revert lo Hup Hdiffer.
  induction draws as [| d rest IH]; intros lo Hup Hdiffer;
    [constructor |].
  pose proof (ascending_bounds _ _ _ Hup) as Hbounds.
  destruct Hup as [Hlo Hrest]. cbn. constructor.
  - intros Hin. apply list_elem_of_In, in_map_iff in Hin.
    destruct Hin as (d' & Heq & Hin).
    injection Heq as Heq.
    pose proof (ascending_bounds _ _ _ Hrest d' Hin) as Hd'.
    assert (d' = d); [| lia].
    apply Hdiffer; [lia | apply Hbounds; left; reflexivity | exact Heq].
  - apply (IH (S d) Hrest). intros i j Hi Hj. apply Hdiffer; lia.
Qed.

Lemma drawn_between_distinct (lo hi : nat) (offers : list pyval) :
  drawn_between E lo hi offers -> draws_differ E lo hi ->
  NoDup (map external_id offers).
Proof.
  intros (draws & Hids & Hup) Hdiffer. rewrite Hids.
  eapply ids_distinct; eassumption.
Qed.

(** The tasks of a pool of one worker draw their UUIDs one after the
    other. *)
Lemma sequential_pool_ids (pairs : list Pair) (w : World) :
  drawn_between E (uuids_drawn w)
    (uuids_drawn (fst (sequential_pool E w pairs)))
    (flat_map CollectionTerms.contribution (snd (sequential_pool E w pairs))).
Proof.
  revert w. induction pairs as [| p rest IH]; intros w.
  { exists []. split; [reflexivity | cbn; lia]. }
  cbn [sequential_pool].
  pose proof (extract_pair_ids (Extractor.fiat p) (Extractor.asset p)
                (Extractor.trade_type p) w) as Hfirst.
  pose proof (extract_pair_counter (Extractor.fiat p) (Extractor.asset p)
                (Extractor.trade_type p) w) as Hcounter.
  destruct (extract_pair_offers E (Extractor.fiat p) (Extractor.asset p)
              (Extractor.trade_type p) w) as [w1 r].
  specialize (IH w1). destruct (sequential_pool E w1 rest) as [w2 more].
  cbn [fst snd flat_map] in *.
  apply drawn_between_app with (uuids_drawn w1); [| exact IH].
  destruct r as [offers | e]; cbn.
  - apply Hfirst. reflexivity.
  - exists []. split; [reflexivity | exact Hcounter].
Qed.

Lemma sequential_pool_parsed : hands_back_parsed E (sequential_pool E).
Proof.
  intros w pairs. revert w.
  induction pairs as [| p rest IH]; intros w; [constructor |].
  cbn [sequential_pool].
  pose proof (extract_pair_parsed (Extractor.fiat p) (Extractor.asset p)
                (Extractor.trade_type p) w) as Hfirst.
  destruct (extract_pair_offers E (Extractor.fiat p) (Extractor.asset p)
              (Extractor.trade_type p) w) as [w1 r].
  specialize (IH w1). destruct (sequential_pool E w1 rest) as [w2 more].
  cbn [fst snd] in *. constructor; [| exact IH].
  cbn. intros offers ->. apply Hfirst. reflexivity.
Qed.

Lemma get_all_trading_pairs_counter (w : World) :
  uuids_drawn (fst (get_all_trading_pairs E w)) = uuids_drawn w.
Proof.
  unfold get_all_trading_pairs.
  destruct (rate_limiter_acquire_counts w) as (_ & Hdrawn & _).
  destruct (rate_limiter_acquire E w) as [w1 [wait | e]]; exact Hdrawn.
Qed.

(** What [extract_all_offers] returns is what the pool handed back. *)
Lemma extract_all_offers_parsed (pool : Pool) (w : World)
    (offers : list pyval) :
  hands_back_parsed E pool ->
  snd (extract_all_offers E pool w) = Ok offers ->
  Forall (parsed E) offers.
Proof.
  intros Hpool. unfold extract_all_offers.
  destruct (get_all_trading_pairs E w) as [w1 [[| p pairs] | e]];
    [intros [= <-]; constructor | | discriminate].
  specialize (Hpool w1 (p :: pairs)).
  destruct (pool w1 (p :: pairs)) as [w2 completed]. cbn [snd] in *.
  intros [= <-]. rewrite collect_flat_map. cbn [app].
  induction Hpool as [| [p' [offers | e]] completed Hfirst _ IH];
    cbn; [constructor | | exact IH].
  apply Forall_app. split; [apply Hfirst; reflexivity | exact IH].
Qed.

(** X5. No call of [session.post] is made without its token: in pair
    discovery, in the extraction of one pair and in a whole extraction
    by a pool of one worker, whether they return or raise, the calls
    made before are still on record and the rate limiter counts
    exactly one granted [acquire] for every call added. The requests
    the retry adapter sends again inside one call are not paid for. *)
Theorem posts_paid_by_acquire (fiat asset : pyval) (trade_type : string)
    (w : World) :
  paid w (fst (get_all_trading_pairs E w))
  /\ paid w (fst (extract_pair_offers E fiat asset trade_type w))
  /\ (forall pool,
        one_worker E pool -> paid w (fst (extract_all_offers E pool w))).
Proof.
  split; [apply get_all_trading_pairs_paid |].
  split; [apply extract_pair_paid |].
  intros pool Hpool. unfold extract_all_offers.
  pose proof (get_all_trading_pairs_paid w) as Hfirst.
  destruct (get_all_trading_pairs E w) as [w1 [[| p pairs] | e]];
    cbn [fst] in *; try exact Hfirst.
  pose proof (sequential_pool_paid (p :: pairs) w1) as Hrun.
  destruct (Hpool w1 (p :: pairs)) as [Hworld _].
  destruct (pool w1 (p :: pairs)) as [w2 completed].
  cbn [fst] in *. subst w2. eapply paid_trans; eassumption.
Qed.

(** X6. The offers [extract_pair_offers] returns carry, in their order,
    UUIDs drawn during the call with draw numbers that go strictly up;
    so no two of them share an external id unless [uuid4] repeats
    itself during the call. *)
Theorem pair_offers_carry_fresh_ids (fiat asset : pyval)
    (trade_type : string) (w : World) (offers : list pyval) :
  let run := extract_pair_offers E fiat asset trade_type w in
  snd run = Ok offers ->
  drawn_between E (uuids_drawn w) (uuids_drawn (fst run)) offers
  /\ (draws_differ E (uuids_drawn w) (uuids_drawn (fst run)) ->
      NoDup (map external_id offers)).
Proof.
  intros run Hrun.
  pose proof (extract_pair_ids fiat asset trade_type w offers Hrun) as Hids.
  split; [exact Hids |]. apply drawn_between_distinct. exact Hids.
Qed.

Lemma one_worker_sequential : one_worker E (sequential_pool E).
Proof. intros w pairs. split; reflexivity. Qed.

Lemma one_worker_reversing : one_worker E (reversing_pool E).
Proof.
  intros w pairs. unfold reversing_pool.
  destruct (sequential_pool E w pairs) as [w' completed].
  split; [reflexivity | symmetry; apply Permutation_rev].
Qed.

(** X7. A whole extraction by a pool of one worker, in whatever order
    its futures are yielded, returns offers that are, up to the order
    of the pairs, those of strictly increasing UUID draws: across all
    pairs of the batch no id is used twice unless [uuid4] repeats
    itself. *)
Theorem batch_carries_fresh_ids (pool : Pool) (w : World)
    (offers : list pyval) :
  let run := extract_all_offers E pool w in
  one_worker E pool ->
  snd run = Ok offers ->
  (exists in_order,
     Permutation offers in_order
     /\ drawn_between E (uuids_drawn w) (uuids_drawn (fst run)) in_order)
  /\ (draws_differ E (uuids_drawn w) (uuids_drawn (fst run)) ->
      NoDup (map external_id offers)).
Proof.
  intros run Hpool Hrun.
  assert (Hids : exists in_order,
            Permutation offers in_order
            /\ drawn_between E (uuids_drawn w) (uuids_drawn (fst run))
                 in_order).
  { subst run. unfold extract_all_offers in *.
    pose proof (get_all_trading_pairs_counter w) as Hcounter.
    destruct (get_all_trading_pairs E w) as [w1 [[| p pairs] | e]];
      cbn [fst snd] in *; [| | discriminate].
    - injection Hrun as <-. exists []. split; [constructor |].
      exists []. split; [reflexivity | cbn; lia].
    - pose proof (sequential_pool_ids (p :: pairs) w1) as Hseq.
      destruct (Hpool w1 (p :: pairs)) as [Hworld Hperm].
      destruct (pool w1 (p :: pairs)) as [w2 completed].
      cbn [fst snd] in *. injection Hrun as <-. subst w2.
      rewrite collect_flat_map. cbn [app].
      exists (flat_map CollectionTerms.contribution
                (snd (sequential_pool E w1 (p :: pairs)))).
      split; [apply Permutation_flat_map, Hperm |].
      rewrite <- Hcounter. exact Hseq. }
  split; [exact Hids |].
  destruct Hids as (in_order & Hperm & Hdrawn). intros Hdiffer.
  apply (Permutation_map external_id) in Hperm.
  rewrite Hperm. eapply drawn_between_distinct; eassumption.
Qed.

End ExtractionRuns.

(** Against the market with two full pages the task returns two
    offers with different ids. *)
Lemma pair_offers_carry_fresh_ids_witness :
  let E := Sample.env ExtractionTerms.market 50 in
  let run :=
    Extractor.extract_pair_offers E (PStr "VES") (PStr "USDT") "BUY"
      Sample.world in
  length (CollectionTerms.offers_of (snd run)) = 2%nat
  /\ NoDup (map ExtractionTerms.external_id
              (CollectionTerms.offers_of (snd run))).
Proof.
  intros E run. split; [vm_compute; reflexivity |].
  destruct (pair_offers_carry_fresh_ids E (PStr "VES") (PStr "USDT") "BUY"
              Sample.world (CollectionTerms.offers_of (snd run)))
    as [_ Hdistinct]; [vm_compute; reflexivity |].
  apply Hdistinct.
  change (Extractor.uuids_drawn Sample.world) with 0%nat.
  replace (Extractor.uuids_drawn _) with 2%nat by (vm_compute; reflexivity).
  intros [| [| i]] [| [| j]] Hi Hj Heq; try lia; try reflexivity;
    vm_compute in Heq; discriminate.
Defined.

(** Against that market a whole extraction whose futures are yielded
    last first returns four offers, those of the SELL pair before
    those of the BUY pair, with four different ids. *)
Lemma batch_carries_fresh_ids_witness :
  let E := Sample.env ExtractionTerms.market 50 in
  let run :=
    Extractor.extract_all_offers E (ExtractionTerms.reversing_pool E)
      Sample.world in
  map ExtractionTerms.external_id (CollectionTerms.offers_of (snd run))
  = [Ok (PStr "c"); Ok (PStr "d"); Ok (PStr "a"); Ok (PStr "b")]
  /\ NoDup (map ExtractionTerms.external_id
              (CollectionTerms.offers_of (snd run))).
Proof.
  intros E run. split; [vm_compute; reflexivity |].
  destruct (batch_carries_fresh_ids E (ExtractionTerms.reversing_pool E)
              Sample.world (CollectionTerms.offers_of (snd run))
              (one_worker_reversing E))
    as [_ Hdistinct]; [vm_compute; reflexivity |].
  apply Hdistinct.
  change (Extractor.uuids_drawn Sample.world) with 0%nat.
  replace (Extractor.uuids_drawn _) with 4%nat by (vm_compute; reflexivity).
  intros [| [| [| [| i]]]] [| [| [| [| j]]]] Hi Hj Heq;
    try lia; try reflexivity; vm_compute in Heq; discriminate.
Defined.

(** Against that market a whole extraction calls [session.post]
    seven times, and the rate limiter counts seven. *)
Example market_requests_counted :
  let E := Sample.env ExtractionTerms.market 50 in
  let w' :=
    fst (Extractor.extract_all_offers E (Extractor.sequential_pool E)
           Sample.world) in
  length (Extractor.posted w') = 7%nat
  /\ RateLimiter.total_requests (Extractor.limiter w') = 7%Z.
Proof. vm_compute. split; reflexivity. Qed.

(** ** What the lookups do to the loader *)

Section LookupEffects.

Import Loader LoaderTerms InvariantTerms BatchTerms IntegrityTerms.

Variable store : Storage.

Lemma has_row_intro (keep : Row -> bool) (id : Z) (r : Row)
    (stored : list Stored) :
  In (id, r) stored -> keep r = true -> has_row keep id stored = true.
Proof.
  intros Hin Hkeep. unfold has_row. apply existsb_exists.
  exists (id, r). split; [exact Hin |]. cbn. rewrite Z.eqb_refl. exact Hkeep.
Qed.

Lemma has_row_app (keep : Row -> bool) (id : Z) (stored more : list Stored) :
  has_row keep id stored = true -> has_row keep id (stored ++ more) = true.
Proof.
  unfold has_row. rewrite existsb_app. intros ->. reflexivity.
Qed.

Lemma has_row_weaken (keep keep' : Row -> bool) (id : Z)
    (stored : list Stored) :
  (forall r, keep r = true -> keep' r = true) ->
  has_row keep id stored = true -> has_row keep' id stored = true.
Proof.
  intros Hweak. unfold has_row. rewrite !existsb_exists.
  intros (s & Hin & Hs). exists s. split; [exact Hin |].
  apply andb_true_iff in Hs. destruct Hs as [Hid Hkeep].
  rewrite Hid. cbn. apply Hweak, Hkeep.
Qed.

(** What the creation branch of a lookup does: rows are appended; the
    loader is touched only when the new row is stored, and then the
    row is visible under the key returned. *)
Lemma create_effect (r : Row) (f : Z -> DataLoader -> DataLoader)
    (st : State) :
  let run :=
    (id <~ add_and_flush store r ;; _ <~ with_loader (f id) ;; ret id) st in
  (exists inserted, rows (fst run) = (rows st ++ inserted)%list)
  /\ pending (fst run) = []
  /\ ((loader (fst run) = loader st /\ exists e, snd run = Raise e)
      \/ exists id,
           snd run = Ok id /\ loader (fst run) = f id (loader st)
           /\ In (id, r) (rows (fst run))).
Proof.
  cbv zeta. unfold mbind, with_loader, ret.
  destruct (add_and_flush_appends store r st)
    as (inserted & rest & Hrows & _ & Hok & Hpending & Hloader & _).
  destruct (add_and_flush store r st) as [st1 [id | e]];
    cbn [fst snd loader rows pending] in *.
  - split; [eauto |]. split; [exact Hpending |]. right. exists id.
    split; [reflexivity |]. split; [rewrite Hloader; reflexivity |].
    destruct (Hok id eq_refl) as (earlier & -> & _).
    rewrite Hrows. apply in_or_app. right. apply in_or_app. right.
    left. reflexivity.
  - split; [eauto |]. split; [exact Hpending |]. left. eauto.
Qed.

Lemma find_has_row (keep : Row -> bool) (stored : list Stored) (id : Z)
    (r : Row) :
  List.find (fun s => keep (snd s)) stored = Some (id, r) ->
  has_row keep id stored = true.
Proof.
  intros Hfind. apply find_some in Hfind. destruct Hfind as [Hin Hkeep].
  eapply has_row_intro; eassumption.
Qed.

Ltac found_or_created Hcache :=
  lazymatch goal with
  | |- lookup_effect ?cache ?put ?keep (PStr ?k) ?st
         (match List.find ?p (rows ?st) with _ => _ end) =>
      let Hfind := fresh "Hfind" in
      destruct (List.find p (rows st)) as [[? ?] |] eqn:Hfind;
      [ cbn [fst snd rows loader pending];
        refine (conj (ex_intro _ [] _) (conj (or_introl eq_refl)
                  (conj (or_intror _) _)));
        [ symmetry; apply app_nil_r
        | eexists _, _; repeat split; try reflexivity;
          [exact Hcache | eapply find_has_row, Hfind]
        | intros ? [= <-]; eexists; split; [reflexivity |];
          cbn; apply lookup_insert_eq ]
      | ]
  end.

Ltac created Hcache :=
  lazymatch goal with
  | |- lookup_effect ?cache ?put ?keep (PStr ?k) ?st0
         ((id <~ add_and_flush store ?r ;; _ <~ with_loader (?f id) ;; ret id)
            ?st) =>
      let Hrows := fresh "Hrows" in
      let Hpending := fresh "Hpending" in
      let Hcase := fresh "Hcase" in
      destruct (create_effect r f st) as (Hrows & Hpending & Hcase);
      refine (conj Hrows (conj (or_intror Hpending) _));
      destruct Hcase as [[Hloader [e He]] | (id & Hid & Hloader & Hin)];
      [ split; [left; exact Hloader | rewrite He; discriminate]
      | split;
        [ right; exists k, id; repeat split; try assumption;
          eapply has_row_intro; [exact Hin | cbn; rewrite String.eqb_refl;
                                              reflexivity]
        | rewrite Hid; intros ? [= <-]; exists k; split; [reflexivity |];
          rewrite Hloader; cbn; apply lookup_insert_eq ] ]
  end.

Ltac not_a_key :=
  cbn; refine (conj (ex_intro _ [] _) (conj (or_introl eq_refl)
                 (conj (or_introl eq_refl) _)));
  [symmetry; apply app_nil_r | discriminate].

Ltac cached Hcache :=
  cbn [fst snd];
  refine (conj (ex_intro _ [] _) (conj (or_introl eq_refl)
            (conj (or_introl eq_refl) _)));
  [ symmetry; apply app_nil_r
  | intros ? [= <-]; eexists; split; [reflexivity | exact Hcache] ].

Lemma crypto_effect (symbol : pyval) (st : State) :
  lookup_effect _crypto_cache cache_crypto has_symbol symbol st
    (_get_or_create_crypto store symbol st).
Proof.
  destruct symbol as [| | | | k | | |]; try not_a_key.
  rewrite crypto_lookup.
  destruct (_crypto_cache (loader st) !! k) as [hit |] eqn:Hcache;
    [cached Hcache |].
  found_or_created Hcache. created Hcache.
Qed.

Lemma fiat_effect (code : pyval) (st : State) :
  lookup_effect _fiat_cache cache_fiat has_currency_code code st
    (_get_or_create_fiat store code st).
Proof.
  destruct code as [| | | | k | | |]; try not_a_key.
  rewrite fiat_lookup.
  destruct (_fiat_cache (loader st) !! k) as [hit |] eqn:Hcache;
    [cached Hcache |].
  found_or_created Hcache. created Hcache.
Qed.

Lemma payment_method_effect (code name : pyval) (st : State) :
  lookup_effect _payment_method_cache cache_payment_method has_method_code
    code st (_get_or_create_payment_method store code name st).
Proof.
  destruct code as [| | | | k | | |]; try not_a_key.
  rewrite payment_method_lookup.
  destruct (_payment_method_cache (loader st) !! k) as [hit |] eqn:Hcache;
    [cached Hcache |].
  found_or_created Hcache. created Hcache.
Qed.

Lemma advertiser_effect (adv_id nickname : pyval) (st : State) :
  lookup_effect _advertiser_cache cache_advertiser is_current_advertiser
    adv_id st (_get_or_create_advertiser store adv_id nickname st).
Proof.
  destruct adv_id as [| | | | k | | |]; try not_a_key.
  rewrite advertiser_lookup.
  destruct (_advertiser_cache (loader st) !! k) as [hit |] eqn:Hcache;
    [cached Hcache |].
  found_or_created Hcache. created Hcache.
Qed.

(** A lookup keeps the books. *)
Lemma effect_keeps_books (L0 : DataLoader)
    (cache : DataLoader -> gmap string Z)
    (put : string -> Z -> DataLoader -> DataLoader)
    (keep : string -> Row -> bool) (key : pyval) (st : State)
    (run : State * result Z) :
  (forall k id L,
     cache L !! k = None ->
     cache_grows L (put k id L)
     /\ processed_offers (put k id L) = processed_offers L) ->
  lookup_effect cache put keep key st run ->
  books_kept L0 st -> books_kept L0 (fst run).
Proof.
  intros Hput (_ & _ & [Hsame | (k & id & _ & Hnone & _ & Hloader & _)] & _)
         [Hgrows Htotal]; unfold books_kept.
  - rewrite Hsame. auto.
  - rewrite Hloader. destruct (Hput k id (loader st) Hnone) as [Hg Ht].
    split; [eapply cache_grows_trans; eassumption | congruence].
Qed.

Lemma crypto_keeps_books (L0 : DataLoader) (symbol : pyval) :
  preserves (books_kept L0) (_get_or_create_crypto store symbol).
Proof.
  intros st. apply (effect_keeps_books L0 _ _ _ _ _ _ (fun k id L H =>
    conj (cache_crypto_grows k id L H) eq_refl) (crypto_effect symbol st)).
Qed.

Lemma fiat_keeps_books (L0 : DataLoader) (code : pyval) :
  preserves (books_kept L0) (_get_or_create_fiat store code).
Proof.
  intros st. apply (effect_keeps_books L0 _ _ _ _ _ _ (fun k id L H =>
    conj (cache_fiat_grows k id L H) eq_refl) (fiat_effect code st)).
Qed.

Lemma payment_method_keeps_books (L0 : DataLoader) (code name : pyval) :
  preserves (books_kept L0) (_get_or_create_payment_method store code name).
Proof.
  intros st. apply (effect_keeps_books L0 _ _ _ _ _ _ (fun k id L H =>
    conj (cache_payment_method_grows k id L H) eq_refl)
    (payment_method_effect code name st)).
Qed.

Lemma advertiser_keeps_books (L0 : DataLoader) (adv_id nickname : pyval) :
  preserves (books_kept L0) (_get_or_create_advertiser store adv_id nickname).
Proof.
  intros st. apply (effect_keeps_books L0 _ _ _ _ _ _ (fun k id L H =>
    conj (cache_advertiser_grows k id L H) eq_refl)
    (advertiser_effect adv_id nickname st)).
Qed.

Lemma add_and_flush_keeps_books (L0 : DataLoader) (r : Row) :
  preserves (books_kept L0) (add_and_flush store r).
Proof.
  intros st H. unfold books_kept.
  destruct (add_and_flush_appends store r st)
    as (_ & _ & _ & _ & _ & _ & Hloader & _).
  rewrite Hloader. exact H.
Qed.

Lemma load_dimensions_keeps_books (L0 : DataLoader) (offers : list pyval) :
  preserves (books_kept L0) (_load_dimensions store offers).
Proof.
  apply load_dimensions_preserves.
  - apply crypto_keeps_books.
  - apply fiat_keeps_books.
  - apply payment_method_keeps_books.
  - apply advertiser_keeps_books.
Qed.

Lemma load_facts_keeps_books (L0 : DataLoader) (offers : list pyval)
    (batch_id : string) :
  preserves (books_kept L0) (_load_facts store offers batch_id).
Proof.
  unfold _load_facts. apply preserves_mbind; [intros st H; exact H |].
  intros ts. apply load_facts_from_preserves.
  - apply crypto_keeps_books.
  - apply fiat_keeps_books.
  - apply payment_method_keeps_books.
  - apply advertiser_keeps_books.
  - intros offer_id ts' pm_id st H. exact H.
  - intros fact _. apply add_and_flush_keeps_books.
Qed.

Lemma load_offers_body_books (L0 : DataLoader) (offers : list pyval)
    (batch_id : string) (st : State) :
  books_kept L0 st ->
  let run := load_offers_body store offers batch_id st in
  cache_grows L0 (loader (fst run))
  /\ (snd run = Ok tt ->
      processed_offers (loader (fst run))
      = processed_offers L0 + Z.of_nat (length offers))
  /\ (forall e, snd run = Raise e ->
        processed_offers (loader (fst run)) = processed_offers L0).
Proof.
  intros Hstart. cbv zeta. unfold load_offers_body, mbind.
  pose proof (load_dimensions_keeps_books L0 offers _ Hstart) as Hdims.
  destruct (_load_dimensions store offers st) as [st1 [[] | e]];
    cbn [fst snd] in Hdims |- *.
  - pose proof (load_facts_keeps_books L0 offers batch_id _ Hdims) as Hfacts.
    destruct (_load_facts store offers batch_id st1) as [st2 [[] | e]];
      cbn [fst snd] in Hfacts |- *; destruct Hfacts as [Hgrows Htotal].
    + cbn. split; [exact Hgrows |].
      split; [intros _; rewrite Htotal; reflexivity | discriminate].
    + split; [exact Hgrows |]. split; [discriminate | auto].
  - destruct Hdims as [Hgrows Htotal].
    split; [exact Hgrows |]. split; [discriminate | auto].
Qed.

(** X8. The books of the loader across any [load_offers] call, committed
    or rolled back. No binding of the four caches is dropped or
    changed. The running total advances by the size of the batch
    exactly when both phases ran through, and is left alone when one
    of them raised; a commit that fails afterwards rolls the rows back
    but not the total. *)
Theorem load_offers_keeps_books (offers : list pyval) (batch_id : string)
    (L : DataLoader) (db : Database) :
  let L' := fst (fst (load_offers store offers batch_id L db)) in
  let body :=
    snd (load_offers_body store offers batch_id (session_begin L db)) in
  cache_grows L L'
  /\ (body = Ok tt ->
      processed_offers L' = processed_offers L + Z.of_nat (length offers))
  /\ (forall e, body = Raise e -> processed_offers L' = processed_offers L)
  /\ (snd (load_offers store offers batch_id L db) = Ok tt -> body = Ok tt).
Proof.
  cbv zeta. unfold load_offers.
  destruct offers as [| offer rest].
  { cbn. split; [apply cache_grows_refl |]. split; [intros _; lia |].
    split; reflexivity. }
  unfold get_session.
  assert (Hstart : books_kept L (session_begin L db))
    by (split; [apply cache_grows_refl | reflexivity]).
  pose proof (load_offers_body_books L (offer :: rest) batch_id _ Hstart)
    as Hbody. cbv zeta in Hbody.
  destruct (load_offers_body store (offer :: rest) batch_id
              (session_begin L db)) as [st1 [[] | e]];
    cbn [fst snd] in Hbody |- *.
  - destruct (session_flush_appends store st1)
      as (_ & _ & _ & _ & _ & _ & Hloader).
    destruct (session_flush store st1) as [st2 [[] | e]];
      cbn [fst snd loader] in Hloader |- *; rewrite Hloader;
      destruct Hbody as (Hgrows & Hran & Hraised);
      (split; [exact Hgrows |]); (split; [exact Hran |]);
      (split; [exact Hraised | reflexivity]).
  - destruct Hbody as (Hgrows & Hran & Hraised).
    split; [exact Hgrows |]. split; [exact Hran |].
    split; [exact Hraised | discriminate].
Qed.

(** X9. A lookup that returned is repeatable: the same key resolves to the
    same id again and the second lookup changes nothing, whatever
    name or nickname comes with it. *)
Theorem lookups_are_repeatable (key name name' : pyval) (st : State)
    (id : Z) :
  (snd (_get_or_create_crypto store key st) = Ok id ->
   _get_or_create_crypto store key (fst (_get_or_create_crypto store key st))
   = (fst (_get_or_create_crypto store key st), Ok id))
  /\ (snd (_get_or_create_fiat store key st) = Ok id ->
      _get_or_create_fiat store key (fst (_get_or_create_fiat store key st))
      = (fst (_get_or_create_fiat store key st), Ok id))
  /\ (snd (_get_or_create_payment_method store key name st) = Ok id ->
      _get_or_create_payment_method store key name'
        (fst (_get_or_create_payment_method store key name st))
      = (fst (_get_or_create_payment_method store key name st), Ok id))
  /\ (snd (_get_or_create_advertiser store key name st) = Ok id ->
      _get_or_create_advertiser store key name'
        (fst (_get_or_create_advertiser store key name st))
      = (fst (_get_or_create_advertiser store key name st), Ok id)).
Proof.
  refine (conj _ (conj _ (conj _ _))); intros Hok.
  - destruct (crypto_effect key st) as (_ & _ & _ & Hbinds).
    destruct (Hbinds id Hok) as (k & -> & Hcache).
    rewrite (crypto_lookup store k (fst _)), Hcache. reflexivity.
  - destruct (fiat_effect key st) as (_ & _ & _ & Hbinds).
    destruct (Hbinds id Hok) as (k & -> & Hcache).
    rewrite (fiat_lookup store k (fst _)), Hcache. reflexivity.
  - destruct (payment_method_effect key name st) as (_ & _ & _ & Hbinds).
    destruct (Hbinds id Hok) as (k & -> & Hcache).
    rewrite (payment_method_lookup store k name' (fst _)), Hcache.
    reflexivity.
  - destruct (advertiser_effect key name st) as (_ & _ & _ & Hbinds).
    destruct (Hbinds id Hok) as (k & -> & Hcache).
    rewrite (advertiser_lookup store k name' (fst _)), Hcache. reflexivity.
Qed.

End LookupEffects.

(** Under a storage layer that refuses the bridge rows a batch of one
    offer runs through both phases, its bridge row waiting for the
    commit; the commit fails and nothing is stored, and the running
    total counts the offer all the same. *)
Example count_survives_failed_commit :
  let batch := [LoaderTerms.offer "o1" "VES" "USDT" "adv1" ["Banesco"]] in
  let run :=
    Loader.load_offers IntegrityTerms.no_bridges batch "batch-1"
      Loader.new_loader LoaderTerms.empty_db in
  snd (Loader.load_offers_body IntegrityTerms.no_bridges batch "batch-1"
         (Loader.session_begin Loader.new_loader LoaderTerms.empty_db))
  = Ok tt
  /\ snd run = Raise DBAPIError
  /\ Loader.committed (snd (fst run)) = []
  /\ Loader.processed_offers (fst (fst run)) = 1.
Proof. vm_compute. repeat split. Qed.

(** The advertiser [adv1], looked up a second time under another
    nickname, keeps its key and its first nickname. *)
Example nickname_change_ignored :
  let st := Loader.session_begin Loader.new_loader LoaderTerms.empty_db in
  let first :=
    Loader._get_or_create_advertiser LoaderTerms.accept_all (PStr "adv1")
      (PStr "old name") st in
  let second :=
    Loader._get_or_create_advertiser LoaderTerms.accept_all (PStr "adv1")
      (PStr "new name") (fst first) in
  snd first = Ok 1 /\ snd second = Ok 1
  /\ map snd (Loader.rows (fst second))
     = [Loader.DimAdvertisers "adv1" (PStr "old name") false 0 1700000000 true].
Proof. vm_compute. repeat split. Qed.

(** ** Foreign keys of a committed batch *)

Section Integrity.

Import Loader LoaderTerms InvariantTerms BatchTerms IntegrityTerms.

Variable store : Storage.

Lemma backed_app (keep : string -> Row -> bool) (cache : gmap string Z)
    (stored more : list Stored) :
  backed keep cache stored -> backed keep cache (stored ++ more).
Proof. intros H k id Hk. apply has_row_app, H, Hk. Qed.

Lemma backed_insert (keep : string -> Row -> bool) (cache : gmap string Z)
    (stored : list Stored) (k : string) (id : Z) :
  backed keep cache stored -> has_row (keep k) id stored = true ->
  backed keep (<[k := id]> cache) stored.
Proof.
  intros H Hrow k' id' Hk'. destruct (decide (k = k')) as [<- | Hne].
  - rewrite lookup_insert_eq in Hk'. injection Hk' as <-. exact Hrow.
  - rewrite lookup_insert_ne in Hk' by exact Hne. apply H, Hk'.
Qed.

Lemma caches_backed_app (L : DataLoader) (stored more : list Stored) :
  caches_backed L stored -> caches_backed L (stored ++ more).
Proof.
  intros (Hc & Hf & Hp & Ha).
  repeat split; apply backed_app; assumption.
Qed.

(** Rows appended under an unchanged loader leave the caches
    backed. *)
Lemma appended_keeps_backed {A} (m : M A) :
  (forall st, loader (fst (m st)) = loader st
              /\ exists inserted, rows (fst (m st)) = (rows st ++ inserted)%list) ->
  preserves session_backed m.
Proof.
  intros Hm st H. destruct (Hm st) as [Hloader [inserted Hrows]].
  unfold session_backed. rewrite Hloader, Hrows.
  apply caches_backed_app, H.
Qed.

Ltac lookup_keeps_backed effect :=
  intros st Hbacked;
  destruct (effect st)
    as ([inserted Hrows] & _
        & [Hsame | (k & id & _ & _ & _ & Hloader & Hrow)] & _);
  unfold session_backed;
  [ rewrite Hsame, Hrows; apply caches_backed_app, Hbacked
  | rewrite Hloader;
    apply (caches_backed_app _ _ inserted) in Hbacked;
    rewrite <- Hrows in Hbacked;
    destruct Hbacked as (Hc & Hf & Hp & Ha);
    repeat split; cbn; try assumption;
    apply backed_insert; assumption ].

Lemma crypto_keeps_backed (symbol : pyval) :
  preserves session_backed (_get_or_create_crypto store symbol).
Proof. lookup_keeps_backed (crypto_effect store symbol). Qed.

Lemma fiat_keeps_backed (code : pyval) :
  preserves session_backed (_get_or_create_fiat store code).
Proof. lookup_keeps_backed (fiat_effect store code). Qed.

Lemma payment_method_keeps_backed (code name : pyval) :
  preserves session_backed (_get_or_create_payment_method store code name).
Proof. lookup_keeps_backed (payment_method_effect store code name). Qed.

Lemma advertiser_keeps_backed (adv_id nickname : pyval) :
  preserves session_backed (_get_or_create_advertiser store adv_id nickname).
Proof. lookup_keeps_backed (advertiser_effect store adv_id nickname). Qed.

Lemma add_and_flush_keeps_backed (r : Row) :
  preserves session_backed (add_and_flush store r).
Proof.
  apply appended_keeps_backed. intros st.
  destruct (add_and_flush_appends store r st)
    as (inserted & _ & Hrows & _ & _ & _ & Hloader & _).
  split; [exact Hloader | eauto].
Qed.

Lemma flush_keeps_backed : preserves session_backed (session_flush store).
Proof.
  apply appended_keeps_backed. intros st.
  destruct (session_flush_appends store st)
    as (inserted & _ & Hrows & _ & _ & _ & Hloader).
  split; [exact Hloader | eauto].
Qed.

(** The whole [try] block of [load_offers] keeps the caches backed by
    the rows the session sees, whether it returns or raises. *)
Lemma load_offers_body_keeps_backed (offers : list pyval)
    (batch_id : string) :
  preserves session_backed (load_offers_body store offers batch_id).
Proof.
  apply load_offers_body_preserves.
  - apply crypto_keeps_backed.
  - apply fiat_keeps_backed.
  - apply payment_method_keeps_backed.
  - apply advertiser_keeps_backed.
  - intros offer_id ts pm_id st H. exact H.
  - intros fact _. apply add_and_flush_keeps_backed.
  - intros st H. exact H.
  - intros n st H. exact H.
Qed.

Lemma load_offers_keeps_backed (offers : list pyval) (batch_id : string)
    (L : DataLoader) (db : Database) :
  caches_backed L (committed db) ->
  snd (load_offers store offers batch_id L db) = Ok tt ->
  caches_backed (fst (fst (load_offers store offers batch_id L db)))
    (committed (snd (fst (load_offers store offers batch_id L db)))).
Proof.
  intros Hbacked. unfold load_offers.
  destruct offers as [| offer rest]; [intros _; exact Hbacked |].
  unfold get_session.
  pose proof (load_offers_body_keeps_backed (offer :: rest) batch_id
                (session_begin L db) Hbacked) as Hbody.
  destruct (load_offers_body store (offer :: rest) batch_id
              (session_begin L db)) as [st1 [[] | e]];
    cbn [fst snd] in Hbody |- *; [| discriminate].
  apply flush_keeps_backed in Hbody.
  destruct (session_flush store st1) as [st2 [[] | e]];
    cbn [fst snd] in Hbody |- *; [| discriminate].
  intros _. exact Hbody.
Qed.

Lemma fact_of_offer_keys (offer : pyval) (batch_id : string)
    (ts crypto_id fiat_id advertiser_sk : Z) (fact : Row) :
  fact_of_offer offer batch_id ts crypto_id fiat_id advertiser_sk = Ok fact ->
  keys_of fact = Some (crypto_id, fiat_id, advertiser_sk).
Proof.
  unfold fact_of_offer. intros H.
  repeat match type of H with
         | bind ?r _ = _ => destruct r; cbn [bind] in H; [| discriminate]
         end.
  injection H as <-. reflexivity.
Qed.

(** The facts of a stored batch point at the rows of their offers'
    natural keys, once the caches are backed. *)
Lemma batch_facts_link (L : DataLoader) (stored : list Stored)
    (batch_id : string) (ts : Z) (offers : list pyval)
    (new_facts : list Stored) (new_bridges : list Row) :
  caches_backed L stored ->
  batch_stored L batch_id ts offers new_facts new_bridges ->
  Forall2 (fact_links stored) offers new_facts.
Proof.
  intros (Hc & Hf & _ & Ha).
  induction 1 as [| offer offers offer_id fact new_facts pms group
                    new_bridges Hfact _ _ _ IH]; constructor; [| exact IH].
  destruct Hfact as (crypto_id & fiat_id & advertiser_sk & Hres & Hrow).
  destruct Hres as (asset & fiat & advertiser & adv_id & Hasset & Hcrypto
                    & Hfiat & Hfiat_id & Hadv & Hadv_id & Hsk).
  cbn [fst snd] in Hcrypto, Hfiat_id, Hsk.
  exists asset, fiat, advertiser, adv_id, crypto_id, fiat_id, advertiser_sk.
  repeat split; try assumption.
  - cbn [snd]. eapply fact_of_offer_keys, Hrow.
  - apply Hc, Hcrypto.
  - apply Hf, Hfiat_id.
  - apply Ha, Hsk.
Qed.

(** The bridge rows of a stored batch carry the key of a fact of the
    batch and a key the payment method cache holds. *)
Lemma batch_bridges_link (L : DataLoader) (batch_id : string) (ts : Z)
    (offers : list pyval) (new_facts : list Stored)
    (new_bridges : list Row) :
  batch_stored L batch_id ts offers new_facts new_bridges ->
  Forall (fun r =>
            exists offer_id pm_id code,
              r = FactOfferPaymentMethods offer_id ts pm_id
              /\ _payment_method_cache L !! code = Some pm_id
              /\ In offer_id (map fst new_facts))
         new_bridges.
Proof.
  induction 1 as [| offer offers offer_id fact new_facts pms group
                    new_bridges _ _ Hgroup _ IH]; [constructor |].
  apply Forall_app. split.
  - clear -Hgroup. induction Hgroup as [| pm r pms group Hbridge _ IHg];
      constructor; [| exact IHg].
    destruct Hbridge as (code & pm_id & _ & Hcache & ->).
    exists offer_id, pm_id, code. cbn. auto.
  - eapply List.Forall_impl; [| exact IH].
    intros r (oid & pm_id & code & Hr & Hcache & Hin).
    exists oid, pm_id, code. cbn. auto.
Qed.

Lemma Forall2_right {A B} (R : A -> B -> Prop) (l : list A) (l' : list B)
    (b : B) :
  Forall2 R l l' -> In b l' -> exists a, In a l /\ R a b.
Proof.
  induction 1 as [| a b' l l' Hab _ IH]; intros Hin; [destruct Hin |].
  destruct Hin as [-> | Hin].
  - exists a. split; [left; reflexivity | exact Hab].
  - destruct (IH Hin) as (a' & Hin' & Hr). exists a'. split; [right |]; auto.
Qed.

(** The filter of each lookup keeps rows of its own table only. *)
Lemma symbol_in_table (k : string) (r : Row) :
  has_symbol k r = true -> in_table dim_cryptocurrencies r = true.
Proof. destruct r; try discriminate; reflexivity. Qed.

Lemma currency_code_in_table (k : string) (r : Row) :
  has_currency_code k r = true -> in_table dim_fiat_currencies r = true.
Proof. destruct r; try discriminate; reflexivity. Qed.

Lemma method_code_in_table (k : string) (r : Row) :
  has_method_code k r = true -> in_table dim_payment_methods r = true.
Proof. destruct r; try discriminate; reflexivity. Qed.

Lemma current_advertiser_in_table (k : string) (r : Row) :
  is_current_advertiser k r = true -> in_table dim_advertisers r = true.
Proof. destruct r; try discriminate; reflexivity. Qed.

(** X10. A loader whose caches are backed by the committed rows commits
    batches whose foreign keys all resolve. When [load_offers] returns
    on such a loader, every row it appended points at stored rows: the
    fact of each offer at the rows of the offer's own asset, fiat code
    and advertiser, each bridge row at a fact of the batch and at a
    payment method row. The caches are backed again by what is
    committed, so the next batch starts from the same footing. *)
Theorem committed_batch_resolves (offers : list pyval) (batch_id : string)
    (L : DataLoader) (db : Database) :
  caches_backed L (committed db) ->
  offers <> [] ->
  snd (load_offers store offers batch_id L db) = Ok tt ->
  let L' := fst (fst (load_offers store offers batch_id L db)) in
  let stored := committed (snd (fst (load_offers store offers batch_id L db))) in
  exists new,
    stored = (committed db ++ new)%list
    /\ Forall2 (fact_links stored) offers (facts new)
    /\ Forall (fun s => references_resolve stored (snd s) = true) new
    /\ caches_backed L' stored.
Proof.
  intros Hbacked Hsome Hok. cbv zeta.
  pose proof (load_offers_keeps_backed offers batch_id L db Hbacked Hok)
    as Hbacked'.
  destruct (load_offers_stores_batch store offers batch_id L db Hsome Hok)
    as (new & ts & Hrows & Hbatch & _ & _).
  exists new.
  pose proof (batch_facts_link _ _ _ _ _ _ _ Hbacked' Hbatch) as Hlinks.
  pose proof (batch_bridges_link _ _ _ _ _ _ Hbatch) as Hbridges.
  refine (conj Hrows (conj Hlinks (conj _ Hbacked'))).
  set (stored := committed (snd (fst (load_offers store offers batch_id L db))))
    in *.
  apply List.Forall_forall. intros [id r] Hin. cbn [snd].
  destruct r; try reflexivity.
  - assert (Hfact : In (id, FactOffers offer_external_id batch_id0
                               extraction_timestamp crypto_id fiat_id
                               advertiser_sk trade_type price available_amount
                               min_limit max_limit completion_rate
                               total_orders_count terms_conditions
                               is_available) (facts new)).
    { unfold facts. apply filter_In. split; [exact Hin | reflexivity]. }
    destruct (Forall2_right _ _ _ _ Hlinks Hfact)
      as (offer & _ & asset & fiat & advertiser & adv_id & c & f & a
          & _ & _ & _ & _ & Hkeys & Hc & Hf & Ha).
    cbn in Hkeys. injection Hkeys as <- <- <-. cbn [references_resolve].
    rewrite (has_row_weaken _ _ _ _ (symbol_in_table asset) Hc).
    rewrite (has_row_weaken _ _ _ _ (currency_code_in_table fiat) Hf).
    rewrite (has_row_weaken _ _ _ _ (current_advertiser_in_table adv_id) Ha).
    reflexivity.
  - assert (Hbridge : In (FactOfferPaymentMethods offer_id
                            extraction_timestamp payment_method_id)
                         (map snd (bridges new))).
    { apply in_map_iff. exists (id, FactOfferPaymentMethods offer_id
                                      extraction_timestamp payment_method_id).
      split; [reflexivity |]. unfold bridges. apply filter_In.
      split; [exact Hin | reflexivity]. }
    rewrite List.Forall_forall in Hbridges.
    destruct (Hbridges _ Hbridge) as (oid & pm_id & code & Heq & Hcache & Hoid).
    injection Heq as -> _ ->. cbn [references_resolve].
    destruct Hbacked' as (_ & _ & Hp & _).
    rewrite (has_row_weaken _ _ _ _ (method_code_in_table code)
               (Hp _ _ Hcache)).
    apply in_map_iff in Hoid. destruct Hoid as ([oid' fact] & Hfst & Hfact).
    cbn in Hfst. subst oid'. unfold facts in Hfact.
    apply filter_In in Hfact. destruct Hfact as [Hnew Hisfact].
    cbn [snd] in Hisfact.
    rewrite (has_row_intro (in_table fact_offers) oid fact stored).
    + reflexivity.
    + rewrite Hrows. apply in_or_app. right. exact Hnew.
    + destruct fact; try discriminate. reflexivity.
Qed.

End Integrity.

(** A new loader on an empty warehouse whose storage layer enforces
    the foreign keys: the first batch commits and every row appended
    points at stored rows. *)
Lemma committed_batch_resolves_witness :
  let run :=
    Loader.load_offers IntegrityTerms.enforcing WarehouseSamples.first_batch
      "batch-1" Loader.new_loader LoaderTerms.empty_db in
  snd run = Ok tt
  /\ exists new,
       Loader.committed (snd (fst run))
       = (Loader.committed LoaderTerms.empty_db ++ new)%list
       /\ Forall (fun s =>
                    IntegrityTerms.references_resolve
                      (Loader.committed (snd (fst run))) (snd s) = true)
                 new.
Proof.
  intros run.
  assert (Hok : snd run = Ok tt) by (vm_compute; reflexivity).
  split; [exact Hok |].
  destruct (committed_batch_resolves IntegrityTerms.enforcing
              WarehouseSamples.first_batch "batch-1" Loader.new_loader
              LoaderTerms.empty_db)
    as (new & Hrows & _ & Hresolve & _).
  - repeat split; intros k id H;
      cbn [Loader.new_loader Loader._crypto_cache Loader._fiat_cache
           Loader._payment_method_cache Loader._advertiser_cache] in H;
      rewrite lookup_empty in H; discriminate.
  - discriminate.
  - exact Hok.
  - exists new. split; assumption.
Defined.

(** Without backed caches the guarantee is lost. A batch that is
    rolled back after it resolved VES and USDT leaves both bound to
    keys whose rows are gone. Under a storage layer that enforces the
    foreign keys the next batch that names them is refused and stores
    nothing; under one that does not, it commits facts whose foreign
    keys point at no row. *)
Example rollback_leaves_dangling_keys :
  let failed :=
    Loader.load_offers IntegrityTerms.enforcing [LoaderTerms.parsed_offer]
      "batch-0" Loader.new_loader LoaderTerms.empty_db in
  let refused :=
    Loader.load_offers IntegrityTerms.enforcing WarehouseSamples.first_batch
      "batch-1" (fst (fst failed)) (snd (fst failed)) in
  let lax :=
    Loader.load_offers LoaderTerms.accept_all WarehouseSamples.first_batch
      "batch-1" (fst (fst failed)) (snd (fst failed)) in
  Loader.committed (snd (fst failed)) = []
  /\ Loader._fiat_cache (fst (fst failed)) !! "VES" = Some 1
  /\ Loader._crypto_cache (fst (fst failed)) !! "USDT" = Some 1
  /\ snd refused = Raise DBAPIError
  /\ Loader.committed (snd (fst refused)) = []
  /\ snd lax = Ok tt
  /\ map (fun s =>
            IntegrityTerms.references_resolve
              (Loader.committed (snd (fst lax))) (snd s))
         (LoaderTerms.facts (Loader.committed (snd (fst lax))))
     = [false; false].
Proof. vm_compute. repeat split. Qed.

(** ** The job as a whole *)

Section Job.

Import Extractor Loader LoaderTerms ExtractionTerms IntegrityTerms Main.

Variable E : Env.
Variable store : Storage.
Variable pool : Pool.

(** A batch that starts with a parsed record is rolled back: the
    committed rows and the running total are those of before. *)
Lemma load_offers_refuses_parsed (offer : pyval) (rest : list pyval)
    (batch_id : string) (L : DataLoader) (db : Database) :
  parsed E offer ->
  let run := load_offers store (offer :: rest) batch_id L db in
  (exists e, snd run = Raise e)
  /\ committed (snd (fst run)) = committed db
  /\ processed_offers (fst (fst run)) = processed_offers L.
Proof.
  intros (drawn & ad & Hparsed). cbv zeta.
  apply parsed_offer_has_no_advertiser in Hparsed.
  destruct (load_offers_body_needs_advertiser store offer rest batch_id _
              (session_begin L db) Hparsed) as [e He].
  assert (Hstart : books_kept L (session_begin L db))
    by (split; [apply cache_grows_refl | reflexivity]).
  destruct (load_offers_body_books store L (offer :: rest) batch_id _ Hstart)
    as (_ & _ & Hraised).
  specialize (Hraised e He).
  unfold load_offers, get_session.
  destruct (load_offers_body store (offer :: rest) batch_id
              (session_begin L db)) as [st1 r].
  cbn in He. subst r. cbn. eauto.
Qed.

(** One run of the job leaves the committed rows and the running
    total as they were. *)
Lemma job_rows_and_total (k : Worker) :
  hands_back_parsed E pool ->
  committed (database (fst (job E store pool k))) = committed (database k)
  /\ processed_offers (data_loader (fst (job E store pool k)))
     = processed_offers (data_loader k).
Proof.
  intros Hpool. unfold job.
  destruct (draw_batch_id E (world k)) as [w0 batch_id].
  pose proof (extract_all_offers_parsed E pool w0) as Hparsed.
  destruct (extract_all_offers E pool w0) as [w1 [[| offer rest] | e]];
    cbn [fst snd]; [split; reflexivity | | split; reflexivity].
  specialize (Hparsed _ Hpool eq_refl). inversion Hparsed as [| ? ? Hfirst _].
  destruct (load_offers_refuses_parsed offer rest batch_id (data_loader k)
              (database k) Hfirst) as (_ & Hrows & Htotal).
  destruct (load_offers store (offer :: rest) batch_id (data_loader k)
              (database k)) as [[L db] r].
  cbn [fst snd] in *. split; assumption.
Qed.

(** X11. The job, as the extractor and the loader are written, stores
    nothing: whatever the exchange answers, a run of the job leaves
    the committed rows and the running total as they were. It logs no
    exception when the extraction returned no offer, and logs the
    loader's exception whenever the extraction returned some. *)
Theorem job_stores_nothing (k : Worker) :
  hands_back_parsed E pool ->
  let run := job E store pool k in
  let extracted :=
    snd (extract_all_offers E pool (fst (draw_batch_id E (world k)))) in
  committed (database (fst run)) = committed (database k)
  /\ processed_offers (data_loader (fst run))
     = processed_offers (data_loader k)
  /\ (extracted = Ok [] -> snd run = None)
  /\ (forall offers,
        extracted = Ok offers -> offers <> [] ->
        exists e,
          snd run = Some e
          /\ snd (load_offers store offers
                    (snd (draw_batch_id E (world k)))
                    (data_loader k) (database k)) = Raise e).
Proof.
  intros Hpool. cbv zeta.
  destruct (job_rows_and_total k Hpool) as [Hrows Htotal].
  split; [exact Hrows |]. split; [exact Htotal |].
  unfold job.
  destruct (draw_batch_id E (world k)) as [w0 batch_id]. cbn [fst snd].
  pose proof (extract_all_offers_parsed E pool w0) as Hparsed.
  destruct (extract_all_offers E pool w0) as [w1 [[| offer rest] | e]];
    cbn [fst snd].
  - split; [reflexivity |]. intros offers [= <-] H. destruct (H eq_refl).
  - split; [discriminate |]. intros offers [= <-] _.
    specialize (Hparsed _ Hpool eq_refl).
    inversion Hparsed as [| ? ? Hfirst _].
    destruct (load_offers_refuses_parsed offer rest batch_id (data_loader k)
                (database k) Hfirst) as ([e He] & _).
    destruct (load_offers store (offer :: rest) batch_id (data_loader k)
                (database k)) as [[L db] r].
    cbn [fst snd] in *. subst r. eauto.
  - split; discriminate.
Qed.

(** X12. However often the scheduler runs the job, the warehouse never
    receives a row and the running total never moves. *)
Theorem worker_never_stores (n : nat) (k : Worker) :
  hands_back_parsed E pool ->
  committed (database (runs E store pool n k)) = committed (database k)
  /\ processed_offers (data_loader (runs E store pool n k))
     = processed_offers (data_loader k).
Proof.
  intros Hpool. revert k. induction n as [| n IH]; intros k; [auto |].
  cbn [runs]. destruct (IH (fst (job E store pool k))) as [Hrows Htotal].
  destruct (job_rows_and_total k Hpool) as [Hrows1 Htotal1].
  split; congruence.
Qed.

End Job.

(** One run of the job against the market: four offers are extracted,
    the loader raises on the first, the [KeyError] is logged and the
    warehouse is as empty as before. *)
Lemma job_stores_nothing_witness :
  let E := Sample.env ExtractionTerms.market 50 in
  let k :=
    {| Main.world := Sample.world; Main.data_loader := Loader.new_loader;
       Main.database := LoaderTerms.empty_db |} in
  let run :=
    Main.job E LoaderTerms.accept_all (Extractor.sequential_pool E) k in
  snd run = Some (KeyError "advertiser")
  /\ Loader.committed (Main.database (fst run)) = []
  /\ Loader.processed_offers (Main.data_loader (fst run)) = 0.
Proof.
  intros E k run. split; [vm_compute; reflexivity |].
  destruct (job_stores_nothing E LoaderTerms.accept_all
              (Extractor.sequential_pool E) k (sequential_pool_parsed E))
    as (Hrows & Htotal & _).
  split; [exact Hrows | exact Htotal].
Defined.

(** Three runs of the job against the market: three sessions, each
    rolled back, and a warehouse as empty as before. *)
Lemma worker_never_stores_witness :
  let E := Sample.env ExtractionTerms.market 50 in
  let k :=
    {| Main.world := Sample.world; Main.data_loader := Loader.new_loader;
       Main.database := LoaderTerms.empty_db |} in
  let k' :=
    Main.runs E LoaderTerms.accept_all (Extractor.sequential_pool E) 3 k in
  Loader.events (Main.database k')
  = [ Loader.SessionOpened; Loader.RolledBack; Loader.SessionClosed;
      Loader.SessionOpened; Loader.RolledBack; Loader.SessionClosed;
      Loader.SessionOpened; Loader.RolledBack; Loader.SessionClosed ]
  /\ Loader.committed (Main.database k') = []
  /\ Loader.processed_offers (Main.data_loader k') = 0.
Proof.
  intros E k k'. split; [vm_compute; reflexivity |].
  exact (worker_never_stores E LoaderTerms.accept_all
           (Extractor.sequential_pool E) 3 k (sequential_pool_parsed E)).
Defined.

(** When the exchange does not answer, the job loads nothing, opens no
    session and logs no exception. *)
Example silent_exchange_silent_job :
  let E := Sample.env Sample.no_reply 50 in
  let run :=
    Main.job E LoaderTerms.accept_all (Extractor.sequential_pool E)
      {| Main.world := Sample.world; Main.data_loader := Loader.new_loader;
         Main.database := LoaderTerms.empty_db |} in
  snd run = None /\ Loader.events (Main.database (fst run)) = [].
Proof. vm_compute. split; reflexivity. Qed.

(** ** Unique natural keys *)

Section UniqueKeys.

Import Loader LoaderTerms InvariantTerms KeyTerms.

Variable store : Storage.

Lemma find_none_rows_of (keep : string -> Row -> bool) (k : string)
    (stored : list Stored) :
  List.find (fun s => keep k (snd s)) stored = None ->
  rows_of keep k stored = [].
Proof.
  unfold rows_of. induction stored as [| s stored IH]; cbn; [reflexivity |].
  destruct (keep k (snd s)); [discriminate | exact IH].
Qed.

(** Rows appended by a flush of keyless objects, possibly followed by
    one object that is new: each key still has at most one row. *)
Lemma appended_keeps_one_row (keep : string -> Row -> bool)
    (stored inserted : list Stored) (waiting rest : list Row) (r : Row) :
  Forall (fun x => forall k, keep k x = false) waiting ->
  (waiting ++ [r] = map snd inserted ++ rest)%list ->
  (forall k, keep k r = true -> rows_of keep k stored = []) ->
  one_row_per_key keep stored ->
  one_row_per_key keep (stored ++ inserted).
Proof.
  intros Hquiet Heq Hnew Hone k. unfold rows_of. rewrite List.filter_app.
  destruct (filter_flushed (keep k) inserted waiting rest r)
    as [-> | (Hkeep & id & ->)]; [| exact Heq | |].
  - eapply List.Forall_impl; [| exact Hquiet]. intros x Hx. apply Hx.
  - rewrite app_nil_r. apply Hone.
  - fold (rows_of keep k stored). rewrite (Hnew k Hkeep). cbn. lia.
Qed.

(** An object that is new, added and flushed, leaves the keys
    unique. *)
Lemma add_and_flush_keeps_keys (r : Row) (st : State) :
  is_new r (rows st) -> session_unique st ->
  session_unique (fst (add_and_flush store r st)).
Proof.
  intros Hnew [(Hc & Hf & Hp) Hquiet].
  destruct (add_and_flush_appends store r st)
    as (inserted & rest & Hrows & Heq & _ & Hpending & _).
  split; [| rewrite Hpending; constructor].
  rewrite Hrows.
  refine (conj _ (conj _ _));
    (eapply appended_keeps_one_row; [| exact Heq | | assumption]);
    try (eapply List.Forall_impl; [| exact Hquiet];
         intros x Hx k; apply (Hx k));
    intros k; apply (Hnew k).
Qed.

Lemma keyless_is_new (r : Row) (stored : list Stored) :
  keyless r -> is_new r stored.
Proof.
  intros Hr k. destruct (Hr k) as (H1 & H2 & H3).
  rewrite H1, H2, H3. repeat split; discriminate.
Qed.

Lemma created_keeps_keys (r : Row) (f : Z -> DataLoader -> DataLoader)
    (st : State) :
  is_new r (rows st) -> session_unique st ->
  session_unique
    (fst ((id <~ add_and_flush store r ;; _ <~ with_loader (f id) ;; ret id)
            st)).
Proof.
  intros Hnew Hst. pose proof (add_and_flush_keeps_keys r st Hnew Hst) as H.
  unfold mbind, with_loader, ret.
  destruct (add_and_flush store r st) as [st1 [id | e]]; exact H.
Qed.

Lemma crypto_keeps_keys (symbol : pyval) :
  preserves session_unique (_get_or_create_crypto store symbol).
Proof.
  destruct symbol as [| | | | k | | |]; try (intros st H; exact H).
  intros st Hst. rewrite crypto_lookup.
  destruct (_crypto_cache (loader st) !! k); [exact Hst |].
  destruct (List.find (fun s => has_symbol k (snd s)) (rows st))
    as [[id row] |] eqn:Hfind; [exact Hst |].
  apply created_keeps_keys; [| exact Hst].
  intros k'. cbn. repeat split; try discriminate.
  intros Hk. apply String.eqb_eq in Hk. subst k'.
  apply find_none_rows_of, Hfind.
Qed.

Lemma fiat_keeps_keys (code : pyval) :
  preserves session_unique (_get_or_create_fiat store code).
Proof.
  destruct code as [| | | | k | | |]; try (intros st H; exact H).
  intros st Hst. rewrite fiat_lookup.
  destruct (_fiat_cache (loader st) !! k); [exact Hst |].
  destruct (List.find (fun s => has_currency_code k (snd s)) (rows st))
    as [[id row] |] eqn:Hfind; [exact Hst |].
  apply created_keeps_keys; [| exact Hst].
  intros k'. cbn. repeat split; try discriminate.
  intros Hk. apply String.eqb_eq in Hk. subst k'.
  apply find_none_rows_of, Hfind.
Qed.

Lemma payment_method_keeps_keys (code name : pyval) :
  preserves session_unique (_get_or_create_payment_method store code name).
Proof.
  destruct code as [| | | | k | | |]; try (intros st H; exact H).
  intros st Hst. rewrite payment_method_lookup.
  destruct (_payment_method_cache (loader st) !! k); [exact Hst |].
  destruct (List.find (fun s => has_method_code k (snd s)) (rows st))
    as [[id row] |] eqn:Hfind; [exact Hst |].
  apply created_keeps_keys; [| exact Hst].
  intros k'. cbn. repeat split; try discriminate.
  intros Hk. apply String.eqb_eq in Hk. subst k'.
  apply find_none_rows_of, Hfind.
Qed.

Lemma advertiser_keeps_keys (adv_id nickname : pyval) :
  preserves session_unique (_get_or_create_advertiser store adv_id nickname).
Proof.
  destruct adv_id as [| | | | k | | |]; try (intros st H; exact H).
  intros st Hst. rewrite advertiser_lookup.
  destruct (_advertiser_cache (loader st) !! k); [exact Hst |].
  destruct (List.find (fun s => is_current_advertiser k (snd s)) (rows st))
    as [[id row] |]; [exact Hst |].
  apply created_keeps_keys; [| exact Hst].
  apply keyless_is_new. intros k'. repeat split.
Qed.

Lemma flush_keeps_keys : preserves session_unique (session_flush store).
Proof.
  intros st [(Hc & Hf & Hp) Hquiet].
  destruct (session_flush_appends store st)
    as (inserted & rest & Hrows & Heq & _ & Hpending & _).
  split; [| rewrite Hpending; constructor].
  rewrite Hrows, Heq in *. apply Forall_app in Hquiet.
  destruct Hquiet as [Hall _].
  assert (Hdropped : forall keep : string -> Row -> bool,
            (forall r, keyless r -> forall k, keep k r = false) ->
            forall k, Forall (fun s => keep k (snd s) = false) inserted).
  { intros keep Hkeep k. clear -Hall Hkeep.
    induction inserted as [| s inserted IH]; [constructor |].
    inversion Hall; subst. constructor; auto. }
  refine (conj _ (conj _ _)); intros k; unfold rows_of;
    (rewrite filter_app_dropped;
     [first [apply Hc | apply Hf | apply Hp]
     | apply Hdropped; intros r Hr k'; apply (Hr k')]).
Qed.

(** X13. Whatever the storage layer takes, the loader files at most one row
    under each symbol, each fiat code and each payment method code: a
    warehouse whose three natural keys are unique still has them
    unique after any [load_offers] call, committed or rolled back. A
    lookup creates a row only after it found none under the key, in
    the cache and among the visible rows. *)
Theorem load_offers_keeps_keys_unique (offers : list pyval)
    (batch_id : string) (L : DataLoader) (db : Database) :
  keys_unique (committed db) ->
  keys_unique (committed (snd (fst (load_offers store offers batch_id L db)))).
Proof.
  intros Hone. unfold load_offers.
  destruct offers as [| offer rest]; [exact Hone |].
  unfold get_session.
  assert (Hbody : session_unique
                    (fst (load_offers_body store (offer :: rest) batch_id
                            (session_begin L db)))).
  { apply (load_offers_body_preserves store session_unique).
    - apply crypto_keeps_keys.
    - apply fiat_keeps_keys.
    - apply payment_method_keeps_keys.
    - apply advertiser_keeps_keys.
    - intros offer_id ts pm_id st [H1 H2]. split; [exact H1 |].
      cbn. apply Forall_app. split; [exact H2 |].
      constructor; [| constructor]. intros k. repeat split.
    - intros fact Hfact st Hst. apply add_and_flush_keeps_keys; [| exact Hst].
      apply keyless_is_new. intros k.
      destruct fact; try discriminate. repeat split.
    - intros st H. exact H.
    - intros n st H. exact H.
    - split; [exact Hone | constructor]. }
  destruct (load_offers_body store (offer :: rest) batch_id
              (session_begin L db)) as [st1 [[] | e]]; [| exact Hone].
  cbn in Hbody. apply flush_keeps_keys in Hbody.
  destruct (session_flush store st1) as [st2 [[] | e]]; [| exact Hone].
  apply Hbody.
Qed.

End UniqueKeys.

(** A warehouse that holds USDT, BTC and Banesco already: after the
    first batch, which names all three again, each key still has one
    row. *)
Lemma load_offers_keeps_keys_unique_witness :
  KeyTerms.keys_unique (Loader.committed KeyTerms.stocked_db)
  /\ KeyTerms.keys_unique
       (Loader.committed
          (snd (fst (Loader.load_offers LoaderTerms.accept_all
                       WarehouseSamples.first_batch "batch-1"
                       Loader.new_loader KeyTerms.stocked_db)))).
Proof.
  assert (Hunique : KeyTerms.keys_unique (Loader.committed KeyTerms.stocked_db)).
  { repeat split; intros k; cbn -[String.eqb];
      repeat match goal with
             | |- context [String.eqb ?a k] =>
                 destruct (String.eqb_spec a k)
             end; cbn; try lia; congruence. }
  split; [exact Hunique |].
  exact (load_offers_keeps_keys_unique LoaderTerms.accept_all
           WarehouseSamples.first_batch "batch-1" Loader.new_loader
           KeyTerms.stocked_db Hunique).
Defined.

(** The rows of that warehouse after the batch: USDT, BTC and Banesco
    were found, not stored again. *)
Example known_keys_reused :
  let db' :=
    snd (fst (Loader.load_offers LoaderTerms.accept_all
                WarehouseSamples.first_batch "batch-1" Loader.new_loader
                KeyTerms.stocked_db)) in
  length (KeyTerms.rows_of Loader.has_symbol "USDT" (Loader.committed db'))
  = 1%nat
  /\ length (KeyTerms.rows_of Loader.has_symbol "BTC" (Loader.committed db'))
     = 1%nat
  /\ length (KeyTerms.rows_of Loader.has_method_code "Banesco"
               (Loader.committed db')) = 1%nat
  /\ length (KeyTerms.rows_of Loader.has_method_code "Pago"
               (Loader.committed db')) = 1%nat.
Proof. vm_compute. repeat split. Qed.

(** ** What a committed batch looks like *)

Section Stamps.

Import Loader LoaderTerms BatchTerms StampTerms.

Variable store : Storage.

Lemma fact_of_offer_stamp (offer : pyval) (batch_id : string)
    (ts crypto_id fiat_id advertiser_sk : Z) (fact : Row) :
  fact_of_offer offer batch_id ts crypto_id fiat_id advertiser_sk = Ok fact ->
  stamp_of fact = Some (batch_id, ts)
  /\ external_id_of fact = subscript offer "id".
Proof.
  unfold fact_of_offer. intros H.
  destruct (subscript offer "id") as [id |]; cbn [bind] in H;
    [| discriminate].
  repeat match type of H with
         | bind ?r _ = _ => destruct r; cbn [bind] in H; [| discriminate]
         end.
  injection H as <-. split; reflexivity.
Qed.

(** The facts and bridge rows of a stored batch, read back: the facts
    carry the batch id, the timestamp and the ids of the offers, in
    order; the bridge rows carry the key of their fact and the
    timestamp, one for each payment method. *)
Lemma batch_stored_stamps (L : DataLoader) (batch_id : string) (ts : Z)
    (offers : list pyval) (new_facts : list Stored)
    (new_bridges : list Row) :
  batch_stored L batch_id ts offers new_facts new_bridges ->
  map (fun s => stamp_of (snd s)) new_facts
  = map (fun _ => Some (batch_id, ts)) offers
  /\ map (fun s => external_id_of (snd s)) new_facts
     = map (fun offer => subscript offer "id") offers
  /\ map bridge_stamp new_bridges
     = bridge_stamps ts offers (map fst new_facts).
Proof.
  induction 1 as [| offer offers offer_id fact new_facts pms group
                    new_bridges Hfact Hpms Hgroup _ IH];
    [repeat split |].
  destruct IH as (IHs & IHi & IHb).
  destruct Hfact as (crypto_id & fiat_id & advertiser_sk & _ & Hrow).
  destruct (fact_of_offer_stamp _ _ _ _ _ _ _ Hrow) as [Hstamp Hid].
  cbn [map fst snd bridge_stamps]. rewrite Hstamp, Hid, IHs, IHi, Hpms.
  repeat split. rewrite List.map_app, IHb. f_equal.
  clear -Hgroup. induction Hgroup as [| pm r pms group Hbridge _ IHg];
    [reflexivity |].
  destruct Hbridge as (code & pm_id & _ & _ & ->). cbn. rewrite IHg.
  reflexivity.
Qed.

(** X14. A batch that [load_offers] commits, read back from the warehouse.
    The rows of before are kept. Among the rows appended there is one
    fact for each offer, in the order of the offers, each with the
    batch id, the id of its offer and one timestamp for the whole
    batch; and for each fact one bridge row for each payment method of
    its offer, with the key of that fact and the same timestamp. *)
Theorem committed_batch_reads_back (offers : list pyval) (batch_id : string)
    (L : DataLoader) (db : Database) :
  offers <> [] ->
  snd (load_offers store offers batch_id L db) = Ok tt ->
  exists new ts,
    committed (snd (fst (load_offers store offers batch_id L db)))
    = (committed db ++ new)%list
    /\ map (fun s => stamp_of (snd s)) (facts new)
       = map (fun _ => Some (batch_id, ts)) offers
    /\ map (fun s => external_id_of (snd s)) (facts new)
       = map (fun offer => subscript offer "id") offers
    /\ map (fun s => bridge_stamp (snd s)) (bridges new)
       = bridge_stamps ts offers (map fst (facts new)).
Proof.
  intros Hsome Hok.
  destruct (load_offers_stores_batch store offers batch_id L db Hsome Hok)
    as (new & ts & Hrows & Hbatch & _ & _).
  destruct (batch_stored_stamps _ _ _ _ _ _ Hbatch) as (Hs & Hi & Hb).
  exists new, ts. rewrite List.map_map in Hb. auto.
Qed.

End Stamps.

(** The first batch on an empty warehouse: two facts and three bridge
    rows. *)
Lemma committed_batch_reads_back_witness :
  let run :=
    Loader.load_offers LoaderTerms.accept_all WarehouseSamples.first_batch
      "batch-1" Loader.new_loader LoaderTerms.empty_db in
  snd run = Ok tt
  /\ exists new ts,
       Loader.committed (snd (fst run))
       = (Loader.committed LoaderTerms.empty_db ++ new)%list
       /\ map (fun s => StampTerms.stamp_of (snd s)) (LoaderTerms.facts new)
          = map (fun _ => Some ("batch-1", ts)) WarehouseSamples.first_batch.
Proof.
  intros run.
  assert (Hok : snd run = Ok tt) by (vm_compute; reflexivity).
  split; [exact Hok |].
  destruct (committed_batch_reads_back LoaderTerms.accept_all
              WarehouseSamples.first_batch "batch-1" Loader.new_loader
              LoaderTerms.empty_db)
    as (new & ts & Hrows & Hstamps & _).
  - discriminate.
  - exact Hok.
  - exists new, ts. split; assumption.
Defined.

(** The bridge rows of that batch: two for the first fact, one for the
    second, all with the timestamp of the facts. *)
Example first_batch_bridges :
  let db' :=
    snd (fst (Loader.load_offers LoaderTerms.accept_all
                WarehouseSamples.first_batch "batch-1" Loader.new_loader
                LoaderTerms.empty_db)) in
  map (fun s => StampTerms.stamp_of (snd s))
      (LoaderTerms.facts (Loader.committed db'))
  = [Some ("batch-1", 1700000002); Some ("batch-1", 1700000002)]
  /\ map (fun s => StampTerms.bridge_stamp (snd s))
         (LoaderTerms.bridges (Loader.committed db'))
     = [ Some (1, 1700000002); Some (1, 1700000002); Some (2, 1700000002) ].
Proof. vm_compute. split; reflexivity. Qed.

(** ** The limiter as configured *)

Section ConfiguredLimiter.

Import RateLimiter LimiterTerms.
Local Open Scope Q_scope.

(** A limiter with a positive rate, a bucket that is not overdrawn and
    a clock that is not read behind its stamp returns from every call
    within its reach. *)
Lemma acquire_all_returns (calls : list Call) :
  forall s : TokenBucketRateLimiter,
    0 < tokens_per_second s ->
    0 <= tokens s -> (0 <= burst_size s)%Z ->
    clock_forward calls s ->
    Forall (within_reach s) calls ->
    Forall (fun r => returned_ok r = true) (snd (acquire_all calls s)).
Proof.
  induction calls as [| c rest IH];
    intros s Hrate Htokens Hburst Hclock Hreach; [constructor |].
  destruct Hclock as [Hnow Hclock].
  apply Forall_cons_1 in Hreach. destruct Hreach as [[Hamount Hwait] Hreach].
  rewrite acquire_all_cons. cbn [snd].
  assert (Hcap : 0 <= inject_Z (burst_size s))
    by (change 0 with (inject_Z 0); rewrite <- Zle_Qle; lia).
  assert (Hn : 0 <= inject_Z (amount c))
    by (change 0 with (inject_Z 0); rewrite <- Zle_Qle; lia).
  assert (Hrefilled : 0 <= refilled s (at_entry c)).
  { unfold refilled, py_min.
    assert (0 <= (at_entry c - last_refill s) * tokens_per_second s).
    { apply Qmult_le_0_compat; lra. }
    destruct (Qltb _ _); lra. }
  assert (Hsame : burst_size
                    (after (acquire (at_entry c) (after_sleep c) (amount c) s))
                  = burst_size s).
  { unfold acquire.
    repeat match goal with |- context [if ?b then _ else _] => destruct b end;
      reflexivity. }
  assert (Hnext : Forall (within_reach
                            (after (acquire (at_entry c) (after_sleep c)
                                      (amount c) s))) rest).
  { eapply List.Forall_impl; [| exact Hreach].
    intros c' Hc'. unfold within_reach in *.
    rewrite acquire_keeps_rate. exact Hc'. }
  destruct (acquire_cases (at_entry c) (after_sleep c) (amount c) s)
    as [(Hle & Hr & _ & Htok & _)
       | [(Hlt & _ & Hr & _ & Htok & _)
       | (Hlt & [Hbad | Hlong] & _)]].
  - constructor; [rewrite Hr; reflexivity |].
    apply IH; try assumption.
    + rewrite acquire_keeps_rate. exact Hrate.
    + rewrite Htok. lra.
    + rewrite Hsame. exact Hburst.
  - constructor; [rewrite Hr; reflexivity |].
    apply IH; try assumption.
    + rewrite acquire_keeps_rate. exact Hrate.
    + rewrite Htok. lra.
    + rewrite Hsame. exact Hburst.
  - lra.
  - exfalso.
    assert (Hle : (inject_Z (amount c) - refilled s (at_entry c))
                  / tokens_per_second s
                  <= inject_Z (amount c) / tokens_per_second s).
    { unfold Qdiv. apply Qmult_le_compat_r; [lra |].
      apply Qlt_le_weak, Qinv_lt_0_compat, Hrate. }
    lra.
Qed.

(** X15. A limiter built from a positive default rate and a default
    burst size that is not negative, with arguments that are not
    negative either (no argument and the argument 0 both mean the
    default), never raises as long as the clock is not read behind the
    limiter's own stamp and each amount asked is not negative and
    within reach of one sleep. *)
Theorem configured_limiter_never_raises (settings : Settings)
    (rate_arg burst_arg : option Z) (now : Q) (calls : list Call) :
  (0 < rate_limit_requests_per_minute settings)%Z ->
  (forall v, rate_arg = Some v -> (0 <= v)%Z) ->
  (0 <= rate_limit_burst_size settings)%Z ->
  (forall v, burst_arg = Some v -> (0 <= v)%Z) ->
  clock_forward calls (init settings rate_arg burst_arg now) ->
  Forall (within_reach (init settings rate_arg burst_arg now)) calls ->
  Forall (fun r => returned_ok r = true)
         (snd (acquire_all calls (init settings rate_arg burst_arg now))).
Proof.
  intros Hdefault Harg Hburst_default Hburst_arg Hclock Hreach.
  assert (Hrate : (0 < or_default rate_arg
                         (rate_limit_requests_per_minute settings))%Z).
  { unfold or_default. destruct rate_arg as [v |]; [| exact Hdefault].
    destruct (v =? 0)%Z eqn:Hzero; [exact Hdefault |].
    apply Z.eqb_neq in Hzero. specialize (Harg v eq_refl). lia. }
  assert (Hburst : (0 <= or_default burst_arg
                          (rate_limit_burst_size settings))%Z).
  { unfold or_default. destruct burst_arg as [v |]; [| exact Hburst_default].
    destruct (v =? 0)%Z; [exact Hburst_default | exact (Hburst_arg v eq_refl)]. }
  apply acquire_all_returns; try assumption.
  - unfold init. cbn [tokens_per_second].
    apply Qlt_shift_div_l; [reflexivity |].
    rewrite Qmult_0_l. change 0 with (inject_Z 0). rewrite <- Zlt_Qlt.
    exact Hrate.
  - unfold init. cbn [tokens]. change 0 with (inject_Z 0).
    rewrite <- Zle_Qle. exact Hburst.
Qed.

End ConfiguredLimiter.

(** A limiter asked for the rate 0 under the default settings: the
    burst and the call that waits all return. *)
Lemma configured_limiter_never_raises_witness :
  RateLimiter.rate
    (RateLimiter.init RateLimiter.default_settings (Some 0%Z) None 0) = 100%Z
  /\ Forall (fun r => LimiterTerms.returned_ok r = true)
       (snd (LimiterTerms.acquire_all LimiterTerms.burst_and_wait
               (RateLimiter.init RateLimiter.default_settings (Some 0%Z)
                  None 0))).
Proof.
  split; [reflexivity |].
  apply (configured_limiter_never_raises RateLimiter.default_settings
           (Some 0%Z) None 0 LimiterTerms.burst_and_wait).
  - reflexivity.
  - intros v [= <-]. lia.
  - discriminate.
  - discriminate.
  - vm_compute. repeat split; discriminate.
  - unfold LimiterTerms.burst_and_wait. cbn [repeat app].
    repeat (constructor; [split; vm_compute; discriminate |]). constructor.
Defined.

(** A negative rate is taken as given, and the first call that has to
    wait raises on the negative sleep. *)
Example negative_rate_raises :
  RateLimiter.returned
    (RateLimiter.acquire 0 0 21
       (RateLimiter.init RateLimiter.default_settings (Some (-60)%Z) None 0))
  = Raise ValueError.
Proof. vm_compute. reflexivity. Qed.

(** A clock set back far enough makes the configured limiter raise: the
    refill turns the count negative and the wait leaves the range of
    the sleep. *)
Example clock_set_back_raises :
  RateLimiter.returned
    (RateLimiter.acquire (-100000000000) 0 21
       (RateLimiter.init RateLimiter.default_settings None None 0))
  = Raise OverflowError.
Proof. vm_compute. reflexivity. Qed.
